(** * who-what-benchmark command line (whowhatbench/wwb.py)

    A shallow embedding of [wwb.py] and of the parts of the Python runtime
    it relies on, followed by the properties of its control flow.

    Conventions.
    - A Python [str] is a Rocq [string]; its characters are the code
      points below 256.  Python integers are [Z].
    - [None]-able values are [option]s; a Python truth test
      ([if x:], [x and y]) is written with [truthy].
    - Calls into libraries (transformers, optimum, datasets, pandas, the
      [Evaluator] class, [os], [logging]) are effects: they are recorded in
      a trace and answered by an environment that may raise. *)

From Stdlib Require Import ZArith String Ascii List Lia Bool.
From stdpp Require Import base option list sorting gmap strings.

Open Scope string_scope.
Open Scope list_scope.
Open Scope Z_scope.

(** ** Python strings *)

Module PyStr.

(** [len(s)]. *)
Definition len (s : string) : Z := Z.of_nat (String.length s).

(** Truth value of a string: only the empty string is false. *)
Definition truthy_str (s : string) : bool :=
  match s with
  | EmptyString => false
  | String _ _ => true
  end.

(** Truth value of an optional string: [None] and [""] are false. *)
Definition truthy (o : option string) : bool :=
  match o with
  | None => false
  | Some s => truthy_str s
  end.

(** [c in s] for a one-character string [c]. *)
Fixpoint contains (c : ascii) (s : string) : bool :=
  match s with
  | EmptyString => false
  | String x s' => if Ascii.eqb x c then true else contains c s'
  end.

(** [s.split(c)] for a one-character separator [c]: the fields between
    consecutive separators, empty fields included; never an empty list. *)
Fixpoint split (c : ascii) (s : string) : list string :=
  match s with
  | EmptyString => [EmptyString]
  | String x s' =>
      if Ascii.eqb x c then EmptyString :: split c s'
      else match split c s' with
           | [] => [String x EmptyString]
           | field :: fields => String x field :: fields
           end
  end.

(** [s.lower()] on code points below 256: the ASCII capitals and the
    Latin-1 capitals (192..222 except the multiplication sign 215). *)
Definition lower_char (c : ascii) : ascii :=
  let n := N_of_ascii c in
  if ((65 <=? n) && (n <=? 90))%N then ascii_of_N (n + 32)
  else if ((192 <=? n) && (n <=? 222) && negb (n =? 215))%N then ascii_of_N (n + 32)
  else c.

Fixpoint lower (s : string) : string :=
  match s with
  | EmptyString => EmptyString
  | String c s' => String (lower_char c) (lower s')
  end.

(** Index normalisation of a slice bound: negative bounds count from the
    end, and every bound is clamped to [0..n]. *)
Definition clamp (n i : Z) : Z :=
  if i <? 0 then Z.max 0 (i + n) else Z.min i n.

(** [s[lo:hi]]. *)
Definition slice (s : string) (lo hi : Z) : string :=
  let n := len s in
  let lo' := clamp n lo in
  let hi' := clamp n hi in
  string_of_list_ascii
    (take (Z.to_nat (hi' - lo')) (drop (Z.to_nat lo') (list_ascii_of_string s))).

(** Line boundaries of [str.splitlines] among the code points below 256:
    LF, VT, FF, CR, FS, GS, RS and NEL. *)
Definition is_linebreak (c : ascii) : bool :=
  let n := N_of_ascii c in
  ((n =? 10) || (n =? 11) || (n =? 12) || (n =? 13)
   || (n =? 28) || (n =? 29) || (n =? 30) || (n =? 133))%N.

(** [splitlines_from cur s]: [cur] is the current line, reversed.  CR
    followed by LF is one boundary; a last line without a boundary is
    kept when it is not empty. *)
Fixpoint splitlines_from (cur : list ascii) (s : string) : list string :=
  match s with
  | EmptyString =>
      match cur with
      | [] => []
      | _ => [string_of_list_ascii (rev cur)]
      end
  | String c s' =>
      if is_linebreak c then
        let rest :=
          match s' with
          | String c' s'' =>
              if ((N_of_ascii c =? 13) && (N_of_ascii c' =? 10))%N
              then splitlines_from [] s''
              else splitlines_from [] s'
          | EmptyString => splitlines_from [] s'
          end in
        string_of_list_ascii (rev cur) :: rest
      else splitlines_from (c :: cur) s'
  end.

(** [s.splitlines()]. *)
Definition splitlines (s : string) : list string := splitlines_from [] s.

(** [posixpath.join(a, b)] for two components. *)
Definition ends_with_slash (s : string) : bool :=
  match rev (list_ascii_of_string s) with
  | c :: _ => Ascii.eqb c "/"
  | [] => false
  end.

Definition starts_with_slash (s : string) : bool :=
  match s with
  | String c _ => Ascii.eqb c "/"
  | EmptyString => false
  end.

Definition path_join (a b : string) : string :=
  if starts_with_slash b then b
  else if negb (truthy_str a) || ends_with_slash a then (a ++ b)%string
  else (a ++ "/" ++ b)%string.

End PyStr.

(** ** Python lists *)

Module PyList.

(** [len(l)]. *)
Definition len {A} (l : list A) : Z := Z.of_nat (length l).

(** [l[i]] for an index inside the list. *)
Definition item {A} (l : list A) (i : Z) : option A :=
  if i <? 0 then None else l !! Z.to_nat i.

(** [enumerate(l)], counting from [i]. *)
Fixpoint enumerate_from {A} (i : Z) (l : list A) : list (Z * A) :=
  match l with
  | [] => []
  | x :: l' => (i, x) :: enumerate_from (i + 1) l'
  end.

Definition enumerate {A} (l : list A) : list (Z * A) := enumerate_from 0 l.

End PyList.

(** ** difflib.SequenceMatcher

    The standard-library class behind [diff_strings], as [wwb.py] uses it:
    [SequenceMatcher(None, a, b)], that is [isjunk=None] and
    [autojunk=True], followed by [get_opcodes()].  Sequences are lists of
    characters, indices are Python integers. *)

Module Difflib.
Import PyList.

(** [Match(a, b, size)]. *)
Definition Match : Type := Z * Z * Z.

(** The tag of an opcode. *)
Inductive tag := Replace | Delete | Insert | Equal.

(** An opcode [(tag, i1, i2, j1, j2)]. *)
Definition opcode : Type := tag * Z * Z * Z * Z.

(** First loop of [__chain_b]:
    [indices = b2j.setdefault(elt, []); indices.append(i)]. *)
Definition chain_step (b2j : gmap ascii (list Z)) (ie : Z * ascii) : gmap ascii (list Z) :=
  <[ie.2 := default [] (b2j !! ie.2) ++ [ie.1]]> b2j.

Definition index_b (b : list ascii) : gmap ascii (list Z) :=
  fold_left chain_step (enumerate b) ∅.

(** The popular elements: with [n >= 200], those with more than
    [n // 100 + 1] occurrences. *)
Definition popular_of (n : Z) (b2j : gmap ascii (list Z)) : gset ascii :=
  if 200 <=? n then
    let ntest := n / 100 + 1 in
    dom (filter (λ kv : ascii * list Z, ntest < len kv.2) b2j)
  else ∅.

(** [for elt in popular: del b2j[elt]]. *)
Definition purge (popular : gset ascii) (b2j : gmap ascii (list Z)) : gmap ascii (list Z) :=
  set_fold (λ elt m, delete elt m) b2j popular.

(** The state of a matcher after [set_seqs(a, b)]. *)
Record SequenceMatcher := {
  sm_a : list ascii;
  sm_b : list ascii;
  b2j : gmap ascii (list Z);
  bjunk : gset ascii;
  bpopular : gset ascii
}.

(** [SequenceMatcher(None, a, b)]: no junk predicate, so [bjunk] stays
    empty; [autojunk] is on. *)
Definition new (a b : list ascii) : SequenceMatcher :=
  let idx := index_b b in
  let popular := popular_of (len b) idx in
  {| sm_a := a; sm_b := b; b2j := purge popular idx;
     bjunk := ∅; bpopular := popular |}.

Section find_longest_match.
Variable sm : SequenceMatcher.
Variables alo ahi blo bhi : Z.

(** [isbjunk = self.bjunk.__contains__]. *)
Definition isbjunk (x : ascii) : bool := bool_decide (x ∈ bjunk sm).

(** The state of the search: the row [newj2len] being filled and the
    best match so far. *)
Definition scan : Type := gmap Z Z * Match.

(** Inner loop over [b2j.get(a[i], nothing)], with its [continue] and
    [break]. *)
Fixpoint scan_row (i : Z) (j2len : gmap Z Z) (js : list Z) (st : scan) : scan :=
  match js with
  | [] => st
  | j :: js' =>
      if j <? blo then scan_row i j2len js' st
      else if bhi <=? j then st
      else
        let '(newj2len, (besti, bestj, bestsize)) := st in
        let k := default 0 (j2len !! (j - 1)) + 1 in
        let best := if bestsize <? k then (i - k + 1, j - k + 1, k)
                    else (besti, bestj, bestsize) in
        scan_row i j2len js' (<[j := k]> newj2len, best)
  end.

(** One iteration of [for i in range(alo, ahi)]. *)
Definition scan_step (st : scan) (i : Z) : scan :=
  let '(j2len, best) := st in
  let js := match item (sm_a sm) i with
            | Some x => default [] (b2j sm !! x)
            | None => []
            end in
  scan_row i j2len js (∅, best).

Definition scan_rows : scan :=
  fold_left scan_step (seqZ alo (ahi - alo)) (∅, (alo, blo, 0)).

(** [a[i] == b[j]], both indices inside their sequence. *)
Definition same_item (i j : Z) : bool :=
  match item (sm_a sm) i, item (sm_b sm) j with
  | Some x, Some y => bool_decide (x = y)
  | _, _ => false
  end.

(** [isbjunk(b[j])] compared with [junk]. *)
Definition junk_is (junk : bool) (j : Z) : bool :=
  match item (sm_b sm) j with
  | Some y => Bool.eqb (isbjunk y) junk
  | None => false
  end.

(** [while besti > alo and bestj > blo and <junk test> and
    a[besti-1] == b[bestj-1]]: the loop runs at most [besti - alo]
    times, which is the [fuel] it is given. *)
Fixpoint extend_left (junk : bool) (fuel : nat) (m : Match) : Match :=
  let '(besti, bestj, bestsize) := m in
  match fuel with
  | O => m
  | S fuel' =>
      if (alo <? besti) && (blo <? bestj) && junk_is junk (bestj - 1)
         && same_item (besti - 1) (bestj - 1)
      then extend_left junk fuel' (besti - 1, bestj - 1, bestsize + 1)
      else m
  end.

(** [while besti+bestsize < ahi and bestj+bestsize < bhi and
    <junk test> and a[besti+bestsize] == b[bestj+bestsize]]: at most
    [ahi - (besti+bestsize)] iterations. *)
Fixpoint extend_right (junk : bool) (fuel : nat) (m : Match) : Match :=
  let '(besti, bestj, bestsize) := m in
  match fuel with
  | O => m
  | S fuel' =>
      if (besti + bestsize <? ahi) && (bestj + bestsize <? bhi)
         && junk_is junk (bestj + bestsize)
         && same_item (besti + bestsize) (bestj + bestsize)
      then extend_right junk fuel' (besti, bestj, bestsize + 1)
      else m
  end.

Definition left_fuel (m : Match) : nat := Z.to_nat (m.1.1 - alo).
Definition right_fuel (m : Match) : nat := Z.to_nat (ahi - (m.1.1 + m.2)).

Definition find_longest_match : Match :=
  let m0 := scan_rows.2 in
  let m1 := extend_left false (left_fuel m0) m0 in
  let m2 := extend_right false (right_fuel m1) m1 in
  let m3 := extend_left true (left_fuel m2) m2 in
  extend_right true (right_fuel m3) m3.

End find_longest_match.

(** A pending block [(alo, ahi, blo, bhi)]. *)
Definition block : Type := Z * Z * Z * Z.

(** [while queue:] of [get_matching_blocks].  The queue is a stack whose
    top is the head of the list; [None] is running out of [fuel]. *)
Fixpoint matching_loop (sm : SequenceMatcher) (fuel : nat)
    (queue : list block) (matching_blocks : list Match) : option (list Match) :=
  match queue with
  | [] => Some matching_blocks
  | (alo, ahi, blo, bhi) :: queue' =>
      match fuel with
      | O => None
      | S fuel' =>
          let x := find_longest_match sm alo ahi blo bhi in
          let '(i, j, k) := x in
          if k =? 0 then matching_loop sm fuel' queue' matching_blocks
          else
            let q1 := if (alo <? i) && (blo <? j)
                      then (alo, i, blo, j) :: queue' else queue' in
            let q2 := if (i + k <? ahi) && (j + k <? bhi)
                      then (i + k, ahi, j + k, bhi) :: q1 else q1 in
            matching_loop sm fuel' q2 (matching_blocks ++ [x])
      end
  end.

(** Tuple order of [matching_blocks.sort()]. *)
Definition match_le (x y : Match) : Prop :=
  let '(i1, j1, k1) := x in
  let '(i2, j2, k2) := y in
  i1 < i2 ∨ (i1 = i2 ∧ (j1 < j2 ∨ (j1 = j2 ∧ k1 ≤ k2))).

#[global] Instance match_le_dec x y : Decision (match_le x y).
Proof. destruct x as [[??]?], y as [[??]?]; simpl; apply _. Defined.

(** One iteration of the loop that collapses adjacent blocks. *)
Definition collapse_step (st : Match * list Match) (x : Match) : Match * list Match :=
  let '((i1, j1, k1), non_adjacent) := st in
  let '(i2, j2, k2) := x in
  if (i1 + k1 =? i2) && (j1 + k1 =? j2) then ((i1, j1, k1 + k2), non_adjacent)
  else ((i2, j2, k2),
        if k1 =? 0 then non_adjacent else non_adjacent ++ [(i1, j1, k1)]).

(** The queue starts with the whole of both sequences and is visited at
    most [2 * len(a) + 1] times. *)
Definition queue_fuel (sm : SequenceMatcher) : nat := 2 * length (sm_a sm) + 1.

Definition get_matching_blocks (sm : SequenceMatcher) : list Match :=
  let la := len (sm_a sm) in
  let lb := len (sm_b sm) in
  let matching_blocks :=
    default [] (matching_loop sm (queue_fuel sm) [(0, la, 0, lb)] []) in
  let sorted := merge_sort match_le matching_blocks in
  let '((i1, j1, k1), non_adjacent) := fold_left collapse_step sorted ((0, 0, 0), []) in
  let non_adjacent := if k1 =? 0 then non_adjacent else non_adjacent ++ [(i1, j1, k1)] in
  non_adjacent ++ [(la, lb, 0)].

(** One iteration of the loop of [get_opcodes]. *)
Definition opcode_step (st : Z * Z * list opcode) (x : Match) : Z * Z * list opcode :=
  let '(i, j, answer) := st in
  let '(ai, bj, size) := x in
  let answer :=
    if (i <? ai) && (j <? bj) then answer ++ [(Replace, i, ai, j, bj)]
    else if i <? ai then answer ++ [(Delete, i, ai, j, bj)]
    else if j <? bj then answer ++ [(Insert, i, ai, j, bj)]
    else answer in
  let answer :=
    if size =? 0 then answer
    else answer ++ [(Equal, ai, ai + size, bj, bj + size)] in
  (ai + size, bj + size, answer).

Definition get_opcodes (sm : SequenceMatcher) : list opcode :=
  (fold_left opcode_step (get_matching_blocks sm) (0, 0, [])).2.

End Difflib.

(** ** diff_strings *)

(** The escape character, code point 27. *)
Definition esc : string := String (ascii_of_N 27) EmptyString.

(** The colour markers: [(green, endgreen, red, endred)]. *)
Definition markers (use_loguru_colors : bool) : string * string * string * string :=
  if use_loguru_colors then
    ("<GREEN><black>", "</black></GREEN>", "<RED><black>", "</black></RED>")
  else
    ((esc ++ "[38;5;16;48;5;2m")%string, (esc ++ "[0m")%string,
     (esc ++ "[38;5;16;48;5;1m")%string, (esc ++ "[0m")%string).

(** [difflib.SequenceMatcher(None, a, b).get_opcodes()]. *)
Definition get_opcodes (a b : string) : list Difflib.opcode :=
  Difflib.get_opcodes (Difflib.new (list_ascii_of_string a) (list_ascii_of_string b)).

(** One iteration of the loop over the opcodes: the pieces appended to
    [output]. *)
Definition diff_step (a b : string) (use_loguru_colors : bool)
    (output : list string) (op : Difflib.opcode) : list string :=
  let '(green, endgreen, red, endred) := markers use_loguru_colors in
  let '(opcode, a0, a1, b0, b1) := op in
  match opcode with
  | Difflib.Equal => output ++ [PyStr.slice a a0 a1]
  | Difflib.Insert => output ++ [(green ++ PyStr.slice b b0 b1 ++ endgreen)%string]
  | Difflib.Delete => output ++ [(red ++ PyStr.slice a a0 a1 ++ endred)%string]
  | Difflib.Replace =>
      (output ++ [(green ++ PyStr.slice b b0 b1 ++ endgreen)%string])
        ++ [(red ++ PyStr.slice a a0 a1 ++ endred)%string]
  end.

(** [[""].join(output)]. *)
Definition join (output : list string) : string :=
  fold_right String.append EmptyString output.

Definition diff_strings (a b : string) (use_loguru_colors : bool) : string :=
  join (fold_left (diff_step a b use_loguru_colors) (get_opcodes a b) []).

(** ** Exceptions, external objects and the command line *)

(** The exceptions the program can meet.  [ValueError sub] is
    [ValueError] itself ([None]) or one of its subclasses; an
    [except ValueError] clause catches both.  [OtherException] stands for
    every class outside the [ValueError] family. *)
Inductive exn :=
| AssertionError
| IndexError
| KeyError
| ValueError (subclass : option string)
| OtherException (name : string).

Definition is_ValueError (e : exn) : bool :=
  match e with
  | ValueError _ => true
  | _ => false
  end.

(** The outcome of a call: a value, or an exception on its way up. *)
Inductive result (A : Type) :=
| Normal (a : A)
| Raise (e : exn).
Arguments Normal {A} a.
Arguments Raise {A} e.

(** Objects owned by the libraries; the program only passes them on. *)
Inductive Model := model_obj (id : nat).
Inductive Tokenizer := tokenizer_obj (id : nat).
Inductive Config := config_obj (id : nat).
Inductive Json := json_obj (id : nat).
Inductive EvaluatorObj := evaluator_obj (id : nat).
Inductive Table := table_obj (id : nat).
Inductive DataFrame := dataframe_obj (id : nat).

(** A loaded dataset split: its columns by name, and the exception that
    its subscript raises for a name that is not a column.  The class of
    that exception is the library's ([KeyError] or [ValueError], by its
    release); the program does not fix it. *)
Record Dataset := {
  columns : gmap string (list string);
  missing_column : string → exn
}.

(** The prompts handed to the evaluator: a dict from a key to questions. *)
Definition Prompts : Type := gmap string (list string).

(** The fields of a worst example that [main] reads. *)
Record Example := {
  source_model : string;
  optimized_model : string
}.

(** [choices=["en", "cn"]]. *)
Inductive Language := en | cn.

(** The namespace returned by [parse_args()]. *)
Record Args := {
  base_model : option string;
  target_model : option string;
  tokenizer : option string;
  gt_data : option string;
  text_encoder : string;
  dataset : option string;
  dataset_field : string;
  split : option string;
  output : option string;
  num_samples : option Z;
  verbose : bool;
  device : string;
  ov_config : option string;
  language : option Language;
  hf : bool
}.

(** The namespace of a command line without options. *)
Definition default_args : Args := {|
  base_model := None;
  target_model := None;
  tokenizer := None;
  gt_data := None;
  text_encoder := "sentence-transformers/all-mpnet-base-v2";
  dataset := None;
  dataset_field := "questions";
  split := None;
  output := None;
  num_samples := None;
  verbose := false;
  device := "CPU";
  ov_config := None;
  language := None;
  hf := false
|}.

(** ** Effects *)

(** An argument of a log record. *)
Inductive logarg :=
| LStr (s : string)
| LInt (n : Z)
| LTable (m : Table).

(** The calls that leave the program, with their arguments. *)
Inductive event :=
| EvLog (msg : logarg) (args : list logarg)
| EvAutoModelForCausalLM (model_id : option string) (trust_remote_code : bool)
    (device_map : string)
| EvReadJson (path : string)
| EvOVModelForCausalLM (model_id : option string) (config : option Config)
    (trust_remote_code : bool) (use_cache : option bool) (device : string)
    (ov_config : option Json)
| EvAutoConfig (model_id : option string) (trust_remote_code : bool)
| EvLoadDataset (path : string) (name : option string) (split : string)
| EvAutoTokenizer (model_id : option string) (trust_remote_code : bool)
| EvPathExists (path : string) (answer : bool)
| EvEvaluator (base_model : option Model) (gt_data : option string)
    (test_data : option Prompts) (tokenizer : Tokenizer)
    (similarity_model_id : string) (num_samples : option Z)
    (language : option Language)
| EvDumpGt (evaluator : EvaluatorObj) (csv_name : string)
| EvDel (model : Model)
| EvScore (evaluator : EvaluatorObj) (model : Model)
| EvMkdir (path : string)
| EvDataFrame (data : Table)
| EvToCsv (df : DataFrame) (path : string)
| EvWorstExamples (evaluator : EvaluatorObj) (top_k : Z) (metric : string).

Definition trace : Type := list event.

(** The world outside the program: what each call answers, given the
    calls made so far. *)
Record Env := {
  env_AutoModelForCausalLM : trace → option string → string → result Model;
  env_read_json : trace → string → result Json;
  env_OVModelForCausalLM :
    trace → option string → option Config → option bool → string → option Json
    → result Model;
  env_AutoConfig : trace → option string → result Config;
  env_load_dataset : trace → string → option string → string → result Dataset;
  env_AutoTokenizer : trace → option string → result Tokenizer;
  env_path_exists : trace → string → bool;
  env_Evaluator :
    trace → option Model → option string → option Prompts → Tokenizer → string
    → option Z → option Language → result EvaluatorObj;
  env_dump_gt : trace → EvaluatorObj → string → result unit;
  env_score : trace → EvaluatorObj → Model → result (Table * Table);
  env_mkdir : trace → string → result unit;
  env_DataFrame : trace → Table → result DataFrame;
  env_to_csv : trace → DataFrame → string → result unit;
  env_worst_examples : trace → EvaluatorObj → Z → string → result (list Example)
}.

(** A computation reads the environment, extends the trace and ends with
    a value or an exception. *)
Definition M (A : Type) : Type := Env → trace → trace * result A.

Definition ret {A} (a : A) : M A := λ _ t, (t, Normal a).

Definition raise {A} (e : exn) : M A := λ _ t, (t, Raise e).

Definition bind {A B} (m : M A) (f : A → M B) : M B :=
  λ env t,
    match m env t with
    | (t', Normal a) => f a env t'
    | (t', Raise e) => (t', Raise e)
    end.

(** [try: body  except ValueError: handler]. *)
Definition try_except_ValueError {A} (body handler : M A) : M A :=
  λ env t,
    match body env t with
    | (t', Normal a) => (t', Normal a)
    | (t', Raise e) => if is_ValueError e then handler env t' else (t', Raise e)
    end.

(** An external call: recorded, then answered from the calls before it. *)
Definition call {A} (ev : event) (answer : Env → trace → result A) : M A :=
  λ env t, (t ++ [ev], answer env t).

Declare Scope py_scope.
Delimit Scope py_scope with py.
Notation "x <- m ;; k" := (bind m (λ x, k))
  (at level 100, m at next level, right associativity) : py_scope.
Notation "m ;; k" := (bind m (λ _, k))
  (at level 100, right associativity) : py_scope.
Open Scope py_scope.

(** [for x in l: body]. *)
Fixpoint for_each {A} (l : list A) (body : A → M unit) : M unit :=
  match l with
  | [] => ret tt
  | x :: l' => body x ;; for_each l' body
  end.

(** [assert b], assertions being enabled (no [-O]). *)
Definition assert (b : bool) : M unit :=
  if b then ret tt else raise AssertionError.

(** [l[i]] on a list. *)
Definition list_item {A} (l : list A) (i : nat) : M A :=
  match l !! i with
  | Some x => ret x
  | None => raise IndexError
  end.

(** [d[key]] on a dataset. *)
Definition column (d : Dataset) (key : string) : M (list string) :=
  match columns d !! key with
  | Some c => ret c
  | None => raise (missing_column d key)
  end.

Definition logger_info (msg : logarg) (args : list logarg) : M unit :=
  λ _ t, (t ++ [EvLog msg args], Normal tt).

Definition AutoModelForCausalLM_from_pretrained (model_id : option string)
    (trust_remote_code : bool) (device_map : string) : M Model :=
  call (EvAutoModelForCausalLM model_id trust_remote_code device_map)
       (λ env t, env_AutoModelForCausalLM env t model_id device_map).

(** [with open(path) as f: json.load(f)]. *)
Definition read_json (path : string) : M Json :=
  call (EvReadJson path) (λ env t, env_read_json env t path).

Definition OVModelForCausalLM_from_pretrained (model_id : option string)
    (config : option Config) (trust_remote_code : bool) (use_cache : option bool)
    (dev : string) (ov_options : option Json) : M Model :=
  call (EvOVModelForCausalLM model_id config trust_remote_code use_cache dev ov_options)
       (λ env t, env_OVModelForCausalLM env t model_id config use_cache dev ov_options).

Definition AutoConfig_from_pretrained (model_id : option string)
    (trust_remote_code : bool) : M Config :=
  call (EvAutoConfig model_id trust_remote_code)
       (λ env t, env_AutoConfig env t model_id).

Definition load_dataset (path : string) (name : option string) (split_ : string)
    : M Dataset :=
  call (EvLoadDataset path name split_)
       (λ env t, env_load_dataset env t path name split_).

Definition AutoTokenizer_from_pretrained (model_id : option string)
    (trust_remote_code : bool) : M Tokenizer :=
  call (EvAutoTokenizer model_id trust_remote_code)
       (λ env t, env_AutoTokenizer env t model_id).

(** What [os.path.exists(path)] answers after the calls of [t]; the empty
    path never exists. *)
Definition exists_after (env : Env) (t : trace) (path : string) : bool :=
  PyStr.truthy_str path && env_path_exists env t path.

Definition os_path_exists (path : string) : M bool :=
  λ env t,
    let answer := exists_after env t path in
    (t ++ [EvPathExists path answer], Normal answer).

Definition Evaluator (base : option Model) (gt : option string)
    (test_data : option Prompts) (tok : Tokenizer) (similarity_model_id : string)
    (n : option Z) (lang : option Language) : M EvaluatorObj :=
  call (EvEvaluator base gt test_data tok similarity_model_id n lang)
       (λ env t, env_Evaluator env t base gt test_data tok similarity_model_id n lang).

Definition dump_gt (ev : EvaluatorObj) (csv_name : string) : M unit :=
  call (EvDumpGt ev csv_name) (λ env t, env_dump_gt env t ev csv_name).

(** [del model]. *)
Definition del (m : Model) : M unit := λ _ t, (t ++ [EvDel m], Normal tt).

Definition score (ev : EvaluatorObj) (m : Model) : M (Table * Table) :=
  call (EvScore ev m) (λ env t, env_score env t ev m).

Definition os_mkdir (path : string) : M unit :=
  call (EvMkdir path) (λ env t, env_mkdir env t path).

Definition pd_DataFrame (data : Table) : M DataFrame :=
  call (EvDataFrame data) (λ env t, env_DataFrame env t data).

Definition to_csv (df : DataFrame) (path : string) : M unit :=
  call (EvToCsv df path) (λ env t, env_to_csv env t df path).

Definition worst_examples (ev : EvaluatorObj) (top_k : Z) (metric : string)
    : M (list Example) :=
  call (EvWorstExamples ev top_k metric)
       (λ env t, env_worst_examples env t ev top_k metric).

(** ** The program *)

(** The line feed, code point 10. *)
Definition nl : string := String (ascii_of_N 10) EmptyString.

Definition load_model (model_id : option string) (dev : string)
    (ov_cfg : option string) (use_hf use_genai : bool) : M Model :=
  if use_hf then
    logger_info (LStr "Using HF model") [] ;;
    AutoModelForCausalLM_from_pretrained model_id true (PyStr.lower dev)
  else
    ov_options <-
      match ov_cfg with
      | Some path =>
          if PyStr.truthy_str path
          then (j <- read_json path ;; ret (Some j))
          else ret None
      | None => ret None
      end ;;
    try_except_ValueError
      (OVModelForCausalLM_from_pretrained model_id None true None dev ov_options)
      (config <- AutoConfig_from_pretrained model_id true ;;
       OVModelForCausalLM_from_pretrained model_id (Some config) true (Some true) dev
         ov_options).

Definition load_prompts (args : Args) : M (option Prompts) :=
  match dataset args with
  | None => ret None
  | Some ds =>
      let split_ :=
        match split args with
        | Some s => s
        | None => "validation"
        end in
      path_name <-
        (if PyStr.contains "," ds then
           let path_name := PyStr.split "," ds in
           path <- list_item path_name 0 ;;
           name <- list_item path_name 1 ;;
           ret (path, Some name)
         else ret (ds, None)) ;;
      data <- load_dataset path_name.1 path_name.2 split_ ;;
      res <- column data (dataset_field args) ;;
      ret (Some {["questions" := res]})
  end.

Definition is_None {A} (o : option A) : bool :=
  match o with
  | None => true
  | Some _ => false
  end.

Definition check_args (args : Args) : M unit :=
  assert (negb (is_None (base_model args) && is_None (target_model args))) ;;
  assert (negb (is_None (base_model args) && is_None (gt_data args))).

Definition load_tokenizer (args : Args) : M Tokenizer :=
  match tokenizer args with
  | Some tok => AutoTokenizer_from_pretrained (Some tok) true
  | None =>
      match base_model args with
      | Some base => AutoTokenizer_from_pretrained (Some base) true
      | None => AutoTokenizer_from_pretrained (target_model args) true
      end
  end.

(** One iteration of the loop over the zipped lines of a worst example:
    [(ref_text, actual_text, diff)] after the pair [(l1, l2)]. *)
Definition line_step (st : string * string * string) (ls : string * string)
    : string * string * string :=
  let '(ref_text, actual_text, diff) := st in
  let '(l1, l2) := ls in
  if negb (PyStr.truthy_str l1) && negb (PyStr.truthy_str l2) then st
  else ((ref_text ++ l1 ++ nl)%string,
        (actual_text ++ l2 ++ nl)%string,
        (diff ++ diff_strings l1 l2 false ++ nl)%string).

(** The body of [for i, e in enumerate(worst_examples)]. *)
Definition log_example (ie : Z * Example) : M unit :=
  let '(i, e) := ie in
  let '(ref_text, actual_text, diff) :=
    fold_left line_step
      (zip (PyStr.splitlines (source_model e)) (PyStr.splitlines (optimized_model e)))
      (EmptyString, EmptyString, EmptyString) in
  logger_info (LStr "--------------------------------------------------------------------------------------") [] ;;
  logger_info (LStr ("## Reference text %d:" ++ nl ++ "%s")) [LInt (i + 1); LStr ref_text] ;;
  logger_info (LStr ("## Actual text %d:" ++ nl ++ "%s")) [LInt (i + 1); LStr actual_text] ;;
  logger_info (LStr "## Diff %d: ") [LInt (i + 1)] ;;
  logger_info (LStr diff) [].

(** [main()], from the namespace [args = parse_args()] on. *)
Definition main (args : Args) : M unit :=
  check_args args ;;
  prompts <- load_prompts args ;;
  tok <- load_tokenizer args ;;
  use_gt <-
    match gt_data args with
    | Some path => if PyStr.truthy_str path then os_path_exists path else ret false
    | None => ret false
    end ;;
  evaluator <-
    (if use_gt : bool then
       Evaluator None (gt_data args) prompts tok (text_encoder args)
         (num_samples args) (language args)
     else
       base <- load_model (base_model args) (device args) (ov_config args)
                 (hf args) false ;;
       evaluator <- Evaluator (Some base) None prompts tok (text_encoder args)
                      (num_samples args) (language args) ;;
       match gt_data args with
       | Some path => if PyStr.truthy_str path then dump_gt evaluator path else ret tt
       | None => ret tt
       end ;;
       del base ;;
       ret evaluator) ;;
  match target_model args with
  | Some target_id =>
      if PyStr.truthy_str target_id then
        target <- load_model (target_model args) (device args) (ov_config args)
                    (hf args) false ;;
        metrics <- score evaluator target ;;
        let all_metrics_per_question := metrics.1 in
        let all_metrics := metrics.2 in
        logger_info (LStr "Metrics for model: %s") [LStr target_id] ;;
        logger_info (LTable all_metrics) [] ;;
        match output args with
        | Some out =>
            if PyStr.truthy_str out then
              present <- os_path_exists out ;;
              (if present : bool then ret tt else os_mkdir out) ;;
              df <- pd_DataFrame all_metrics_per_question ;;
              to_csv df (PyStr.path_join out "metrics_per_qustion.csv") ;;
              df <- pd_DataFrame all_metrics ;;
              to_csv df (PyStr.path_join out "metrics.csv")
            else ret tt
        | None => ret tt
        end
      else ret tt
  | None => ret tt
  end ;;
  if verbose args then
    examples <- worst_examples evaluator 5 "similarity" ;;
    for_each (PyList.enumerate examples) log_example
  else ret tt.

(** A run of [main] starts with no call made. *)
Definition run_main (env : Env) (args : Args) : trace * result unit :=
  main args env [].

(** ** Vocabulary of the properties *)

(** The configurations [check_args] refuses. *)
Definition rejects (args : Args) : bool :=
  (is_None (base_model args) && is_None (target_model args))
  || (is_None (base_model args) && is_None (gt_data args)).

(** [c.join(fields)] for a one-character string [c]. *)
Fixpoint join_fields (c : ascii) (fields : list string) : string :=
  match fields with
  | [] => EmptyString
  | [field] => field
  | field :: fields' => (field ++ String c (join_fields c fields'))%string
  end.

(** What [load_prompts] returns once [load_dataset] has answered [r]: the
    dict [{"questions": l}] for the column [l] named [field]. *)
Definition prompts_of (r : result Dataset) (field : string) : result (option Prompts) :=
  match r with
  | Normal data =>
      match columns data !! field with
      | Some l => Normal (Some {["questions" := l]})
      | None => Raise (missing_column data field)
      end
  | Raise e => Raise e
  end.

(** Reading the OpenVINO options of [load_model]: nothing is read for a
    missing or empty [ov_config]; otherwise the file is read as JSON. *)
Definition options_read (env : Env) (t : trace) (ov_cfg : option string)
    : trace * result (option Json) :=
  match ov_cfg with
  | Some path =>
      if PyStr.truthy_str path then
        (t ++ [EvReadJson path],
         match env_read_json env t path with
         | Normal j => Normal (Some j)
         | Raise e => Raise e
         end)
      else (t, Normal None)
  | None => (t, Normal None)
  end.

(** The blocks of [main] that follow the loaders, in its own words:
    building the evaluator, scoring the target, showing the worst
    examples.  [main_blocks] states that [main] is their sequence. *)
Definition evaluator_block (args : Args) (prompts : option Prompts) (tok : Tokenizer)
    : M EvaluatorObj :=
  use_gt <-
    match gt_data args with
    | Some path => if PyStr.truthy_str path then os_path_exists path else ret false
    | None => ret false
    end ;;
  if use_gt : bool then
    Evaluator None (gt_data args) prompts tok (text_encoder args)
      (num_samples args) (language args)
  else
    base <- load_model (base_model args) (device args) (ov_config args)
              (hf args) false ;;
    evaluator <- Evaluator (Some base) None prompts tok (text_encoder args)
                   (num_samples args) (language args) ;;
    match gt_data args with
    | Some path => if PyStr.truthy_str path then dump_gt evaluator path else ret tt
    | None => ret tt
    end ;;
    del base ;;
    ret evaluator.

Definition output_block (out : string) (all_metrics_per_question all_metrics : Table)
    : M unit :=
  present <- os_path_exists out ;;
  (if present : bool then ret tt else os_mkdir out) ;;
  df <- pd_DataFrame all_metrics_per_question ;;
  to_csv df (PyStr.path_join out "metrics_per_qustion.csv") ;;
  df <- pd_DataFrame all_metrics ;;
  to_csv df (PyStr.path_join out "metrics.csv").

Definition target_block (args : Args) (evaluator : EvaluatorObj) : M unit :=
  match target_model args with
  | Some target_id =>
      if PyStr.truthy_str target_id then
        target <- load_model (target_model args) (device args) (ov_config args)
                    (hf args) false ;;
        metrics <- score evaluator target ;;
        logger_info (LStr "Metrics for model: %s") [LStr target_id] ;;
        logger_info (LTable metrics.2) [] ;;
        match output args with
        | Some out =>
            if PyStr.truthy_str out then output_block out metrics.1 metrics.2
            else ret tt
        | None => ret tt
        end
      else ret tt
  | None => ret tt
  end.

Definition verbose_block (args : Args) (evaluator : EvaluatorObj) : M unit :=
  if verbose args then
    examples <- worst_examples evaluator 5 "similarity" ;;
    for_each (PyList.enumerate examples) log_example
  else ret tt.

(** Classes of events. *)
Definition is_model_load (e : event) : bool :=
  match e with
  | EvAutoModelForCausalLM _ _ _ | EvOVModelForCausalLM _ _ _ _ _ _ => true
  | _ => false
  end.

Definition is_score (e : event) : bool :=
  match e with EvScore _ _ => true | _ => false end.

Definition is_dump (e : event) : bool :=
  match e with EvDumpGt _ _ => true | _ => false end.

Definition is_output_write (e : event) : bool :=
  match e with EvMkdir _ | EvToCsv _ _ => true | _ => false end.

(** The calls that write to the file system: the ground-truth file of
    [evaluator.dump_gt], the output directory, the files of [to_csv]. *)
Definition is_file_write (e : event) : bool :=
  match e with EvDumpGt _ _ | EvMkdir _ | EvToCsv _ _ => true | _ => false end.

(** No directory made and no [to_csv]; a [dump_gt], if any, is on the path
    [args.gt_data]. *)
Definition keeps_to_gt (args : Args) (e : event) : bool :=
  match e with
  | EvMkdir _ | EvToCsv _ _ => false
  | EvDumpGt _ path => bool_decide (gt_data args = Some path)
  | _ => true
  end.

Definition is_worst (e : event) : bool :=
  match e with EvWorstExamples _ _ _ => true | _ => false end.

(** The messages that head the parts of the diff view. *)
Definition separator : string :=
  "--------------------------------------------------------------------------------------".
Definition reference_format : string := "## Reference text %d:" ++ nl ++ "%s".
Definition actual_format : string := "## Actual text %d:" ++ nl ++ "%s".
Definition diff_format : string := "## Diff %d: ".

Definition is_view_header (e : event) : bool :=
  match e with
  | EvLog (LStr msg) _ =>
      String.eqb msg separator || String.eqb msg reference_format
      || String.eqb msg actual_format || String.eqb msg diff_format
  | _ => false
  end.

(** A computation only appends to the trace, and only events of class [P]. *)
Definition appends {A} (P : event → bool) (m : M A) : Prop :=
  ∀ env t, ∃ evs, (m env t).1 = t ++ evs ∧ Forall (λ e, P e = true) evs.

(** The diff view, as the specification words it: the zipped lines of the
    two texts of an example, without the pairs of two empty lines. *)
Definition kept_lines (e : Example) : list (string * string) :=
  filter (λ ls : string * string, ¬ (ls.1 = "" ∧ ls.2 = ""))
    (zip (PyStr.splitlines (source_model e)) (PyStr.splitlines (optimized_model e))).

(** A text of the view: one line, ended by a line feed, per kept pair. *)
Definition text_of (line : string * string → string) (e : Example) : string :=
  join (map (λ ls, (line ls ++ nl)%string) (kept_lines e)).

(** The five records logged for the example numbered [i] (from 0). *)
Definition example_events (ie : Z * Example) : list event :=
  [ EvLog (LStr separator) [];
    EvLog (LStr reference_format) [LInt (ie.1 + 1); LStr (text_of fst ie.2)];
    EvLog (LStr actual_format) [LInt (ie.1 + 1); LStr (text_of snd ie.2)];
    EvLog (LStr diff_format) [LInt (ie.1 + 1)];
    EvLog (LStr (text_of (λ ls, diff_strings ls.1 ls.2 false) ie.2)) [] ].

Definition view_events (examples : list Example) : list event :=
  concat (map example_events (PyList.enumerate examples)).

(** The existence check and the dump of the branch that loads the base
    model: both happen for a non-empty [--gt-data] only. *)
Definition asked (args : Args) : list event :=
  match gt_data args with
  | Some path => if PyStr.truthy_str path then [EvPathExists path false] else []
  | None => []
  end.

Definition dumped (args : Args) (evaluator : EvaluatorObj) : list event :=
  match gt_data args with
  | Some path => if PyStr.truthy_str path then [EvDumpGt evaluator path] else []
  | None => []
  end.

(** Proof vocabulary for the matcher: the positions of [x] in [l], counted
    from [i]. *)
Fixpoint positions_from (i : Z) (x : ascii) (l : list ascii) : list Z :=
  match l with
  | [] => []
  | y :: l' =>
      if decide (y = x) then i :: positions_from (i + 1) x l'
      else positions_from (i + 1) x l'
  end.

(** The length of the run of elements kept in [b2j] (those that are not
    popular) that ends at index [i] of [l]. *)
Fixpoint run_upto (kept : ascii → bool) (l : list ascii) (i : nat) : Z :=
  match l !! i with
  | Some x =>
      if kept x then
        match i with
        | O => 1
        | S i' => run_upto kept l i' + 1
        end
      else 0
  | None => 0
  end.

Definition run_at (kept : ascii → bool) (l : list ascii) (j : Z) : Z :=
  if j <? 0 then 0 else run_upto kept l (Z.to_nat j).

(** Invariants of the search of [find_longest_match] when both sequences
    are the same list: [j2len] after the rows before [i], and the best
    match after them. *)
Definition row_ok (R : Z → Z) (i : Z) (j2len : gmap Z Z) : Prop :=
  (∀ j k, j2len !! j = Some k → 1 ≤ k ∧ k ≤ R j ∧ k ≤ R (i - 1))
  ∧ (0 < R (i - 1) → j2len !! (i - 1) = Some (R (i - 1))).

Definition best_ok (R : Z → Z) (i : Z) (m : Difflib.Match) : Prop :=
  let '(besti, bestj, bestsize) := m in
  besti = bestj ∧ 0 ≤ besti ∧ 0 ≤ bestsize ∧ besti + bestsize ≤ i
  ∧ ∀ i', 0 ≤ i' < i → R i' ≤ bestsize.

(** The text of one opcode, as the specification words it. *)
Definition piece (a b : string) (use_loguru_colors : bool) (op : Difflib.opcode)
    : string :=
  let '(green, endgreen, red, endred) := markers use_loguru_colors in
  let '(opcode, a0, a1, b0, b1) := op in
  match opcode with
  | Difflib.Equal => PyStr.slice a a0 a1
  | Difflib.Insert => (green ++ PyStr.slice b b0 b1 ++ endgreen)%string
  | Difflib.Delete => (red ++ PyStr.slice a a0 a1 ++ endred)%string
  | Difflib.Replace =>
      ((green ++ PyStr.slice b b0 b1 ++ endgreen)
       ++ (red ++ PyStr.slice a a0 a1 ++ endred))%string
  end.

(** Bounds kept by [find_longest_match] inside the block
    [(alo, ahi, blo, bhi)]: the lengths in a row [j2len] filled with [rows]
    rows, and the best match. *)
Definition lengths_within (blo rows : Z) (j2len : gmap Z Z) : Prop :=
  ∀ j k, j2len !! j = Some k → blo ≤ j ∧ 1 ≤ k ∧ k ≤ rows ∧ k ≤ j - blo + 1.

Definition match_within (alo ahi blo bhi : Z) (m : Difflib.Match) : Prop :=
  let '(i, j, k) := m in
  alo ≤ i ∧ blo ≤ j ∧ 0 ≤ k ∧ i + k ≤ ahi ∧ j + k ≤ bhi.

(** The work left in a queue of blocks: two visits per element of the
    first sequence, and one for the block itself. *)
Definition queue_work (queue : list Difflib.block) : Z :=
  foldr (λ (blk : Difflib.block) (w : Z),
           let '(alo, ahi, blo, bhi) := blk in 2 * (ahi - alo) + 1 + w)
        0 queue.

Definition block_ok (blk : Difflib.block) : Prop :=
  let '(alo, ahi, blo, bhi) := blk in alo ≤ ahi ∧ blo ≤ bhi.

(** ** Sample environments and command lines *)

(** A split with one column; its subscript raises [KeyError] for any other
    name, as the older releases of [datasets] do. *)
Definition sample_dataset : Dataset := {|
  columns := {["questions" := ["What is the capital of France?"; "Who wrote Hamlet?"]]};
  missing_column := λ _, KeyError
|}.

Definition sample_examples : list Example :=
  [ {| source_model := "Paris is the capital." ++ nl ++ nl ++ "It is in France.";
       optimized_model := "Paris is a capital." ++ nl ++ nl ++ "It is in France." |} ].

(** Every call succeeds and no path exists yet. *)
Definition sample_env : Env := {|
  env_AutoModelForCausalLM := λ t _ _, Normal (model_obj (length t));
  env_read_json := λ t _, Normal (json_obj (length t));
  env_OVModelForCausalLM := λ t _ _ _ _ _, Normal (model_obj (length t));
  env_AutoConfig := λ t _, Normal (config_obj (length t));
  env_load_dataset := λ _ _ _ _, Normal sample_dataset;
  env_AutoTokenizer := λ t _, Normal (tokenizer_obj (length t));
  env_path_exists := λ _ _, false;
  env_Evaluator := λ t _ _ _ _ _ _ _, Normal (evaluator_obj (length t));
  env_dump_gt := λ _ _ _, Normal tt;
  env_score := λ t _ _, Normal (table_obj (length t), table_obj (S (length t)));
  env_mkdir := λ _ _, Normal tt;
  env_DataFrame := λ t _, Normal (dataframe_obj (length t));
  env_to_csv := λ _ _ _, Normal tt;
  env_worst_examples := λ _ _ _ _, Normal sample_examples
|}.

(** As [sample_env], with every path present. *)
Definition present_env : Env := {|
  env_AutoModelForCausalLM := env_AutoModelForCausalLM sample_env;
  env_read_json := env_read_json sample_env;
  env_OVModelForCausalLM := env_OVModelForCausalLM sample_env;
  env_AutoConfig := env_AutoConfig sample_env;
  env_load_dataset := env_load_dataset sample_env;
  env_AutoTokenizer := env_AutoTokenizer sample_env;
  env_path_exists := λ _ _, true;
  env_Evaluator := env_Evaluator sample_env;
  env_dump_gt := env_dump_gt sample_env;
  env_score := env_score sample_env;
  env_mkdir := env_mkdir sample_env;
  env_DataFrame := env_DataFrame sample_env;
  env_to_csv := env_to_csv sample_env;
  env_worst_examples := env_worst_examples sample_env
|}.

(** As [sample_env], but a model without an explicit config is refused
    with [ValueError]. *)
Definition retry_env : Env := {|
  env_AutoModelForCausalLM := env_AutoModelForCausalLM sample_env;
  env_read_json := env_read_json sample_env;
  env_OVModelForCausalLM := λ t _ config _ _ _,
    match config with
    | None => Raise (ValueError None)
    | Some _ => Normal (model_obj (length t))
    end;
  env_AutoConfig := env_AutoConfig sample_env;
  env_load_dataset := env_load_dataset sample_env;
  env_AutoTokenizer := env_AutoTokenizer sample_env;
  env_path_exists := env_path_exists sample_env;
  env_Evaluator := env_Evaluator sample_env;
  env_dump_gt := env_dump_gt sample_env;
  env_score := env_score sample_env;
  env_mkdir := env_mkdir sample_env;
  env_DataFrame := env_DataFrame sample_env;
  env_to_csv := env_to_csv sample_env;
  env_worst_examples := env_worst_examples sample_env
|}.

(** [--base-model base --target-model target]. *)
Definition two_models : Args := {|
  base_model := Some "base";
  target_model := Some "target";
  tokenizer := tokenizer default_args;
  gt_data := gt_data default_args;
  text_encoder := text_encoder default_args;
  dataset := dataset default_args;
  dataset_field := dataset_field default_args;
  split := split default_args;
  output := output default_args;
  num_samples := num_samples default_args;
  verbose := verbose default_args;
  device := device default_args;
  ov_config := ov_config default_args;
  language := language default_args;
  hf := hf default_args
|}.

(** [--base-model base --dataset wikitext,wikitext-2-v1]. *)
Definition wikitext_args : Args := {|
  base_model := Some "base";
  target_model := target_model default_args;
  tokenizer := tokenizer default_args;
  gt_data := gt_data default_args;
  text_encoder := text_encoder default_args;
  dataset := Some "wikitext,wikitext-2-v1";
  dataset_field := dataset_field default_args;
  split := split default_args;
  output := output default_args;
  num_samples := num_samples default_args;
  verbose := verbose default_args;
  device := device default_args;
  ov_config := ov_config default_args;
  language := language default_args;
  hf := hf default_args
|}.

(** [--base-model base --dataset wikitext,wikitext-2-v1,]. *)
Definition trailing_comma_args : Args := {|
  base_model := Some "base";
  target_model := target_model default_args;
  tokenizer := tokenizer default_args;
  gt_data := gt_data default_args;
  text_encoder := text_encoder default_args;
  dataset := Some "wikitext,wikitext-2-v1,";
  dataset_field := dataset_field default_args;
  split := split default_args;
  output := output default_args;
  num_samples := num_samples default_args;
  verbose := verbose default_args;
  device := device default_args;
  ov_config := ov_config default_args;
  language := language default_args;
  hf := hf default_args
|}.

(** [--base-model base]. *)
Definition base_only : Args := {|
  base_model := Some "base";
  target_model := target_model default_args;
  tokenizer := tokenizer default_args;
  gt_data := gt_data default_args;
  text_encoder := text_encoder default_args;
  dataset := dataset default_args;
  dataset_field := dataset_field default_args;
  split := split default_args;
  output := output default_args;
  num_samples := num_samples default_args;
  verbose := verbose default_args;
  device := device default_args;
  ov_config := ov_config default_args;
  language := language default_args;
  hf := hf default_args
|}.

(** [--base-model base --target-model target --output results]. *)
Definition csv_args : Args := {|
  base_model := Some "base";
  target_model := Some "target";
  tokenizer := tokenizer default_args;
  gt_data := gt_data default_args;
  text_encoder := text_encoder default_args;
  dataset := dataset default_args;
  dataset_field := dataset_field default_args;
  split := split default_args;
  output := Some "results";
  num_samples := num_samples default_args;
  verbose := verbose default_args;
  device := device default_args;
  ov_config := ov_config default_args;
  language := language default_args;
  hf := hf default_args
|}.

(** [--base-model base --target-model target --output '']. *)
Definition empty_output_args : Args := {|
  base_model := Some "base";
  target_model := Some "target";
  tokenizer := tokenizer default_args;
  gt_data := gt_data default_args;
  text_encoder := text_encoder default_args;
  dataset := dataset default_args;
  dataset_field := dataset_field default_args;
  split := split default_args;
  output := Some "";
  num_samples := num_samples default_args;
  verbose := verbose default_args;
  device := device default_args;
  ov_config := ov_config default_args;
  language := language default_args;
  hf := hf default_args
|}.

(** [--base-model base --gt-data '']. *)
Definition empty_gt_args : Args := {|
  base_model := Some "base";
  target_model := target_model default_args;
  tokenizer := tokenizer default_args;
  gt_data := Some "";
  text_encoder := text_encoder default_args;
  dataset := dataset default_args;
  dataset_field := dataset_field default_args;
  split := split default_args;
  output := output default_args;
  num_samples := num_samples default_args;
  verbose := verbose default_args;
  device := device default_args;
  ov_config := ov_config default_args;
  language := language default_args;
  hf := hf default_args
|}.

(** [--base-model base --target-model target --gt-data gt.csv]. *)
Definition gt_args : Args := {|
  base_model := Some "base";
  target_model := Some "target";
  tokenizer := tokenizer default_args;
  gt_data := Some "gt.csv";
  text_encoder := text_encoder default_args;
  dataset := dataset default_args;
  dataset_field := dataset_field default_args;
  split := split default_args;
  output := output default_args;
  num_samples := num_samples default_args;
  verbose := verbose default_args;
  device := device default_args;
  ov_config := ov_config default_args;
  language := language default_args;
  hf := hf default_args
|}.

(** [--base-model base --target-model target --verbose]. *)
Definition verbose_args : Args := {|
  base_model := Some "base";
  target_model := Some "target";
  tokenizer := tokenizer default_args;
  gt_data := gt_data default_args;
  text_encoder := text_encoder default_args;
  dataset := dataset default_args;
  dataset_field := dataset_field default_args;
  split := split default_args;
  output := output default_args;
  num_samples := num_samples default_args;
  verbose := true;
  device := device default_args;
  ov_config := ov_config default_args;
  language := language default_args;
  hf := hf default_args
|}.

(** [s * n]. *)
Fixpoint times (s : string) (n : nat) : string :=
  match n with
  | O => EmptyString
  | S n' => (s ++ times s n')%string
  end.

(** ** Vocabulary of the properties of whole runs *)

(** The model id of the event is an actual one, not [None]. *)
Definition passes_id (e : event) : bool :=
  match e with
  | EvAutoModelForCausalLM None _ _ | EvOVModelForCausalLM None _ _ _ _ _
  | EvAutoConfig None _ | EvAutoTokenizer None _ => false
  | _ => true
  end.

(** The [trust_remote_code] argument of the event, if it has one. *)
Definition trusts_remote_code (e : event) : bool :=
  match e with
  | EvAutoModelForCausalLM _ trust _ | EvOVModelForCausalLM _ _ trust _ _ _
  | EvAutoConfig _ trust | EvAutoTokenizer _ trust => trust
  | _ => true
  end.

(** The calls of the OpenVINO path of [load_model], and the call of its
    transformers path. *)
Definition is_openvino (e : event) : bool :=
  match e with
  | EvReadJson _ | EvOVModelForCausalLM _ _ _ _ _ _ | EvAutoConfig _ _ => true
  | _ => false
  end.

Definition is_transformers (e : event) : bool :=
  match e with EvAutoModelForCausalLM _ _ _ => true | _ => false end.

(** The events of the two loaders. *)
Definition is_loader (e : event) : bool :=
  match e with EvLoadDataset _ _ _ | EvAutoTokenizer _ _ => true | _ => false end.

(** [main] after the loaders. *)
Definition after_loaders (args : Args) (prompts : option Prompts) (tok : Tokenizer)
    : M unit :=
  evaluator <- evaluator_block args prompts tok ;;
  target_block args evaluator ;;
  verbose_block args evaluator.



(** The exception a result carries, if any. *)
Definition exn_of {A} (r : result A) : option exn :=
  match r with
  | Normal _ => None
  | Raise e => Some e
  end.

(** The exception with which the world answers the call [ev] made after
    the calls of [t], if it answers with one; logging, [os.path.exists]
    and [del] never fail. *)
Definition failure (env : Env) (t : trace) (ev : event) : option exn :=
  match ev with
  | EvLog _ _ | EvPathExists _ _ | EvDel _ => None
  | EvAutoModelForCausalLM model_id _ device_map =>
      exn_of (env_AutoModelForCausalLM env t model_id device_map)
  | EvReadJson path => exn_of (env_read_json env t path)
  | EvOVModelForCausalLM model_id config _ use_cache dev ov_options =>
      exn_of (env_OVModelForCausalLM env t model_id config use_cache dev ov_options)
  | EvAutoConfig model_id _ => exn_of (env_AutoConfig env t model_id)
  | EvLoadDataset path name split_ => exn_of (env_load_dataset env t path name split_)
  | EvAutoTokenizer model_id _ => exn_of (env_AutoTokenizer env t model_id)
  | EvEvaluator base gt test_data tok sim n lang =>
      exn_of (env_Evaluator env t base gt test_data tok sim n lang)
  | EvDumpGt evaluator csv_name => exn_of (env_dump_gt env t evaluator csv_name)
  | EvScore evaluator model => exn_of (env_score env t evaluator model)
  | EvMkdir path => exn_of (env_mkdir env t path)
  | EvDataFrame data => exn_of (env_DataFrame env t data)
  | EvToCsv df path => exn_of (env_to_csv env t df path)
  | EvWorstExamples evaluator top_k metric =>
      exn_of (env_worst_examples env t evaluator top_k metric)
  end.

(** A computation raises only what its last call raised. *)
Definition raises_from_calls {A} (m : M A) : Prop :=
  ∀ env t t' e, m env t = (t', Raise e) →
    ∃ pre ev, t' = pre ++ [ev] ∧ failure env pre ev = Some e.

(** In the events [evs] appended after [t] with outcome [r], a call that
    failed is the last one, and its exception is the outcome, unless it is
    the first attempt of [load_model] on the OpenVINO backend, failed with
    [ValueError] and followed by the retry. *)
Definition failures_end (env : Env) {A} (t evs : trace) (r : result A) : Prop :=
  ∀ pre ev post e,
    evs = pre ++ ev :: post → failure env (t ++ pre) ev = Some e →
    (post = [] ∧ exn_of r = Some e)
    ∨ (is_ValueError e = true
       ∧ ∃ model_id dev ov_options,
           ev = EvOVModelForCausalLM model_id None true None dev ov_options
           ∧ head post = Some (EvAutoConfig model_id true)).

Definition handles_retry_only {A} (m : M A) : Prop :=
  ∀ env t, ∃ evs, (m env t).1 = t ++ evs ∧ failures_end env t evs (m env t).2.

Definition is_exists_check (e : event) : bool :=
  match e with EvPathExists _ _ => true | _ => false end.

(** What the call [ev], made after [t], adds to the number of models that
    the program holds: a loading that does not raise adds one, [del] takes
    one away. *)
Definition held_by (env : Env) (t : trace) (ev : event) : Z :=
  match ev with
  | EvDel _ => -1
  | _ =>
      if is_model_load ev then
        match failure env t ev with
        | None => 1
        | Some _ => 0
        end
      else 0
  end.

(** The models loaded and not deleted by the calls [evs] made after [t]. *)
Fixpoint held (env : Env) (t : trace) (evs : list event) : Z :=
  match evs with
  | [] => 0
  | ev :: evs' => held_by env t ev + held env (t ++ [ev]) evs'
  end.

(** Started with [n] models held, a computation never holds more than one,
    and holds [n'] when it returns. *)
Definition keeps {A} (n n' : Z) (m : M A) : Prop :=
  ∀ env t, ∃ evs,
    (m env t).1 = t ++ evs
    ∧ (∀ pre post, evs = pre ++ post → 0 ≤ n + held env t pre ≤ 1)
    ∧ (exn_of (m env t).2 = None → n + held env t evs = n').

(** [--target-model target --gt-data gt.csv]. *)
Definition target_gt_args : Args := {|
  base_model := None;
  target_model := Some "target";
  tokenizer := tokenizer default_args;
  gt_data := Some "gt.csv";
  text_encoder := text_encoder default_args;
  dataset := dataset default_args;
  dataset_field := dataset_field default_args;
  split := split default_args;
  output := output default_args;
  num_samples := num_samples default_args;
  verbose := verbose default_args;
  device := device default_args;
  ov_config := ov_config default_args;
  language := language default_args;
  hf := hf default_args
|}.

(** [--base-model base --dataset squad --dataset-field text]: the
    sample dataset has no column of that name. *)
Definition missing_field_args : Args := {|
  base_model := Some "base";
  target_model := target_model default_args;
  tokenizer := tokenizer default_args;
  gt_data := gt_data default_args;
  text_encoder := text_encoder default_args;
  dataset := Some "squad";
  dataset_field := "text";
  split := split default_args;
  output := output default_args;
  num_samples := num_samples default_args;
  verbose := verbose default_args;
  device := device default_args;
  ov_config := ov_config default_args;
  language := language default_args;
  hf := hf default_args
|}.

(** [--base-model base --verbose]. *)
Definition verbose_base_args : Args := {|
  base_model := Some "base";
  target_model := None;
  tokenizer := tokenizer default_args;
  gt_data := gt_data default_args;
  text_encoder := text_encoder default_args;
  dataset := dataset default_args;
  dataset_field := dataset_field default_args;
  split := split default_args;
  output := output default_args;
  num_samples := num_samples default_args;
  verbose := true;
  device := device default_args;
  ov_config := ov_config default_args;
  language := language default_args;
  hf := hf default_args
|}.

(** ** Vocabulary of the properties of the matching blocks *)

(** The elements of a match are equal, pair by pair. *)
Definition is_match (a b : list ascii) (m : Difflib.Match) : Prop :=
  let '(i, j, k) := m in
  ∀ d, 0 ≤ d < k →
       ∃ x, PyList.item a (i + d) = Some x ∧ PyList.item b (j + d) = Some x.

(** Every length in the row [j2len] of the element [i] of [a] is that of a
    run of equal elements that ends at [a[i]] and [b[j]]. *)
Definition lengths_match (a b : list ascii) (i : Z) (j2len : gmap Z Z) : Prop :=
  ∀ j k, j2len !! j = Some k → is_match a b (i - k + 1, j - k + 1, k).

(** The block that a match covers. *)
Definition span (m : Difflib.Match) : Difflib.block :=
  let '(i, j, k) := m in (i, i + k, j, j + k).

(** [x] ends, in both sequences, where [y] starts or before. *)
Definition before (x y : Difflib.block) : Prop :=
  let '(_, ahi, _, bhi) := x in
  let '(alo, _, blo, _) := y in
  ahi ≤ alo ∧ bhi ≤ blo.

Definition apart (x y : Difflib.block) : Prop := before x y ∨ before y x.

Fixpoint all_apart (l : list Difflib.block) : Prop :=
  match l with
  | [] => True
  | x :: l' => Forall (apart x) l' ∧ all_apart l'
  end.

Definition inside (x y : Difflib.block) : Prop :=
  let '(alo, ahi, blo, bhi) := x in
  let '(alo', ahi', blo', bhi') := y in
  alo' ≤ alo ∧ ahi ≤ ahi' ∧ blo' ≤ blo ∧ bhi ≤ bhi'.

(** A match of the loop of [get_matching_blocks]: not empty, inside both
    sequences, and a match. *)
Definition found (a b : list ascii) (m : Difflib.Match) : Prop :=
  0 < m.2 ∧ inside (span m) (0, PyList.len a, 0, PyList.len b) ∧ is_match a b m.

(** Matches in the order of both sequences, none before [(i0, j0)] and
    none overlapping the one before it. *)
Fixpoint tiles (a b : list ascii) (i0 j0 : Z) (l : list Difflib.Match) : Prop :=
  match l with
  | [] => True
  | m :: l' =>
      i0 ≤ m.1.1 ∧ j0 ≤ m.1.2 ∧ found a b m
      ∧ tiles a b (m.1.1 + m.2) (m.1.2 + m.2) l'
  end.

(** The blocks written when the loop that collapses adjacent matches is
    left in the state [st]. *)
Definition flush (st : Difflib.Match * list Difflib.Match) : list Difflib.Match :=
  if st.1.2 =? 0 then st.2 else st.2 ++ [st.1].

(** ** Vocabulary of the properties of diff_strings *)

(** What [diff_strings] writes, seen as coloured segments: the text of an
    'equal' opcode is plain, the text taken from [b] is green and the text
    taken from [a] is red. *)
Inductive colour := Plain | Green | Red.

Definition segment : Type := colour * string.

Definition segments_of (a b : string) (op : Difflib.opcode) : list segment :=
  let '(opcode, a0, a1, b0, b1) := op in
  match opcode with
  | Difflib.Equal => [(Plain, PyStr.slice a a0 a1)]
  | Difflib.Insert => [(Green, PyStr.slice b b0 b1)]
  | Difflib.Delete => [(Red, PyStr.slice a a0 a1)]
  | Difflib.Replace => [(Green, PyStr.slice b b0 b1); (Red, PyStr.slice a a0 a1)]
  end.

Definition segments (a b : string) : list segment :=
  flat_map (segments_of a b) (get_opcodes a b).

(** A segment between its markers. *)
Definition render (use_loguru_colors : bool) (s : segment) : string :=
  let '(green, endgreen, red, endred) := markers use_loguru_colors in
  match s.1 with
  | Plain => s.2
  | Green => (green ++ s.2 ++ endgreen)%string
  | Red => (red ++ s.2 ++ endred)%string
  end.

Definition same_colour (c d : colour) : bool :=
  match c, d with
  | Plain, Plain | Green, Green | Red, Red => true
  | _, _ => false
  end.

(** The text of the segments that are not of the colour [hide]. *)
Fixpoint without (hide : colour) (segs : list segment) : string :=
  match segs with
  | [] => EmptyString
  | s :: segs' =>
      if same_colour s.1 hide then without hide segs'
      else (s.2 ++ without hide segs')%string
  end.

(** The two texts read from a list of opcodes: without the green
    segments, and without the red ones. *)
Definition texts (a b : string) (ops : list Difflib.opcode) : string * string :=
  (without Green (flat_map (segments_of a b) ops),
   without Red (flat_map (segments_of a b) ops)).

(** The contract of an opcode [(tag, i1, i2, j1, j2)] on [a] and [b]:
    'replace' stands for two ranges that are not empty, 'delete' for a
    range of [a] and 'insert' for a range of [b], the other range being
    empty, and 'equal' for two ranges that are not empty and hold the same
    text. *)
Definition opcode_ok (a b : string) (op : Difflib.opcode) : Prop :=
  let '(opcode, i1, i2, j1, j2) := op in
  match opcode with
  | Difflib.Replace => i1 < i2 ∧ j1 < j2
  | Difflib.Delete => i1 < i2 ∧ j1 = j2
  | Difflib.Insert => i1 = i2 ∧ j1 < j2
  | Difflib.Equal => i1 < i2 ∧ j1 < j2 ∧ PyStr.slice a i1 i2 = PyStr.slice b j1 j2
  end.

(** Opcodes that follow each other from [(i, j)] to [(i_end, j_end)]: each
    starts, in both sequences, where the one before it ends. *)
Fixpoint chained (a b : string) (i j : Z) (ops : list Difflib.opcode)
    (i_end j_end : Z) : Prop :=
  match ops with
  | [] => i = i_end ∧ j = j_end
  | op :: ops' =>
      let '(_, i1, i2, j1, j2) := op in
      i1 = i ∧ j1 = j ∧ opcode_ok a b op ∧ chained a b i2 j2 ops' i_end j_end
  end.

(** * Properties *)

(** ** The models of the Python built-ins on sample values *)

Example split_samples :
  PyStr.split "," "wikitext,wikitext-2-v1" = ["wikitext"; "wikitext-2-v1"]
  ∧ PyStr.split "," "squad" = ["squad"]
  ∧ PyStr.split "," "a,b,c" = ["a"; "b"; "c"]
  ∧ PyStr.split "," "a," = ["a"; ""]
  ∧ PyStr.split "," "" = [""].
Proof. by repeat split. Qed.

Example splitlines_samples :
  PyStr.splitlines ("one" ++ nl ++ nl ++ "two" ++ nl) = ["one"; ""; "two"]
  ∧ PyStr.splitlines "" = []
  ∧ PyStr.splitlines nl = [""]
  ∧ PyStr.splitlines
      ("a" ++ String (ascii_of_N 13) (String (ascii_of_N 10) "b"
           ++ String (ascii_of_N 13) "c")) = ["a"; "b"; "c"].
Proof. by repeat split. Qed.

Example lower_samples :
  PyStr.lower "CPU" = "cpu" ∧ PyStr.lower "GPU.1" = "gpu.1".
Proof. by split. Qed.

Example path_join_samples :
  PyStr.path_join "results" "metrics.csv" = "results/metrics.csv"
  ∧ PyStr.path_join "results/" "metrics.csv" = "results/metrics.csv".
Proof. by split. Qed.

Example slice_samples :
  PyStr.slice "kitten" 1 4 = "itt" ∧ PyStr.slice "kitten" 4 99 = "en"
  ∧ PyStr.slice "kitten" (-2) 6 = "en" ∧ PyStr.slice "kitten" 3 1 = "".
Proof. by repeat split. Qed.

Example first_id_samples :
  (Some "tok" ∪ Some "base" ∪ None : option string) = Some "tok"
  ∧ (None ∪ Some "base" ∪ Some "target" : option string) = Some "base"
  ∧ (None ∪ None ∪ Some "target" : option string) = Some "target".
Proof. by repeat split. Qed.

(** ** Running computations *)

Lemma bind_normal {A B} (m : M A) (f : A → M B) env t t' a :
  m env t = (t', Normal a) → bind m f env t = f a env t'.
Proof. intros H. unfold bind. by rewrite H. Qed.

Lemma bind_raise {A B} (m : M A) (f : A → M B) env t t' e :
  m env t = (t', Raise e) → bind m f env t = (t', Raise e).
Proof. intros H. unfold bind. by rewrite H. Qed.

Lemma bind_assoc {A B C} (m : M A) (f : A → M B) (g : B → M C) env t :
  bind (bind m f) g env t = bind m (λ a, bind (f a) g) env t.
Proof. unfold bind. by destruct (m env t) as [t' [a|e]]. Qed.

Lemma bind_ext {A B} (m : M A) (f g : A → M B) env t :
  (∀ a t', f a env t' = g a env t') → bind m f env t = bind m g env t.
Proof. intros H. unfold bind. destruct (m env t) as [t' [a|e]]; [apply H|done]. Qed.

Lemma bind_call {A B} (ev : event) (answer : Env → trace → result A)
    (f : A → M B) env t :
  bind (call ev answer) f env t
  = match answer env t with
    | Normal a => f a env (t ++ [ev])
    | Raise e => (t ++ [ev], Raise e)
    end.
Proof. done. Qed.

Section appends.
Context (P : event → bool).

Lemma appends_ret {A} (a : A) : appends P (ret a).
Proof. intros env t. exists []. by rewrite app_nil_r. Qed.

Lemma appends_raise {A} e : appends P (@raise A e).
Proof. intros env t. exists []. by rewrite app_nil_r. Qed.

Lemma appends_call {A} ev (answer : Env → trace → result A) :
  P ev = true → appends P (call ev answer).
Proof. intros H env t. exists [ev]. split; [done|]. by constructor. Qed.

Lemma appends_logger_info msg args :
  P (EvLog msg args) = true → appends P (logger_info msg args).
Proof. intros H env t. exists [EvLog msg args]. split; [done|]. by constructor. Qed.

Lemma appends_del m : P (EvDel m) = true → appends P (del m).
Proof. intros H env t. exists [EvDel m]. split; [done|]. by constructor. Qed.

Lemma appends_os_path_exists path :
  (∀ b, P (EvPathExists path b) = true) → appends P (os_path_exists path).
Proof. intros H env t. eexists [_]. split; [done|]. by constructor. Qed.

Lemma appends_bind {A B} (m : M A) (f : A → M B) :
  appends P m → (∀ a, appends P (f a)) → appends P (bind m f).
Proof.
  intros Hm Hf env t. destruct (Hm env t) as (evs & Ht & Hevs).
  unfold bind. destruct (m env t) as [t' [a|e]]; simpl in Ht; subst t'.
  - destruct (Hf a env (t ++ evs)) as (evs' & Ht' & Hevs').
    exists (evs ++ evs'). rewrite Ht', app_assoc. split; [done|].
    by apply Forall_app.
  - by exists evs.
Qed.

Lemma appends_try {A} (body handler : M A) :
  appends P body → appends P handler →
  appends P (try_except_ValueError body handler).
Proof.
  intros Hb Hh env t. destruct (Hb env t) as (evs & Ht & Hevs).
  unfold try_except_ValueError.
  destruct (body env t) as [t' [a|e]]; simpl in Ht; subst t'.
  - by exists evs.
  - destruct (is_ValueError e); [|by exists evs].
    destruct (Hh env (t ++ evs)) as (evs' & Ht' & Hevs').
    exists (evs ++ evs'). rewrite Ht', app_assoc. split; [done|].
    by apply Forall_app.
Qed.

Lemma appends_for_each {A} (l : list A) (body : A → M unit) :
  (∀ x, appends P (body x)) → appends P (for_each l body).
Proof.
  intros Hb. induction l as [|x l IH]; simpl.
  - apply appends_ret.
  - apply appends_bind; [apply Hb|]. intros _. exact IH.
Qed.

Lemma appends_log_example ie :
  (∀ msg args, P (EvLog msg args) = true) → appends P (log_example ie).
Proof.
  intros H. unfold log_example. destruct ie as [i e].
  destruct (fold_left _ _ _) as [[ref_text actual_text] diff].
  repeat (apply appends_bind; [|intros _]); by apply appends_logger_info.
Qed.
End appends.

(** One step of a proof that a computation keeps to a class of events. *)
Ltac appends_step :=
  first
    [ apply appends_ret
    | apply appends_raise
    | apply appends_bind; [|intros ?]
    | apply appends_try
    | apply appends_call; reflexivity
    | apply appends_logger_info; reflexivity
    | apply appends_del; reflexivity
    | apply appends_os_path_exists; intros ?; reflexivity
    | apply appends_for_each; intros ?
    | apply appends_log_example; intros ? ?; reflexivity
    | match goal with
      | |- appends _ (match ?x with _ => _ end) =>
          let E := fresh "E" in
          destruct x eqn:E; rewrite ?E in *; simpl in *; try congruence
      end ].

Ltac unfold_calls :=
  unfold evaluator_block, target_block, output_block, verbose_block;
  unfold check_args, load_prompts, load_tokenizer, load_model, assert, list_item,
    column,
    AutoModelForCausalLM_from_pretrained, read_json,
    OVModelForCausalLM_from_pretrained, AutoConfig_from_pretrained, load_dataset,
    AutoTokenizer_from_pretrained, Evaluator, dump_gt, score, os_mkdir,
    pd_DataFrame, to_csv, worst_examples.

Ltac solve_appends := unfold_calls; repeat appends_step.

(** ** check_args *)

Lemma check_args_run env t args :
  check_args args env t
  = (t, if rejects args then Raise AssertionError else Normal tt).
Proof.
  unfold check_args, rejects, bind, assert, ret, raise.
  destruct (base_model args), (target_model args), (gt_data args); reflexivity.
Qed.

Lemma rejects_false_iff args :
  rejects args = false
  ↔ (is_Some (base_model args) ∨ is_Some (target_model args))
    ∧ (gt_data args = None → is_Some (base_model args)).
Proof.
  unfold rejects.
  destruct (base_model args), (target_model args), (gt_data args); simpl;
    split; try done; eauto; intros [[[? ?]|[? ?]] Hb]; try done;
    by destruct Hb.
Qed.

(** C8: [check_args] raises [AssertionError] exactly in the configurations
    where the base model is missing together with the target model or with
    the ground-truth data, and otherwise returns without any effect; a run
    of [main] that gets past it has a model id, and a base model id when no
    ground-truth path is given. *)
Theorem check_args_raises_exactly (env : Env) (t : trace) (args : Args) :
  (check_args args env t = (t, Raise AssertionError)
   ↔ (base_model args = None ∧ target_model args = None)
     ∨ (base_model args = None ∧ gt_data args = None))
  ∧ (check_args args env t = (t, Normal tt)
     ↔ ¬ ((base_model args = None ∧ target_model args = None)
          ∨ (base_model args = None ∧ gt_data args = None)))
  ∧ (run_main env args ≠ ([], Raise AssertionError)
     → (is_Some (base_model args) ∨ is_Some (target_model args))
       ∧ (gt_data args = None → is_Some (base_model args))).
Proof.
  rewrite check_args_run.
  assert (Hrej : rejects args = true
                 ↔ (base_model args = None ∧ target_model args = None)
                   ∨ (base_model args = None ∧ gt_data args = None)).
  { unfold rejects.
    destruct (base_model args), (target_model args), (gt_data args); simpl;
      split; try done; eauto; intros [[? ?]|[? ?]]; done. }
  split; [|split].
  - rewrite <- Hrej. destruct (rejects args); split; congruence.
  - rewrite <- Hrej. destruct (rejects args); split; congruence.
  - intros Hrun. apply rejects_false_iff.
    destruct (rejects args) eqn:E; [|done].
    exfalso. apply Hrun. unfold run_main, main.
    apply bind_raise. by rewrite check_args_run, E.
Qed.

Lemma check_args_raises_exactly_witness :
  check_args two_models sample_env [] = ([], Normal tt)
  ∧ (is_Some (base_model two_models) ∨ is_Some (target_model two_models))
  ∧ (gt_data two_models = None → is_Some (base_model two_models)).
Proof.
  destruct (check_args_raises_exactly sample_env [] two_models) as (_ & _ & H).
  split; [reflexivity|]. apply H. vm_compute. discriminate.
Defined.

(** ** load_tokenizer *)

(** C9: when the base and target model ids are not both missing,
    [load_tokenizer] makes exactly one call, [AutoTokenizer.from_pretrained],
    on an actual id: the first that is set among [args.tokenizer],
    [args.base_model] and [args.target_model]. *)
Theorem load_tokenizer_never_None (env : Env) (t : trace) (args : Args) :
  ¬ (base_model args = None ∧ target_model args = None) →
  ∃ id : string,
    tokenizer args ∪ base_model args ∪ target_model args = Some id
    ∧ load_tokenizer args env t
      = (t ++ [EvAutoTokenizer (Some id) true], env_AutoTokenizer env t (Some id)).
Proof.
  intros Hpre. unfold load_tokenizer.
  destruct (tokenizer args) as [tok|], (base_model args) as [base|],
    (target_model args) as [target|];
    try (by eexists; split; [reflexivity|]).
  by destruct Hpre.
Qed.

Lemma load_tokenizer_never_None_witness :
  ∃ id : string,
    tokenizer two_models ∪ base_model two_models ∪ target_model two_models = Some id
    ∧ load_tokenizer two_models sample_env []
      = ([EvAutoTokenizer (Some id) true], env_AutoTokenizer sample_env [] (Some id)).
Proof.
  apply (load_tokenizer_never_None sample_env [] two_models).
  intros [H _]. discriminate H.
Defined.

(** ** str.split and the dataset argument *)

Section split.
Variable c : ascii.

Lemma split_cons (s : string) : ∃ field fields, PyStr.split c s = field :: fields.
Proof.
  induction s as [|x s IH]; simpl; [by eauto|].
  destruct (Ascii.eqb x c); [by eauto|].
  destruct IH as (f & fs & ->). by eauto.
Qed.

Lemma split_no_separator (s : string) :
  PyStr.contains c s = false → PyStr.split c s = [s].
Proof.
  induction s as [|x s IH]; simpl; [done|].
  destruct (Ascii.eqb x c); [done|].
  intros H. by rewrite IH.
Qed.

Lemma split_fields_clean (s : string) :
  Forall (λ field, PyStr.contains c field = false) (PyStr.split c s).
Proof.
  induction s as [|x s IH]; simpl.
  - by repeat constructor.
  - destruct (Ascii.eqb x c) eqn:E.
    + by constructor.
    + destruct (PyStr.split c s) as [|f fs]; [by repeat constructor; simpl; rewrite E|].
      inversion IH; subst. constructor; [|done]. simpl. by rewrite E.
Qed.


Lemma join_fields_split (s : string) : join_fields c (PyStr.split c s) = s.
Proof.
  induction s as [|x s IH]; simpl; [done|].
  destruct (split_cons s) as (f & fs & Hs). rewrite Hs in *.
  destruct (Ascii.eqb x c) eqn:E.
  - apply Ascii.eqb_eq in E as ->.
    change (join_fields c (EmptyString :: f :: fs))
      with (String c (join_fields c (f :: fs))).
    by rewrite IH.
  - destruct fs as [|g fs].
    + simpl in *. by rewrite IH.
    + change (join_fields c (String x f :: g :: fs))
        with (String x (f ++ String c (join_fields c (g :: fs))))%string.
      f_equal. exact IH.
Qed.

Lemma split_with_separator (s : string) :
  PyStr.contains c s = true →
  ∃ first second others, PyStr.split c s = first :: second :: others.
Proof.
  induction s as [|x s IH]; simpl; [done|].
  destruct (Ascii.eqb x c).
  - intros _. destruct (split_cons s) as (f & fs & ->). by eauto.
  - intros H. destruct (IH H) as (f & g & fs & ->). by eauto.
Qed.

Lemma split_trailing_separator (p : string) :
  PyStr.contains c p = false →
  PyStr.split c (p ++ String c EmptyString)%string = [p; EmptyString].
Proof.
  induction p as [|x p IH]; simpl.
  - by rewrite Ascii.eqb_refl.
  - destruct (Ascii.eqb x c); [done|]. intros H. by rewrite IH.
Qed.
End split.

Lemma append_empty_r (s : string) : (s ++ "")%string = s.
Proof.
  induction s as [|x s IH]; [done|].
  change (String x (s ++ "")%string = String x s). by f_equal.
Qed.

Lemma split_app (c : ascii) (p r : string) :
  PyStr.contains c p = false →
  PyStr.split c (p ++ String c r)%string = p :: PyStr.split c r.
Proof.
  induction p as [|x p IH]; simpl.
  - by rewrite Ascii.eqb_refl.
  - destruct (Ascii.eqb x c); [done|]. intros H. by rewrite IH.
Qed.

Lemma split_two_fields (c : ascii) (p n tail : string) :
  PyStr.contains c p = false → PyStr.contains c n = false →
  tail = EmptyString ∨ (∃ rest, tail = String c rest) →
  ∃ others, PyStr.split c (p ++ String c (n ++ tail))%string = p :: n :: others.
Proof.
  intros Hp Hn [->|(rest & ->)]; rewrite split_app by done.
  - rewrite append_empty_r, split_no_separator by done. by eauto.
  - rewrite split_app by done. by eauto.
Qed.

Lemma contains_decompose (c : ascii) (s : string) :
  PyStr.contains c s = true →
  ∃ p n tail,
    s = (p ++ String c (n ++ tail))%string
    ∧ PyStr.contains c p = false ∧ PyStr.contains c n = false
    ∧ (tail = EmptyString ∨ ∃ rest, tail = String c rest).
Proof.
  intros H. destruct (split_with_separator c s H) as (p & n & others & Hs).
  pose proof (join_fields_split c s) as Hj.
  pose proof (split_fields_clean c s) as Hc.
  rewrite Hs in Hj, Hc.
  apply Forall_cons in Hc as [Hp Hc]. apply Forall_cons in Hc as [Hn _].
  destruct others as [|o others].
  - exists p, n, EmptyString. split; [|by eauto].
    rewrite <- Hj. simpl. by rewrite append_empty_r.
  - exists p, n, (String c (join_fields c (o :: others))).
    split; [|by eauto]. rewrite <- Hj.
    change (join_fields c (p :: n :: o :: others))
      with (p ++ String c (join_fields c (n :: o :: others)))%string.
    by change (join_fields c (n :: o :: others))
      with (n ++ String c (join_fields c (o :: others)))%string.
Qed.

(** ** load_prompts *)

Lemma load_prompts_some env t args ds path name others :
  dataset args = Some ds →
  (if PyStr.contains "," ds then PyStr.split "," ds = path :: name :: others
   else True) →
  load_prompts args env t
  = (let pn := if PyStr.contains "," ds then (path, Some name) else (ds, None) in
     (t ++ [EvLoadDataset pn.1 pn.2 (default "validation" (split args))],
      prompts_of (env_load_dataset env t pn.1 pn.2 (default "validation" (split args)))
        (dataset_field args))).
Proof.
  intros Hds Hsplit. unfold load_prompts. rewrite Hds.
  assert (Hsp : match split args with Some s => s | None => "validation" end
                = default "validation" (split args)) by (by destruct (split args)).
  rewrite Hsp. clear Hsp.
  destruct (PyStr.contains "," ds).
  - rewrite Hsplit. unfold bind, list_item, load_dataset, call, column, ret, prompts_of.
    simpl.
    destruct (env_load_dataset env t path (Some name) _) as [data|e]; [|done].
    by destruct (columns data !! dataset_field args).
  - unfold bind, load_dataset, call, column, ret, prompts_of. simpl.
    destruct (env_load_dataset env t ds None _) as [data|e]; [|done].
    by destruct (columns data !! dataset_field args).
Qed.

(** C6: [load_prompts] returns [None] exactly when [args.dataset] is
    [None].  Otherwise it makes one [load_dataset] call, on the split
    ['validation'] unless [--split] is given: of the dataset named by
    [args.dataset] itself, without a config name, when that string has no
    comma, and of its first field, with its second field as config name,
    when it has one.  What it returns is the dict [{'questions': l}] for
    the values [l] of the column [args.dataset_field] of the loaded split;
    the exception of [load_dataset], or that of the subscript on a split
    without that column, is passed on. *)
Theorem load_prompts_returns (env : Env) (t : trace) (args : Args) :
  ((load_prompts args env t).2 = Normal None ↔ dataset args = None)
  ∧ (dataset args = None → load_prompts args env t = (t, Normal None))
  ∧ (∀ ds, dataset args = Some ds →
       ∃ path name,
         (if PyStr.contains "," ds
          then ∃ field others,
                 PyStr.split "," ds = path :: field :: others ∧ name = Some field
          else path = ds ∧ name = None)
         ∧ load_prompts args env t
           = (t ++ [EvLoadDataset path name (default "validation" (split args))],
              match env_load_dataset env t path name
                      (default "validation" (split args)) with
              | Normal data =>
                  match columns data !! dataset_field args with
                  | Some l => Normal (Some {["questions" := l]})
                  | None => Raise (missing_column data (dataset_field args))
                  end
              | Raise e => Raise e
              end)).
Proof.
  assert (Hsome : ∀ ds, dataset args = Some ds →
       ∃ path name,
         (if PyStr.contains "," ds
          then ∃ field others,
                 PyStr.split "," ds = path :: field :: others ∧ name = Some field
          else path = ds ∧ name = None)
         ∧ load_prompts args env t
           = (t ++ [EvLoadDataset path name (default "validation" (split args))],
              prompts_of
                (env_load_dataset env t path name (default "validation" (split args)))
                (dataset_field args))).
  { intros ds Hds. destruct (PyStr.contains "," ds) eqn:Hc.
    - destruct (split_with_separator _ _ Hc) as (p & n & others & Hs).
      exists p, (Some n). split; [by exists n, others|].
      rewrite (load_prompts_some env t args ds p n others Hds); rewrite Hc; done.
    - exists ds, None. split; [done|].
      rewrite (load_prompts_some env t args ds ds ds [] Hds); rewrite Hc; done. }
  assert (Hnone : dataset args = None → load_prompts args env t = (t, Normal None)).
  { intros H. unfold load_prompts. by rewrite H. }
  split; [|split; [done|]].
  - split.
    + intros Hres. destruct (dataset args) as [ds|] eqn:Hds; [|done].
      destruct (Hsome ds eq_refl) as (p & n & _ & Hrun). rewrite Hrun in Hres.
      simpl in Hres. unfold prompts_of in Hres.
      destruct (env_load_dataset env t p n _) as [data|]; [|done].
      by destruct (columns data !! dataset_field args).
    + intros H. by rewrite Hnone.
  - intros ds Hds. destruct (Hsome ds Hds) as (p & n & Hpin & Hrun).
    exists p, n. split; [done|]. exact Hrun.
Qed.

Lemma load_prompts_returns_witness :
  load_prompts default_args sample_env [] = ([], Normal None)
  ∧ (dataset missing_field_args = Some "squad"
     ∧ ∃ path name,
         (if PyStr.contains "," "squad"
          then ∃ field others,
                 PyStr.split "," "squad" = path :: field :: others ∧ name = Some field
          else path = "squad" ∧ name = None)
         ∧ load_prompts missing_field_args sample_env []
           = ([] ++ [EvLoadDataset path name
                       (default "validation" (split missing_field_args))],
              match env_load_dataset sample_env [] path name
                      (default "validation" (split missing_field_args)) with
              | Normal data =>
                  match columns data !! dataset_field missing_field_args with
                  | Some l => Normal (Some {["questions" := l]})
                  | None => Raise (missing_column data (dataset_field missing_field_args))
                  end
              | Raise e => Raise e
              end))
  ∧ (dataset wikitext_args = Some "wikitext,wikitext-2-v1"
     ∧ ∃ path name,
         (if PyStr.contains "," "wikitext,wikitext-2-v1"
          then ∃ field others,
                 PyStr.split "," "wikitext,wikitext-2-v1" = path :: field :: others
                 ∧ name = Some field
          else path = "wikitext,wikitext-2-v1" ∧ name = None)
         ∧ load_prompts wikitext_args sample_env []
           = ([] ++ [EvLoadDataset path name
                       (default "validation" (split wikitext_args))],
              match env_load_dataset sample_env [] path name
                      (default "validation" (split wikitext_args)) with
              | Normal data =>
                  match columns data !! dataset_field wikitext_args with
                  | Some l => Normal (Some {["questions" := l]})
                  | None => Raise (missing_column data (dataset_field wikitext_args))
                  end
              | Raise e => Raise e
              end)).
Proof.
  split; [|split].
  - apply (load_prompts_returns sample_env [] default_args). reflexivity.
  - split; [reflexivity|].
    apply (load_prompts_returns sample_env [] missing_field_args). reflexivity.
  - split; [reflexivity|].
    apply (load_prompts_returns sample_env [] wikitext_args). reflexivity.
Defined.

(** The two ways of naming a dataset, run: without a comma the whole
    string is the path and no config name is given. *)
Example load_prompts_samples :
  load_prompts missing_field_args sample_env []
  = ([EvLoadDataset "squad" None "validation"], Raise KeyError)
  ∧ load_prompts wikitext_args sample_env []
    = ([EvLoadDataset "wikitext" (Some "wikitext-2-v1") "validation"],
       Normal (Some {["questions" := ["What is the capital of France?";
                                      "Who wrote Hamlet?"]]})).
Proof. split; reflexivity. Qed.

(** C10 (amended): when [args.dataset] contains a comma, [load_prompts]
    calls [load_dataset] with the text before the first comma as path and
    the text between the first comma and the next one (or the end) as
    name; whatever follows a second comma plays no part; and a dataset
    string whose first comma is its last character gives the empty string,
    not [None], as name. *)
Theorem load_prompts_path_and_name (env : Env) (t : trace) (args : Args) (ds : string) :
  dataset args = Some ds →
  PyStr.contains "," ds = true →
  (∃ path name tail,
     ds = (path ++ "," ++ name ++ tail)%string
     ∧ PyStr.contains "," path = false ∧ PyStr.contains "," name = false
     ∧ (tail = "" ∨ ∃ rest, tail = ("," ++ rest)%string))
  ∧ (∀ path name tail,
       ds = (path ++ "," ++ name ++ tail)%string →
       PyStr.contains "," path = false → PyStr.contains "," name = false →
       tail = "" ∨ (∃ rest, tail = ("," ++ rest)%string) →
       (load_prompts args env t).1
       = t ++ [EvLoadDataset path (Some name) (default "validation" (split args))])
  ∧ (∀ path,
       ds = (path ++ ",")%string → PyStr.contains "," path = false →
       (load_prompts args env t).1
       = t ++ [EvLoadDataset path (Some "") (default "validation" (split args))]).
Proof.
  intros Hds Hc.
  assert (Hgen : ∀ path name tail,
       ds = (path ++ "," ++ name ++ tail)%string →
       PyStr.contains "," path = false → PyStr.contains "," name = false →
       tail = "" ∨ (∃ rest, tail = ("," ++ rest)%string) →
       (load_prompts args env t).1
       = t ++ [EvLoadDataset path (Some name) (default "validation" (split args))]).
  { intros path name tail Heq Hp Hn Htail.
    destruct (split_two_fields "," path name tail Hp Hn Htail) as (others & Hs).
    change (path ++ String "," (name ++ tail))%string
      with (path ++ "," ++ name ++ tail)%string in Hs.
    rewrite <- Heq in Hs.
    rewrite (load_prompts_some env t args ds path name others Hds);
      rewrite Hc; done. }
  split; [|split].
  - by apply contains_decompose.
  - exact Hgen.
  - intros path Heq Hp. apply (Hgen path "" ""); auto.
Qed.

Lemma load_prompts_path_and_name_witness :
  (load_prompts wikitext_args sample_env []).1
  = [EvLoadDataset "wikitext" (Some "wikitext-2-v1") "validation"].
Proof.
  assert (Hc : PyStr.contains "," "wikitext,wikitext-2-v1" = true) by reflexivity.
  destruct (load_prompts_path_and_name sample_env [] wikitext_args
              "wikitext,wikitext-2-v1" eq_refl Hc) as (_ & H & _).
  apply (H "wikitext" "wikitext-2-v1" ""); auto.
Defined.

(** A dataset string may end in a comma and still name a config: the
    name of ["wikitext,wikitext-2-v1,"] is ["wikitext-2-v1"], not the empty
    string. *)
Lemma trailing_comma_name_not_empty :
  ¬ (∀ (env : Env) (t : trace) (args : Args) (prefix : string),
       dataset args = Some (prefix ++ ",")%string →
       ∃ path split_,
         (load_prompts args env t).1 = t ++ [EvLoadDataset path (Some "") split_]).
Proof.
  intros H.
  destruct (H sample_env [] trailing_comma_args "wikitext,wikitext-2-v1" eq_refl)
    as (path & split_ & Hrun).
  vm_compute in Hrun. discriminate Hrun.
Qed.

(** ** load_model *)

(** C7: with [use_hf], [load_model] logs and returns what
    [AutoModelForCausalLM.from_pretrained] answers for the lower-cased
    device, whatever [ov_config] is.  Otherwise, once the OpenVINO options
    are read, it calls [OVModelForCausalLM.from_pretrained] without a
    config; it goes on to [AutoConfig.from_pretrained] and a second call
    with that config and [use_cache=True] exactly when the first call
    raised [ValueError]; every other exception is passed on. *)
Theorem load_model_backends (env : Env) (t : trace) (model_id : option string)
    (dev : string) (ov_cfg : option string) (use_genai : bool) :
  (∀ other_cfg,
     load_model model_id dev ov_cfg true use_genai env t
     = load_model model_id dev other_cfg true use_genai env t)
  ∧ load_model model_id dev ov_cfg true use_genai env t
    = (t ++ [EvLog (LStr "Using HF model") [];
             EvAutoModelForCausalLM model_id true (PyStr.lower dev)],
       env_AutoModelForCausalLM env (t ++ [EvLog (LStr "Using HF model") []])
         model_id (PyStr.lower dev))
  ∧ match options_read env t ov_cfg with
    | (t1, Raise e) =>
        load_model model_id dev ov_cfg false use_genai env t = (t1, Raise e)
    | (t1, Normal ov_options) =>
        let attempt := EvOVModelForCausalLM model_id None true None dev ov_options in
        match env_OVModelForCausalLM env t1 model_id None None dev ov_options with
        | Normal m =>
            load_model model_id dev ov_cfg false use_genai env t
            = (t1 ++ [attempt], Normal m)
        | Raise (ValueError sub) =>
            match env_AutoConfig env (t1 ++ [attempt]) model_id with
            | Normal config =>
                load_model model_id dev ov_cfg false use_genai env t
                = (t1 ++ [attempt; EvAutoConfig model_id true;
                          EvOVModelForCausalLM model_id (Some config) true (Some true)
                            dev ov_options],
                   env_OVModelForCausalLM env
                     (t1 ++ [attempt; EvAutoConfig model_id true])
                     model_id (Some config) (Some true) dev ov_options)
            | Raise e =>
                load_model model_id dev ov_cfg false use_genai env t
                = (t1 ++ [attempt; EvAutoConfig model_id true], Raise e)
            end
        | Raise e =>
            load_model model_id dev ov_cfg false use_genai env t
            = (t1 ++ [attempt], Raise e)
        end
    end.
Proof.
  split; [done|]. split.
  - unfold load_model, bind, logger_info, AutoModelForCausalLM_from_pretrained, call.
    by rewrite <- app_assoc.
  - unfold load_model, options_read, try_except_ValueError, bind, read_json,
      OVModelForCausalLM_from_pretrained, AutoConfig_from_pretrained, call, ret.
    destruct ov_cfg as [path|]; [destruct (PyStr.truthy_str path)|].
    2,3: destruct (env_OVModelForCausalLM env t model_id None None dev None)
           as [m|[]]; simpl; try done;
         destruct (env_AutoConfig env _ model_id) as [config|e];
         by rewrite <- ?app_assoc.
    destruct (env_read_json env t path) as [j|e]; simpl; [|done].
    destruct (env_OVModelForCausalLM env _ model_id None None dev (Some j))
      as [m|[]]; simpl; try done.
    destruct (env_AutoConfig env _ model_id) as [config|e];
      by rewrite <- ?app_assoc.
Qed.

Example load_model_retry :
  load_model (Some "base") "CPU" None false false retry_env []
  = ([EvOVModelForCausalLM (Some "base") None true None "CPU" None;
      EvAutoConfig (Some "base") true;
      EvOVModelForCausalLM (Some "base") (Some (config_obj 1)) true (Some true) "CPU" None],
     Normal (model_obj 2)).
Proof. reflexivity. Qed.

Example load_model_hf :
  load_model (Some "base") "GPU" (Some "ov.json") true false sample_env []
  = ([EvLog (LStr "Using HF model") [];
      EvAutoModelForCausalLM (Some "base") true "gpu"],
     Normal (model_obj 1)).
Proof. reflexivity. Qed.

(** ** The blocks of main *)

Lemma main_blocks args env t :
  main args env t
  = (check_args args ;;
     prompts <- load_prompts args ;;
     tok <- load_tokenizer args ;;
     evaluator <- evaluator_block args prompts tok ;;
     target_block args evaluator ;;
     verbose_block args evaluator) env t.
Proof.
  unfold main.
  do 3 (apply bind_ext; intros ? ?).
  symmetry. apply bind_assoc.
Qed.

Lemma bind_normal_inv {A B} (m : M A) (f : A → M B) env t b :
  (bind m f env t).2 = Normal b →
  ∃ t1 a, m env t = (t1, Normal a) ∧ (f a env t1).2 = Normal b
          ∧ bind m f env t = f a env t1.
Proof.
  unfold bind. destruct (m env t) as [t1 [a|e]]; [|done].
  intros H. by exists t1, a.
Qed.

Lemma main_normal env args :
  (run_main env args).2 = Normal tt →
  ∃ t0 prompts t1 tok t2 evaluator t3,
    rejects args = false
    ∧ load_prompts args env [] = (t0, Normal prompts)
    ∧ load_tokenizer args env t0 = (t1, Normal tok)
    ∧ evaluator_block args prompts tok env t1 = (t2, Normal evaluator)
    ∧ target_block args evaluator env t2 = (t3, Normal tt)
    ∧ verbose_block args evaluator env t3 = run_main env args.
Proof.
  unfold run_main. rewrite main_blocks. intros Hn.
  apply bind_normal_inv in Hn as (tc & [] & Hc & Hn & ->).
  rewrite check_args_run in Hc. destruct (rejects args); [done|].
  injection Hc as <-.
  apply bind_normal_inv in Hn as (t0 & prompts & H0 & Hn & ->).
  apply bind_normal_inv in Hn as (t1 & tok & H1 & Hn & ->).
  apply bind_normal_inv in Hn as (t2 & evaluator & H2 & Hn & ->).
  apply bind_normal_inv in Hn as (t3 & [] & H3 & Hn & ->).
  by exists t0, prompts, t1, tok, t2, evaluator, t3.
Qed.

Lemma appends_run {A} P (m : M A) env t t' r :
  appends P m → m env t = (t', r) →
  ∃ evs, t' = t ++ evs ∧ Forall (λ e, P e = true) evs.
Proof. intros H Hrun. destruct (H env t) as (evs & Ht & Hevs). rewrite Hrun in Ht. eauto. Qed.

(** [main] without its last block keeps to a class of events as soon as
    its four stages do. *)
Lemma stages_append P env args t0 prompts t1 tok t2 evaluator t3 r :
  appends P (load_prompts args) →
  appends P (load_tokenizer args) →
  appends P (evaluator_block args prompts tok) →
  appends P (target_block args evaluator) →
  load_prompts args env [] = (t0, Normal prompts) →
  load_tokenizer args env t0 = (t1, Normal tok) →
  evaluator_block args prompts tok env t1 = (t2, Normal evaluator) →
  target_block args evaluator env t2 = (t3, r) →
  Forall (λ e, P e = true) t3.
Proof.
  intros A0 A1 A2 A3 H0 H1 H2 H3.
  destruct (appends_run _ _ _ _ _ _ A0 H0) as (e0 & -> & F0).
  destruct (appends_run _ _ _ _ _ _ A1 H1) as (e1 & -> & F1).
  destruct (appends_run _ _ _ _ _ _ A2 H2) as (e2 & -> & F2).
  destruct (appends_run _ _ _ _ _ _ A3 H3) as (e3 & -> & F3).
  rewrite !Forall_app. by repeat split.
Qed.

(** ** The diff view *)

Lemma append_assoc (s1 s2 s3 : string) :
  ((s1 ++ s2) ++ s3)%string = (s1 ++ s2 ++ s3)%string.
Proof.
  induction s1 as [|x s1 IH]; [done|].
  change (String x ((s1 ++ s2) ++ s3)%string = String x (s1 ++ s2 ++ s3)%string).
  by f_equal.
Qed.

Lemma join_app (l1 l2 : list string) : join (l1 ++ l2) = (join l1 ++ join l2)%string.
Proof.
  induction l1 as [|x l1 IH]; [done|].
  change (join ((x :: l1) ++ l2)) with (x ++ join (l1 ++ l2))%string.
  change (join (x :: l1)) with (x ++ join l1)%string.
  by rewrite IH, append_assoc.
Qed.

Lemma line_loop (line1 line2 line3 : string) (pairs : list (string * string)) :
  fold_left line_step pairs (line1, line2, line3)
  = let kept := filter (λ ls : string * string, ¬ (ls.1 = "" ∧ ls.2 = "")) pairs in
    ((line1 ++ join (map (λ ls, ls.1 ++ nl) kept))%string,
     (line2 ++ join (map (λ ls, ls.2 ++ nl) kept))%string,
     (line3 ++ join (map (λ ls, diff_strings ls.1 ls.2 false ++ nl) kept))%string).
Proof.
  revert line1 line2 line3.
  induction pairs as [|[l1 l2] pairs IH]; intros line1 line2 line3.
  - simpl. by rewrite !append_empty_r.
  - cbn [fold_left]. rewrite filter_cons.
    destruct (decide (¬ ((l1, l2).1 = "" ∧ (l1, l2).2 = ""))) as [Hkeep|Hdrop].
    + assert (Hstep : line_step (line1, line2, line3) (l1, l2)
                      = ((line1 ++ l1 ++ nl)%string, (line2 ++ l2 ++ nl)%string,
                         (line3 ++ diff_strings l1 l2 false ++ nl)%string)).
      { unfold line_step. destruct l1, l2; simpl in *; try done.
        exfalso. by apply Hkeep. }
      rewrite Hstep, IH. cbn zeta. cbn [map fst snd].
      change (join (?x :: ?l)) with (x ++ join l)%string.
      by rewrite !append_assoc.
    + assert (Hstep : line_step (line1, line2, line3) (l1, l2) = (line1, line2, line3)).
      { unfold line_step. destruct l1, l2; simpl in *; try done;
          exfalso; apply Hdrop; by intros [? ?]. }
      by rewrite Hstep, IH.
Qed.

Lemma log_example_run ie env t :
  log_example ie env t = (t ++ example_events ie, Normal tt).
Proof.
  destruct ie as [i e]. unfold log_example, example_events, text_of, kept_lines.
  rewrite line_loop. cbn zeta.
  unfold bind, logger_info. simpl. by rewrite <- !app_assoc.
Qed.

Lemma for_each_log_example_run (ies : list (Z * Example)) env t :
  for_each ies log_example env t = (t ++ concat (map example_events ies), Normal tt).
Proof.
  revert t. induction ies as [|ie ies IH]; intros t.
  - simpl. by rewrite app_nil_r.
  - cbn [for_each map concat]. unfold bind. rewrite log_example_run, IH.
    by rewrite <- app_assoc.
Qed.

Lemma verbose_block_run args evaluator env t :
  verbose_block args evaluator env t
  = if verbose args then
      match env_worst_examples env t evaluator 5 "similarity" with
      | Normal examples =>
          (t ++ EvWorstExamples evaluator 5 "similarity" :: view_events examples,
           Normal tt)
      | Raise e => (t ++ [EvWorstExamples evaluator 5 "similarity"], Raise e)
      end
    else (t, Normal tt).
Proof.
  unfold verbose_block. destruct (verbose args); [|done].
  unfold worst_examples. rewrite bind_call.
  destruct (env_worst_examples env t evaluator 5 "similarity") as [examples|e]; [|done].
  rewrite for_each_log_example_run. unfold view_events. by rewrite <- app_assoc.
Qed.

Lemma appends_before_view args prompts tok evaluator :
  let P := λ e, negb (is_worst e) && negb (is_view_header e) in
  appends P (load_prompts args) ∧ appends P (load_tokenizer args)
  ∧ appends P (evaluator_block args prompts tok)
  ∧ appends P (target_block args evaluator).
Proof. repeat split; solve_appends. Qed.

(** C5: without [--verbose] no worst example is fetched and nothing of the
    diff view is logged; with [--verbose], a run of [main] that returns
    ends with the fetch of the [top_k=5] worst examples by ["similarity"]
    from the evaluator it built, followed, for each example, by its
    reference text, its actual text and its diff, made line by line with
    [diff_strings] over the zipped lines of the two texts, the pairs of two
    empty lines left out. *)
Theorem main_verbose_view (env : Env) (args : Args) :
  (verbose args = false →
     Forall (λ e, is_worst e = false ∧ is_view_header e = false) (run_main env args).1)
  ∧ (verbose args = true →
     (run_main env args).2 = Normal tt →
     ∃ prompts tok t1 t2 evaluator pre examples,
       evaluator_block args prompts tok env t1 = (t2, Normal evaluator)
       ∧ t2 `prefix_of` pre
       ∧ env_worst_examples env pre evaluator 5 "similarity" = Normal examples
       ∧ (run_main env args).1
         = pre ++ EvWorstExamples evaluator 5 "similarity" :: view_events examples
       ∧ Forall (λ e, is_worst e = false ∧ is_view_header e = false) pre).
Proof.
  split.
  - intros Hv.
    assert (H : appends (λ e, negb (is_worst e) && negb (is_view_header e)) (main args)).
    { unfold main. solve_appends. }
    destruct (H env []) as (evs & Ht & Hevs). unfold run_main. rewrite Ht. simpl.
    eapply Forall_impl; [exact Hevs|]. intros e He. simpl in He.
    apply andb_true_iff in He as [? ?]. split; by apply negb_true_iff.
  - intros Hv Hn.
    destruct (main_normal env args Hn)
      as (t0 & prompts & t1 & tok & t2 & evaluator & t3 & _ & H0 & H1 & H2 & H3 & H4).
    rewrite <- H4 in *. rewrite verbose_block_run, Hv in *.
    destruct (env_worst_examples env t3 evaluator 5 "similarity") as [examples|e] eqn:Hw;
      [|done].
    exists prompts, tok, t1, t2, evaluator, t3, examples.
    destruct (appends_before_view args prompts tok evaluator) as (A0 & A1 & A2 & A3).
    split; [done|]. split.
    { destruct (appends_run _ _ _ _ _ _ A3 H3) as (e3 & -> & _). by apply prefix_app_r. }
    split; [done|]. split; [done|].
    eapply Forall_impl;
      [exact (stages_append _ _ _ _ _ _ _ _ _ _ _ A0 A1 A2 A3 H0 H1 H2 H3)|].
    intros e He. simpl in He.
    apply andb_true_iff in He as [? ?]. split; by apply negb_true_iff.
Qed.

(** ** The target block: scoring and the CSV files *)

Lemma output_block_normal out pq all env t t' :
  output_block out pq all env t = (t', Normal tt) →
  ∃ df1 df2,
    let checked := t ++ [EvPathExists out (exists_after env t out)]
                     ++ (if exists_after env t out then [] else [EvMkdir out]) in
    let per_question := PyStr.path_join out "metrics_per_qustion.csv" in
    env_DataFrame env checked pq = Normal df1
    ∧ env_DataFrame env (checked ++ [EvDataFrame pq; EvToCsv df1 per_question]) all
      = Normal df2
    ∧ t' = checked
           ++ [EvDataFrame pq; EvToCsv df1 per_question;
               EvDataFrame all; EvToCsv df2 (PyStr.path_join out "metrics.csv")].
Proof.
  unfold output_block, os_path_exists, os_mkdir, pd_DataFrame, to_csv, bind, call, ret.
  destruct (exists_after env t out) eqn:Hp; cbn zeta; cbn [app].
  - destruct (env_DataFrame env _ pq) as [df1|] eqn:H1; [|done].
    destruct (env_to_csv env _ df1 _) as [[]|]; [|done].
    destruct (env_DataFrame env _ all) as [df2|] eqn:H2; [|done].
    destruct (env_to_csv env _ df2 _) as [[]|]; [|done].
    intros [= <-]. exists df1, df2. split; [done|].
    rewrite <- !app_assoc in H2. split; [by rewrite <- !app_assoc|].
    by rewrite <- !app_assoc.
  - destruct (env_mkdir env _ out) as [[]|]; [|done].
    destruct (env_DataFrame env _ pq) as [df1|] eqn:H1; [|done].
    destruct (env_to_csv env _ df1 _) as [[]|]; [|done].
    destruct (env_DataFrame env _ all) as [df2|] eqn:H2; [|done].
    destruct (env_to_csv env _ df2 _) as [[]|]; [|done].
    intros [= <-]. exists df1, df2.
    rewrite <- !app_assoc in H1. rewrite <- !app_assoc in H2.
    split; [done|]. split; [by rewrite <- !app_assoc|].
    by rewrite <- !app_assoc.
Qed.

Lemma target_block_skipped args evaluator env t :
  PyStr.truthy (target_model args) = false →
  target_block args evaluator env t = (t, Normal tt).
Proof.
  unfold target_block. destruct (target_model args) as [id|]; [|done].
  simpl. by intros ->.
Qed.

(** A run of the target block that returns: the target is loaded, scored
    and logged, and the output block follows when [--output] is not
    empty. *)
Lemma target_block_normal args evaluator env t t' :
  PyStr.truthy (target_model args) = true →
  target_block args evaluator env t = (t', Normal tt) →
  ∃ target_id t1 target pq all,
    target_model args = Some target_id
    ∧ load_model (target_model args) (device args) (ov_config args) (hf args) false
        env t = (t1, Normal target)
    ∧ env_score env t1 evaluator target = Normal (pq, all)
    ∧ let t2 := t1 ++ [EvScore evaluator target;
                       EvLog (LStr "Metrics for model: %s") [LStr target_id];
                       EvLog (LTable all) []] in
      match output args with
      | Some out =>
          if PyStr.truthy_str out then output_block out pq all env t2 = (t', Normal tt)
          else t' = t2
      | None => t' = t2
      end.
Proof.
  unfold target_block. destruct (target_model args) as [id|] eqn:Hid; [|done].
  simpl. intros ->. unfold bind at 1.
  destruct (load_model _ _ _ _ _ env t) as [t1 [target|e]]; [|done].
  unfold score. rewrite bind_call.
  destruct (env_score env t1 evaluator target) as [[pq all]|e] eqn:Hs; [|done].
  unfold bind, logger_info. cbn [fst snd].
  intros H. exists id, t1, target, pq, all. rewrite Hs.
  repeat (split; [done|]). cbn zeta.
  rewrite <- !app_assoc in H. simpl in H.
  destruct (output args) as [out|]; [destruct (PyStr.truthy_str out)|].
  - exact H.
  - by injection H.
  - by injection H.
Qed.

Lemma appends_load_model_no_write model_id dev ov_cfg use_hf use_genai :
  appends (λ e, negb (is_output_write e) && negb (is_score e))
    (load_model model_id dev ov_cfg use_hf use_genai).
Proof. solve_appends. Qed.

Lemma appends_before_target args prompts tok :
  let P := λ e, negb (is_output_write e) && negb (is_score e) in
  appends P (load_prompts args) ∧ appends P (load_tokenizer args)
  ∧ appends P (evaluator_block args prompts tok).
Proof. repeat split; solve_appends. Qed.

Lemma appends_verbose_block args evaluator :
  appends (λ e, negb (is_output_write e) && negb (is_score e) && negb (is_model_load e)
                && negb (is_dump e))
    (verbose_block args evaluator).
Proof. solve_appends. Qed.

Lemma Forall_class (P Q : event → bool) (t : trace) :
  (∀ e, P e = true → Q e = false) →
  Forall (λ e, P e = true) t → Forall (λ e, Q e = false) t.
Proof. intros H F. eapply Forall_impl; [exact F|exact H]. Qed.

Lemma path_join_inside (out name : string) :
  PyStr.starts_with_slash name = false →
  PyStr.path_join out name = (out ++ name)%string
  ∨ PyStr.path_join out name = (out ++ "/" ++ name)%string.
Proof.
  intros H. unfold PyStr.path_join. rewrite H.
  destruct (negb (PyStr.truthy_str out) || PyStr.ends_with_slash out); auto.
Qed.

Lemma appends_output_block out pq all :
  appends (λ e, negb (is_score e) && negb (is_model_load e) && negb (is_dump e))
    (output_block out pq all).
Proof. solve_appends. Qed.

Lemma appends_run_Forall {A} P (m : M A) env t t' r :
  appends P m → m env t = (t', r) →
  Forall (λ e, P e = true) t → Forall (λ e, P e = true) t'.
Proof.
  intros H Hrun Ft. destruct (appends_run _ _ _ _ _ _ H Hrun) as (evs & -> & Fe).
  by apply Forall_app.
Qed.

(** What follows the loading of the target in a run of the target block
    that returns. *)
Lemma target_block_tail args evaluator env t t' :
  PyStr.truthy (target_model args) = true →
  target_block args evaluator env t = (t', Normal tt) →
  ∃ loaded target pq all tail,
    load_model (target_model args) (device args) (ov_config args) (hf args) false
      env t = (loaded, Normal target)
    ∧ env_score env loaded evaluator target = Normal (pq, all)
    ∧ t' = loaded ++ EvScore evaluator target :: tail
    ∧ Forall (λ e, negb (is_score e) && negb (is_model_load e) && negb (is_dump e)
                   = true) tail.
Proof.
  intros Ht Hrun.
  destruct (target_block_normal _ _ _ _ _ Ht Hrun)
    as (id & loaded & target & pq & all & Hid & Hload & Hscore & Hout).
  exists loaded, target, pq, all. cbn zeta in Hout.
  assert (Hlogs : Forall (λ e, negb (is_score e) && negb (is_model_load e)
                               && negb (is_dump e) = true)
                    [EvLog (LStr "Metrics for model: %s") [LStr id];
                     EvLog (LTable all) []]) by (by repeat constructor).
  destruct (output args) as [out|]; [destruct (PyStr.truthy_str out)|].
  - destruct (appends_run _ _ _ _ _ _ (appends_output_block _ _ _) Hout)
      as (e4 & -> & F4).
    exists ([EvLog (LStr "Metrics for model: %s") [LStr id]; EvLog (LTable all) []] ++ e4).
    repeat (split; [done|]). split; [by rewrite <- !app_assoc|].
    by apply Forall_app.
  - subst t'.
    exists [EvLog (LStr "Metrics for model: %s") [LStr id]; EvLog (LTable all) []].
    by repeat split.
  - subst t'.
    exists [EvLog (LStr "Metrics for model: %s") [LStr id]; EvLog (LTable all) []].
    by repeat split.
Qed.

(** C1 (amended): [evaluator.score] is never invoked when
    [args.target_model] is [None] or empty; when it is a non-empty string,
    a run of [main] that returns invokes it exactly once, on the model that
    [load_model] returned for [args.target_model] and on the evaluator
    built by the evaluator block (from the loaded base model, or from the
    ground-truth file). *)
Theorem main_scores_target (env : Env) (args : Args) :
  (PyStr.truthy (target_model args) = false →
     Forall (λ e, is_score e = false) (run_main env args).1)
  ∧ (PyStr.truthy (target_model args) = true →
     (run_main env args).2 = Normal tt →
     ∃ prompts tok t1 built evaluator loaded target pq all rest,
       rejects args = false
       ∧ evaluator_block args prompts tok env t1 = (built, Normal evaluator)
       ∧ load_model (target_model args) (device args) (ov_config args) (hf args)
           false env built = (loaded, Normal target)
       ∧ env_score env loaded evaluator target = Normal (pq, all)
       ∧ (run_main env args).1 = loaded ++ EvScore evaluator target :: rest
       ∧ Forall (λ e, is_score e = false) loaded
       ∧ Forall (λ e, is_score e = false) rest).
Proof.
  split.
  - intros Ht.
    assert (H : appends (λ e, negb (is_score e)) (main args)).
    { unfold main. solve_appends. }
    destruct (H env []) as (evs & Hrun & Hevs). unfold run_main. rewrite Hrun.
    eapply Forall_class; [|exact Hevs]. by intros [].
  - intros Ht Hn.
    destruct (main_normal env args Hn)
      as (t0 & prompts & t1 & tok & t2 & evaluator & t3 & Hrej & H0 & H1 & H2 & H3 & H4).
    destruct (run_main env args) as [tf rf].
    destruct (target_block_tail _ _ _ _ _ Ht H3)
      as (loaded & target & pq & all & tail & Hload & Hscore & -> & Ftail).
    destruct (appends_run _ _ _ _ _ _ (appends_verbose_block args evaluator) H4)
      as (e5 & -> & F5).
    exists prompts, tok, t1, t2, evaluator, loaded, target, pq, all, (tail ++ e5).
    repeat (split; [done|]).
    split; [by rewrite <- app_assoc|].
    destruct (appends_before_target args prompts tok) as (A0 & A1 & A2).
    pose proof (appends_run_Forall _ _ _ _ _ _ A0 H0 (Forall_nil_2 _)) as F0.
    pose proof (appends_run_Forall _ _ _ _ _ _ A1 H1 F0) as F1.
    pose proof (appends_run_Forall _ _ _ _ _ _ A2 H2 F1) as F2.
    pose proof (appends_run_Forall _ _ _ _ _ _
                  (appends_load_model_no_write _ _ _ _ _) Hload F2) as F3.
    split.
    + eapply Forall_class; [|exact F3]. by intros [].
    + apply Forall_app. split.
      * eapply Forall_class; [|exact Ftail]. by intros [].
      * eapply Forall_class; [|exact F5]. by intros [].
Qed.

Lemma main_scores_target_witness :
  PyStr.truthy (target_model two_models) = true
  ∧ (run_main sample_env two_models).2 = Normal tt
  ∧ ∃ prompts tok t1 built evaluator loaded target pq all rest,
      rejects two_models = false
      ∧ evaluator_block two_models prompts tok sample_env t1 = (built, Normal evaluator)
      ∧ load_model (target_model two_models) (device two_models)
          (ov_config two_models) (hf two_models) false sample_env built
        = (loaded, Normal target)
      ∧ env_score sample_env loaded evaluator target = Normal (pq, all)
      ∧ (run_main sample_env two_models).1 = loaded ++ EvScore evaluator target :: rest
      ∧ Forall (λ e, is_score e = false) loaded
      ∧ Forall (λ e, is_score e = false) rest.
Proof.
  split; [reflexivity|]. split; [vm_compute; reflexivity|].
  apply (main_scores_target sample_env two_models); [reflexivity|].
  vm_compute; reflexivity.
Defined.

(** A configuration with a base model only passes [check_args], and its
    run ends without a single call of [evaluator.score]. *)
Lemma base_only_never_scores :
  ¬ (∀ (env : Env) (args : Args),
       check_args args env [] = ([], Normal tt) →
       Exists (λ e, is_score e = true) (run_main env args).1).
Proof.
  intros H. specialize (H sample_env base_only eq_refl).
  vm_compute in H. repeat (apply Exists_cons in H as [H|H]; [discriminate H|]).
  by apply Exists_nil in H.
Qed.

Lemma keeps_to_gt_spec (args : Args) (e : event) :
  keeps_to_gt args e = true →
  is_output_write e = false
  ∧ ∀ evaluator path, e = EvDumpGt evaluator path → gt_data args = Some path.
Proof.
  destruct e; cbn; try done; intros H; (split; [done|]); intros ev p [= <- <-];
    by apply bool_decide_eq_true in H.
Qed.

Ltac keeps_to_gt_step :=
  first
    [ appends_step
    | apply appends_call; cbn [keeps_to_gt]; apply bool_decide_eq_true; congruence ].

Lemma appends_keeps_to_gt_before args prompts tok :
  appends (keeps_to_gt args) (load_prompts args)
  ∧ appends (keeps_to_gt args) (load_tokenizer args)
  ∧ appends (keeps_to_gt args) (evaluator_block args prompts tok).
Proof. repeat split; unfold_calls; repeat keeps_to_gt_step. Qed.

Lemma appends_load_model_keeps_to_gt args model_id dev ov_cfg use_hf use_genai :
  appends (keeps_to_gt args) (load_model model_id dev ov_cfg use_hf use_genai).
Proof. solve_appends. Qed.

Lemma appends_verbose_block_no_write args evaluator :
  appends (λ e, negb (is_file_write e)) (verbose_block args evaluator).
Proof. solve_appends. Qed.

(** C4 (amended): the directory and the two CSV files of the results are
    written only when [args.target_model] and [args.output] are both
    non-empty strings.  A run that returns then asks whether the output
    directory exists, creates it when it does not, and writes inside it the
    [DataFrame] of the per-question table of [evaluator.score] as
    [metrics_per_qustion.csv], then the [DataFrame] of its aggregate table
    as [metrics.csv].  Apart from these, and in every other configuration,
    the one file that a run of [main] may write is the ground truth, by
    [evaluator.dump_gt] on the path [args.gt_data]: no other directory is
    made and no other [to_csv] is called. *)
Theorem main_writes_csv (env : Env) (args : Args) :
  (PyStr.truthy (target_model args) && PyStr.truthy (output args) = false →
     Forall (λ e, is_output_write e = false
                  ∧ ∀ evaluator path,
                      e = EvDumpGt evaluator path → gt_data args = Some path)
       (run_main env args).1)
  ∧ (PyStr.truthy (target_model args) && PyStr.truthy (output args) = true →
     (run_main env args).2 = Normal tt →
     ∃ out loaded evaluator target id pq all df1 df2 post,
       let pre := loaded ++ [EvScore evaluator target;
                             EvLog (LStr "Metrics for model: %s") [LStr id];
                             EvLog (LTable all) []] in
       let checked := pre ++ [EvPathExists out (exists_after env pre out)]
                          ++ (if exists_after env pre out then [] else [EvMkdir out]) in
       let per_question := PyStr.path_join out "metrics_per_qustion.csv" in
       let aggregate := PyStr.path_join out "metrics.csv" in
       output args = Some out
       ∧ env_score env loaded evaluator target = Normal (pq, all)
       ∧ env_DataFrame env checked pq = Normal df1
       ∧ env_DataFrame env (checked ++ [EvDataFrame pq; EvToCsv df1 per_question]) all
         = Normal df2
       ∧ (run_main env args).1
         = checked
           ++ [EvDataFrame pq; EvToCsv df1 per_question;
               EvDataFrame all; EvToCsv df2 aggregate]
           ++ post
       ∧ Forall (λ e, is_output_write e = false
                      ∧ ∀ evaluator' path,
                          e = EvDumpGt evaluator' path → gt_data args = Some path) pre
       ∧ Forall (λ e, is_file_write e = false) post
       ∧ (per_question = (out ++ "metrics_per_qustion.csv")%string
          ∨ per_question = (out ++ "/" ++ "metrics_per_qustion.csv")%string)
       ∧ (aggregate = (out ++ "metrics.csv")%string
          ∨ aggregate = (out ++ "/" ++ "metrics.csv")%string)).
Proof.
  split.
  - intros Hc.
    assert (H : appends (keeps_to_gt args) (main args)).
    { unfold main. unfold_calls. repeat keeps_to_gt_step. }
    destruct (H env []) as (evs & Hrun & Hevs). unfold run_main. rewrite Hrun.
    eapply Forall_impl; [exact Hevs|]. apply keeps_to_gt_spec.
  - intros Hc Hn. apply andb_true_iff in Hc as [Ht Ho].
    destruct (main_normal env args Hn)
      as (t0 & prompts & t1 & tok & t2 & evaluator & t3 & Hrej & H0 & H1 & H2 & H3 & H4).
    destruct (run_main env args) as [tf rf].
    destruct (target_block_normal _ _ _ _ _ Ht H3)
      as (id & loaded & target & pq & all & Hid & Hload & Hscore & Hout).
    cbn zeta in Hout.
    destruct (output args) as [out|] eqn:Hout_args; [|done].
    simpl in Ho. rewrite Ho in Hout.
    destruct (output_block_normal _ _ _ _ _ _ Hout) as (df1 & df2 & Hdf1 & Hdf2 & ->).
    destruct (appends_run _ _ _ _ _ _ (appends_verbose_block_no_write args evaluator) H4)
      as (post & -> & Fpost).
    exists out, loaded, evaluator, target, id, pq, all, df1, df2, post. cbn zeta.
    split; [done|]. split; [done|]. split; [exact Hdf1|]. split; [exact Hdf2|].
    split; [by rewrite <- !app_assoc|].
    destruct (appends_keeps_to_gt_before args prompts tok) as (A0 & A1 & A2).
    pose proof (appends_run_Forall _ _ _ _ _ _ A0 H0 (Forall_nil_2 _)) as F0.
    pose proof (appends_run_Forall _ _ _ _ _ _ A1 H1 F0) as F1.
    pose proof (appends_run_Forall _ _ _ _ _ _ A2 H2 F1) as F2.
    pose proof (appends_run_Forall _ _ _ _ _ _
                  (appends_load_model_keeps_to_gt args _ _ _ _ _) Hload F2) as F3.
    split; [|split; [|split]].
    + apply Forall_app. split.
      * eapply Forall_impl; [exact F3|]. apply keeps_to_gt_spec.
      * repeat (apply Forall_cons_2; [by split|]). apply Forall_nil_2.
    + eapply Forall_class; [|exact Fpost]. by intros [].
    + by apply path_join_inside.
    + by apply path_join_inside.
Qed.

Lemma main_writes_csv_witness :
  PyStr.truthy (target_model csv_args) && PyStr.truthy (output csv_args) = true
  ∧ (run_main sample_env csv_args).2 = Normal tt
  ∧ ∃ out loaded evaluator target id pq all df1 df2 post,
      let pre := loaded ++ [EvScore evaluator target;
                            EvLog (LStr "Metrics for model: %s") [LStr id];
                            EvLog (LTable all) []] in
      let checked := pre ++ [EvPathExists out (exists_after sample_env pre out)]
                         ++ (if exists_after sample_env pre out then []
                             else [EvMkdir out]) in
      let per_question := PyStr.path_join out "metrics_per_qustion.csv" in
      let aggregate := PyStr.path_join out "metrics.csv" in
      output csv_args = Some out
      ∧ env_score sample_env loaded evaluator target = Normal (pq, all)
      ∧ env_DataFrame sample_env checked pq = Normal df1
      ∧ env_DataFrame sample_env
          (checked ++ [EvDataFrame pq; EvToCsv df1 per_question]) all
        = Normal df2
      ∧ (run_main sample_env csv_args).1
        = checked
          ++ [EvDataFrame pq; EvToCsv df1 per_question;
              EvDataFrame all; EvToCsv df2 aggregate]
          ++ post
      ∧ Forall (λ e, is_output_write e = false
                     ∧ ∀ evaluator' path,
                         e = EvDumpGt evaluator' path → gt_data csv_args = Some path) pre
      ∧ Forall (λ e, is_file_write e = false) post
      ∧ (per_question = (out ++ "metrics_per_qustion.csv")%string
         ∨ per_question = (out ++ "/" ++ "metrics_per_qustion.csv")%string)
      ∧ (aggregate = (out ++ "metrics.csv")%string
         ∨ aggregate = (out ++ "/" ++ "metrics.csv")%string).
Proof.
  split; [reflexivity|]. split; [vm_compute; reflexivity|].
  apply (main_writes_csv sample_env csv_args); [reflexivity|].
  vm_compute; reflexivity.
Defined.

(** Without [--output], and with a [--gt-data] file that does not exist
    yet, a run still writes that file. *)
Example ground_truth_written_without_output :
  output gt_args = None
  ∧ Exists (λ e, e = EvDumpGt (evaluator_obj 3) "gt.csv") (run_main sample_env gt_args).1
  ∧ Forall (λ e, is_output_write e = false) (run_main sample_env gt_args).1.
Proof.
  split; [reflexivity|]. split.
  - vm_compute. do 4 apply Exists_cons_tl. by apply Exists_cons_hd.
  - vm_compute. by repeat constructor.
Qed.

Example run_with_output :
  run_main sample_env csv_args
  = ([EvAutoTokenizer (Some "base") true;
      EvOVModelForCausalLM (Some "base") None true None "CPU" None;
      EvEvaluator (Some (model_obj 1)) None None (tokenizer_obj 0)
        "sentence-transformers/all-mpnet-base-v2" None None;
      EvDel (model_obj 1);
      EvOVModelForCausalLM (Some "target") None true None "CPU" None;
      EvScore (evaluator_obj 2) (model_obj 4);
      EvLog (LStr "Metrics for model: %s") [LStr "target"];
      EvLog (LTable (table_obj 6)) [];
      EvPathExists "results" false;
      EvMkdir "results";
      EvDataFrame (table_obj 5);
      EvToCsv (dataframe_obj 10) "results/metrics_per_qustion.csv";
      EvDataFrame (table_obj 6);
      EvToCsv (dataframe_obj 12) "results/metrics.csv"],
     Normal tt).
Proof. vm_compute. reflexivity. Qed.

(** [--output] given with an empty value: the run returns and writes
    nothing. *)
Lemma empty_output_writes_nothing :
  ¬ (∀ (env : Env) (args : Args),
       is_Some (target_model args) → is_Some (output args) →
       (run_main env args).2 = Normal tt →
       Exists (λ e, is_output_write e = true) (run_main env args).1).
Proof.
  intros H.
  assert (Hrun : (run_main sample_env empty_output_args).2 = Normal tt)
    by (vm_compute; reflexivity).
  specialize (H sample_env empty_output_args (mk_is_Some _ _ eq_refl)
                (mk_is_Some _ _ eq_refl) Hrun).
  vm_compute in H. repeat (apply Exists_cons in H as [H|H]; [discriminate H|]).
  by apply Exists_nil in H.
Qed.

(** ** The evaluator block: ground truth or base model *)

Lemma bind_run_appends {A B} P (m : M A) (f : A → M B) env t t' r :
  (∀ a, appends P (f a)) → bind m f env t = (t', r) →
  ∃ t1 r1 tail,
    m env t = (t1, r1) ∧ t' = t1 ++ tail ∧ Forall (λ e, P e = true) tail.
Proof.
  intros Hf. unfold bind. destruct (m env t) as [t1 [a|e]] eqn:Hm.
  - intros Hrun. destruct (appends_run _ _ _ _ _ _ (Hf a) Hrun) as (tail & -> & F).
    by exists t1, (Normal a), tail.
  - intros [= <- <-]. exists t1, (Raise e), []. by rewrite app_nil_r.
Qed.

Lemma appends_weaken {A} (P Q : event → bool) (m : M A) :
  (∀ e, P e = true → Q e = true) → appends P m → appends Q m.
Proof.
  intros H Hm env t. destruct (Hm env t) as (evs & Ht & F).
  exists evs. split; [done|]. eapply Forall_impl; [exact F|exact H].
Qed.

Lemma evaluator_block_gt args prompts tok env t path :
  gt_data args = Some path → exists_after env t path = true →
  evaluator_block args prompts tok env t
  = (t ++ [EvPathExists path true;
           EvEvaluator None (Some path) prompts tok (text_encoder args)
             (num_samples args) (language args)],
     env_Evaluator env (t ++ [EvPathExists path true]) None (Some path) prompts tok
       (text_encoder args) (num_samples args) (language args)).
Proof.
  intros Hgt Hex. unfold evaluator_block. rewrite Hgt.
  assert (Htr : PyStr.truthy_str path = true).
  { unfold exists_after in Hex. by apply andb_true_iff in Hex as [? _]. }
  rewrite Htr. unfold bind, os_path_exists, Evaluator, call. rewrite Hex.
  by rewrite <- app_assoc.
Qed.

Lemma evaluator_block_base args prompts tok env t t' evaluator :
  match gt_data args with
  | Some path => exists_after env t path
  | None => false
  end = false →
  evaluator_block args prompts tok env t = (t', Normal evaluator) →
  ∃ loaded base,
    load_model (base_model args) (device args) (ov_config args) (hf args) false
      env (t ++ asked args) = (loaded, Normal base)
    ∧ env_Evaluator env loaded (Some base) None prompts tok (text_encoder args)
        (num_samples args) (language args) = Normal evaluator
    ∧ t' = loaded
           ++ [EvEvaluator (Some base) None prompts tok (text_encoder args)
                 (num_samples args) (language args)]
           ++ dumped args evaluator ++ [EvDel base].
Proof.
  intros Hno. unfold evaluator_block, asked, dumped.
  assert (Hstart :
    ∀ rest : bool → M EvaluatorObj,
      bind match gt_data args with
           | Some path =>
               if PyStr.truthy_str path then os_path_exists path else ret false
           | None => ret false
           end rest env t
      = rest false env
          (t ++ match gt_data args with
                | Some path =>
                    if PyStr.truthy_str path then [EvPathExists path false] else []
                | None => []
                end)).
  { intros rest. destruct (gt_data args) as [path|].
    - destruct (PyStr.truthy_str path) eqn:Htr.
      + unfold bind, os_path_exists. by rewrite Hno.
      + unfold bind, ret. by rewrite app_nil_r.
    - unfold bind, ret. by rewrite app_nil_r. }
  rewrite Hstart. clear Hstart. set (t1 := t ++ _).
  unfold bind at 1.
  destruct (load_model _ _ _ _ _ env t1) as [loaded [base|e]]; [|done].
  unfold Evaluator. rewrite bind_call.
  destruct (env_Evaluator env loaded (Some base) None prompts tok _ _ _)
    as [ev|e] eqn:Hev; [|done].
  intros Hrun. exists loaded, base. split; [done|].
  destruct (gt_data args) as [path|]; [destruct (PyStr.truthy_str path)|].
  - unfold bind, dump_gt, del, call, ret in Hrun.
    destruct (env_dump_gt env _ ev path) as [[]|]; [|done].
    injection Hrun as <- <-. split; [done|]. by rewrite <- !app_assoc.
  - unfold bind, del, ret in Hrun. injection Hrun as <- <-.
    split; [done|]. by rewrite <- !app_assoc.
  - unfold bind, del, ret in Hrun. injection Hrun as <- <-.
    split; [done|]. by rewrite <- !app_assoc.
Qed.

Lemma appends_loaders_no_load args :
  let P := λ e, negb (is_model_load e) && negb (is_dump e) in
  appends P (load_prompts args) ∧ appends P (load_tokenizer args).
Proof. split; solve_appends. Qed.

Lemma appends_load_model_no_dump model_id dev ov_cfg use_hf use_genai :
  appends (λ e, negb (is_dump e)) (load_model model_id dev ov_cfg use_hf use_genai).
Proof. solve_appends. Qed.

Lemma appends_target_block_no_dump args evaluator :
  appends (λ e, negb (is_dump e)) (target_block args evaluator).
Proof. solve_appends. Qed.

(** In a run of the target block the only loading of a model is that of
    [load_model] on [args.target_model], made first. *)
Lemma target_block_loads args evaluator env t t' r :
  target_block args evaluator env t = (t', r) →
  (∃ tail, t' = t ++ tail ∧ Forall (λ e, is_model_load e = false) tail)
  ∨ (∃ loaded r0 tail,
       load_model (target_model args) (device args) (ov_config args) (hf args) false
         env t = (loaded, r0)
       ∧ t' = loaded ++ tail ∧ Forall (λ e, is_model_load e = false) tail).
Proof.
  unfold target_block. destruct (target_model args) as [id|].
  2: { intros [= <- <-]. left. exists []. by rewrite app_nil_r. }
  destruct (PyStr.truthy_str id).
  2: { intros [= <- <-]. left. exists []. by rewrite app_nil_r. }
  intros Hrun. right.
  apply (bind_run_appends (λ e, negb (is_model_load e))) in Hrun
    as (loaded & r0 & tail & Hload & -> & F).
  - exists loaded, r0, tail. repeat (split; [done|]).
    eapply Forall_class; [|exact F]. by intros [].
  - intros target. solve_appends.
Qed.

(** C3 (amended): once the prompts and the tokenizer are loaded, no model
    has been loaded yet.  If [--gt-data] names a file that exists, every
    run goes on with the existence check and the construction of the
    Evaluator with [base_model=None] and that file, and any later loading
    of a model is the one [load_model] does for [args.target_model].
    Otherwise a run that returns loads the base model with [load_model],
    builds the Evaluator on it, calls [evaluator.dump_gt] on the
    [--gt-data] path when that path is not empty, and then deletes the
    base model; no other [dump_gt] call is made. *)
Theorem main_ground_truth (env : Env) (args : Args)
    (t0 : trace) (prompts : option Prompts) (t1 : trace) (tok : Tokenizer) :
  rejects args = false →
  load_prompts args env [] = (t0, Normal prompts) →
  load_tokenizer args env t0 = (t1, Normal tok) →
  Forall (λ e, is_model_load e = false) t1
  ∧ (∀ path,
       gt_data args = Some path → exists_after env t1 path = true →
       ∃ rest,
         (run_main env args).1
         = t1 ++ [EvPathExists path true;
                  EvEvaluator None (Some path) prompts tok (text_encoder args)
                    (num_samples args) (language args)] ++ rest
         ∧ (Forall (λ e, is_model_load e = false) rest
            ∨ ∃ loaded r rest',
                load_model (target_model args) (device args) (ov_config args)
                  (hf args) false env
                  (t1 ++ [EvPathExists path true;
                          EvEvaluator None (Some path) prompts tok (text_encoder args)
                            (num_samples args) (language args)])
                = (loaded, r)
                ∧ (run_main env args).1 = loaded ++ rest'
                ∧ Forall (λ e, is_model_load e = false) rest'))
  ∧ (match gt_data args with
     | Some path => exists_after env t1 path
     | None => false
     end = false →
     (run_main env args).2 = Normal tt →
     ∃ loaded base evaluator rest,
       load_model (base_model args) (device args) (ov_config args) (hf args) false
         env (t1 ++ asked args) = (loaded, Normal base)
       ∧ env_Evaluator env loaded (Some base) None prompts tok (text_encoder args)
           (num_samples args) (language args) = Normal evaluator
       ∧ (run_main env args).1
         = loaded
           ++ [EvEvaluator (Some base) None prompts tok (text_encoder args)
                 (num_samples args) (language args)]
           ++ dumped args evaluator ++ [EvDel base] ++ rest
       ∧ Forall (λ e, is_dump e = false) loaded
       ∧ Forall (λ e, is_dump e = false) rest).
Proof.
  intros Hrej H0 H1.
  assert (Hmain : run_main env args
                  = (evaluator <- evaluator_block args prompts tok ;;
                     target_block args evaluator ;;
                     verbose_block args evaluator) env t1).
  { unfold run_main. rewrite main_blocks.
    erewrite bind_normal; [|by rewrite check_args_run, Hrej].
    erewrite bind_normal; [|exact H0].
    erewrite bind_normal; [|exact H1]. done. }
  destruct (appends_loaders_no_load args) as (A0 & A1).
  pose proof (appends_run_Forall _ _ _ _ _ _ A0 H0 (Forall_nil_2 _)) as F0.
  pose proof (appends_run_Forall _ _ _ _ _ _ A1 H1 F0) as F1.
  split; [|split].
  - eapply Forall_class; [|exact F1]. by intros [].
  - intros path Hgt Hex.
    rewrite Hmain. clear Hmain.
    destruct (bind (evaluator_block args prompts tok) _ env t1) as [tf rf] eqn:Hrun.
    unfold bind at 1 in Hrun.
    rewrite (evaluator_block_gt _ _ _ _ _ _ Hgt Hex) in Hrun.
    destruct (env_Evaluator env _ None (Some path) prompts tok _ _ _) as [evaluator|e].
    2: { cbn beta iota in Hrun. injection Hrun as <- <-. exists []. rewrite app_nil_r. split; [done|]. by left. }
    cbn beta iota in Hrun.
    apply (bind_run_appends (λ e, negb (is_model_load e))) in Hrun
      as (t3 & r3 & tail & Htarget & -> & Ftail).
    2: { intros _. eapply appends_weaken; [|apply appends_verbose_block].
         by intros []. }
    apply Forall_class with (Q := is_model_load) in Ftail; [|by intros []].
    destruct (target_block_loads _ _ _ _ _ _ Htarget)
      as [(mid & -> & Fmid)|(loaded & r0 & mid & Hload & -> & Fmid)].
    + exists (mid ++ tail). simpl. split; [by rewrite <- !app_assoc|].
      left. by apply Forall_app.
    + destruct (appends_run _ _ _ _ _ _
                  (appends_load_model_no_write _ _ _ _ _) Hload) as (evs & Hl & _).
      exists (evs ++ mid ++ tail). simpl. split.
      { rewrite Hl. by rewrite <- !app_assoc. }
      right. exists loaded, r0, (mid ++ tail).
      split; [done|]. split; [by rewrite <- app_assoc|]. by apply Forall_app.
  - intros Hno Hn.
    destruct (main_normal env args Hn)
      as (t0' & prompts' & t1' & tok' & t2 & evaluator & t3 & _ & H0' & H1' & H2 & H3 & H4).
    rewrite H0 in H0'. injection H0' as <- <-.
    rewrite H1 in H1'. injection H1' as <- <-.
    clear Hmain. destruct (run_main env args) as [tf rf].
    destruct (evaluator_block_base _ _ _ _ _ _ _ Hno H2)
      as (loaded & base & Hload & Hev & ->).
    destruct (appends_run _ _ _ _ _ _ (appends_target_block_no_dump _ _) H3)
      as (e3 & -> & F3).
    destruct (appends_run _ _ _ _ _ _ (appends_verbose_block args evaluator) H4)
      as (e4 & -> & F4).
    exists loaded, base, evaluator, (e3 ++ e4).
    split; [done|]. split; [done|]. split; [by rewrite <- !app_assoc|]. split.
    + assert (Fa : Forall (λ e, negb (is_dump e) = true) (t1 ++ asked args)).
      { apply Forall_app. split.
        - eapply Forall_impl; [exact F1|]. by intros [].
        - unfold asked. destruct (gt_data args) as [p|]; [|done].
          destruct (PyStr.truthy_str p); by repeat constructor. }
      pose proof (appends_run_Forall _ _ _ _ _ _
                    (appends_load_model_no_dump _ _ _ _ _) Hload Fa) as Fl.
      eapply Forall_class; [|exact Fl]. by intros [].
    + apply Forall_app. split.
      * eapply Forall_class; [|exact F3]. by intros [].
      * eapply Forall_class; [|exact F4]. by intros [].
Qed.

Lemma main_ground_truth_witness :
  (rejects gt_args = false
   ∧ load_prompts gt_args present_env [] = ([], Normal None)
   ∧ load_tokenizer gt_args present_env []
     = ([EvAutoTokenizer (Some "base") true], Normal (tokenizer_obj 0))
   ∧ exists_after present_env [EvAutoTokenizer (Some "base") true] "gt.csv" = true
   ∧ ∃ rest,
       (run_main present_env gt_args).1
       = [EvAutoTokenizer (Some "base") true]
         ++ [EvPathExists "gt.csv" true;
             EvEvaluator None (Some "gt.csv") None (tokenizer_obj 0)
               (text_encoder gt_args) (num_samples gt_args) (language gt_args)]
         ++ rest)
  ∧ (rejects gt_args = false
     ∧ load_prompts gt_args sample_env [] = ([], Normal None)
     ∧ load_tokenizer gt_args sample_env []
       = ([EvAutoTokenizer (Some "base") true], Normal (tokenizer_obj 0))
     ∧ exists_after sample_env [EvAutoTokenizer (Some "base") true] "gt.csv" = false
     ∧ (run_main sample_env gt_args).2 = Normal tt
     ∧ ∃ loaded base evaluator rest,
         load_model (base_model gt_args) (device gt_args) (ov_config gt_args)
           (hf gt_args) false sample_env
           ([EvAutoTokenizer (Some "base") true] ++ asked gt_args)
         = (loaded, Normal base)
         ∧ (run_main sample_env gt_args).1
           = loaded
             ++ [EvEvaluator (Some base) None None (tokenizer_obj 0)
                   (text_encoder gt_args) (num_samples gt_args) (language gt_args)]
             ++ dumped gt_args evaluator ++ [EvDel base] ++ rest).
Proof.
  split.
  - do 4 (split; [reflexivity|]).
    destruct (main_ground_truth present_env gt_args [] None
                [EvAutoTokenizer (Some "base") true] (tokenizer_obj 0)
                eq_refl eq_refl eq_refl) as (_ & H & _).
    destruct (H "gt.csv" eq_refl eq_refl) as (rest & Hrun & _).
    by exists rest.
  - do 4 (split; [reflexivity|]). split; [vm_compute; reflexivity|].
    destruct (main_ground_truth sample_env gt_args [] None
                [EvAutoTokenizer (Some "base") true] (tokenizer_obj 0)
                eq_refl eq_refl eq_refl) as (_ & _ & H).
    destruct H as (loaded & base & evaluator & rest & Hload & _ & Hrun & _);
      [reflexivity|vm_compute; reflexivity|].
    by exists loaded, base, evaluator, rest.
Defined.

Example run_with_ground_truth_file :
  run_main present_env gt_args
  = ([EvAutoTokenizer (Some "base") true;
      EvPathExists "gt.csv" true;
      EvEvaluator None (Some "gt.csv") None (tokenizer_obj 0)
        "sentence-transformers/all-mpnet-base-v2" None None;
      EvOVModelForCausalLM (Some "target") None true None "CPU" None;
      EvScore (evaluator_obj 2) (model_obj 3);
      EvLog (LStr "Metrics for model: %s") [LStr "target"];
      EvLog (LTable (table_obj 5)) []],
     Normal tt).
Proof. vm_compute. reflexivity. Qed.

Example run_with_ground_truth_dump :
  run_main sample_env gt_args
  = ([EvAutoTokenizer (Some "base") true;
      EvPathExists "gt.csv" false;
      EvOVModelForCausalLM (Some "base") None true None "CPU" None;
      EvEvaluator (Some (model_obj 2)) None None (tokenizer_obj 0)
        "sentence-transformers/all-mpnet-base-v2" None None;
      EvDumpGt (evaluator_obj 3) "gt.csv";
      EvDel (model_obj 2);
      EvOVModelForCausalLM (Some "target") None true None "CPU" None;
      EvScore (evaluator_obj 3) (model_obj 6);
      EvLog (LStr "Metrics for model: %s") [LStr "target"];
      EvLog (LTable (table_obj 8)) []],
     Normal tt).
Proof. vm_compute. reflexivity. Qed.

(** [--gt-data] given with an empty value: no such file exists, the run
    returns, and [evaluator.dump_gt] is not called. *)
Lemma empty_gt_data_not_dumped :
  ¬ (∀ (env : Env) (args : Args) (path : string),
       gt_data args = Some path →
       (∀ t, exists_after env t path = false) →
       (run_main env args).2 = Normal tt →
       Exists (λ e, is_dump e = true) (run_main env args).1).
Proof.
  intros H.
  assert (Hrun : (run_main sample_env empty_gt_args).2 = Normal tt)
    by (vm_compute; reflexivity).
  specialize (H sample_env empty_gt_args "" eq_refl (λ _, eq_refl) Hrun).
  vm_compute in H. repeat (apply Exists_cons in H as [H|H]; [discriminate H|]).
  by apply Exists_nil in H.
Qed.

Lemma main_verbose_view_witness :
  verbose verbose_args = true
  ∧ (run_main sample_env verbose_args).2 = Normal tt
  ∧ ∃ prompts tok t1 t2 evaluator pre examples,
      evaluator_block verbose_args prompts tok sample_env t1 = (t2, Normal evaluator)
      ∧ t2 `prefix_of` pre
      ∧ env_worst_examples sample_env pre evaluator 5 "similarity" = Normal examples
      ∧ (run_main sample_env verbose_args).1
        = pre ++ EvWorstExamples evaluator 5 "similarity" :: view_events examples
      ∧ Forall (λ e, is_worst e = false ∧ is_view_header e = false) pre.
Proof.
  split; [reflexivity|]. split; [vm_compute; reflexivity|].
  apply (main_verbose_view sample_env verbose_args); [reflexivity|].
  vm_compute; reflexivity.
Defined.

Example view_of_sample :
  view_events sample_examples
  = [EvLog (LStr separator) [];
     EvLog (LStr reference_format)
       [LInt 1; LStr ("Paris is the capital." ++ nl ++ "It is in France." ++ nl)];
     EvLog (LStr actual_format)
       [LInt 1; LStr ("Paris is a capital." ++ nl ++ "It is in France." ++ nl)];
     EvLog (LStr diff_format) [LInt 1];
     EvLog (LStr ("Paris is "
                  ++ esc ++ "[38;5;16;48;5;2ma" ++ esc ++ "[0m"
                  ++ esc ++ "[38;5;16;48;5;1mthe" ++ esc ++ "[0m"
                  ++ " capital." ++ nl ++ "It is in France." ++ nl)) []].
Proof. vm_compute. reflexivity. Qed.
(** ** The queue of get_matching_blocks runs empty *)

Section matcher_bounds.
Import PyList Difflib.
Variable sm : SequenceMatcher.
Variables alo ahi blo bhi : Z.
Hypothesis Ha : alo ≤ ahi.
Hypothesis Hb : blo ≤ bhi.

Lemma scan_row_within (i : Z) (j2len : gmap Z Z) (js : list Z) :
  alo ≤ i < ahi → lengths_within blo (i - alo) j2len →
  ∀ (newj2len : gmap Z Z) (best : Match),
    lengths_within blo (i - alo + 1) newj2len →
    match_within alo (i + 1) blo bhi best →
    let st := scan_row blo bhi i j2len js (newj2len, best) in
    lengths_within blo (i - alo + 1) st.1 ∧ match_within alo (i + 1) blo bhi st.2.
Proof.
  intros Hi Hrow. induction js as [|j js IH]; intros new best Hnew Hbest.
  - done.
  - cbn [scan_row]. destruct (j <? blo) eqn:Hlo; [by apply IH|].
    destruct (bhi <=? j) eqn:Hhi; [done|].
    apply Z.ltb_ge in Hlo. apply Z.leb_gt in Hhi.
    destruct best as [[bi bj] bs].
    assert (Hk : 1 ≤ default 0 (j2len !! (j - 1)) + 1
                 ∧ default 0 (j2len !! (j - 1)) + 1 ≤ i - alo + 1
                 ∧ default 0 (j2len !! (j - 1)) + 1 ≤ j - blo + 1).
    { destruct (j2len !! (j - 1)) as [k0|] eqn:E; cbn [from_option id].
      - destruct (Hrow _ _ E) as (? & ? & ? & ?). lia.
      - lia. }
    set (k := default 0 (j2len !! (j - 1)) + 1) in *.
    apply IH.
    + intros j' k'. destruct (decide (j = j')) as [<-|Hne].
      * rewrite lookup_insert_eq. intros [= <-]. lia.
      * rewrite lookup_insert_ne by done. apply Hnew.
    + destruct (bs <? k); [|done]. unfold match_within. lia.
Qed.

Lemma scan_step_within (i : Z) (st : scan) :
  alo ≤ i < ahi →
  lengths_within blo (i - alo) st.1 → match_within alo i blo bhi st.2 →
  lengths_within blo (i + 1 - alo) (scan_step sm blo bhi st i).1
  ∧ match_within alo (i + 1) blo bhi (scan_step sm blo bhi st i).2.
Proof.
  intros Hi Hrow Hbest. destruct st as [j2len best]. unfold scan_step.
  replace (i + 1 - alo) with (i - alo + 1) by lia.
  apply scan_row_within; [done|done| |].
  - by intros j k; rewrite lookup_empty.
  - destruct best as [[bi bj] bs]. unfold match_within in *. cbn [snd] in Hbest. lia.
Qed.

Lemma scan_rows_within (count : nat) (i : Z) (st : scan) :
  alo ≤ i → i + Z.of_nat count ≤ ahi →
  lengths_within blo (i - alo) st.1 → match_within alo i blo bhi st.2 →
  match_within alo (i + Z.of_nat count) blo bhi
    (fold_left (scan_step sm blo bhi) (seqZ i (Z.of_nat count)) st).2.
Proof.
  revert i st. induction count as [|count IH]; intros i st Hi Hn Hrow Hbest.
  - rewrite seqZ_nil by lia. cbn [fold_left]. by rewrite Z.add_0_r.
  - rewrite seqZ_cons by lia. cbn [fold_left].
    replace (Z.pred (Z.of_nat (S count))) with (Z.of_nat count) by lia.
    replace (i + Z.of_nat (S count)) with (Z.succ i + Z.of_nat count) by lia.
    destruct (scan_step_within i st) as [Hrow' Hbest']; [lia|done|done|].
    apply IH; [lia|lia| |].
    + by replace (Z.succ i - alo) with (i + 1 - alo) by lia.
    + by replace (Z.succ i) with (i + 1) by lia.
Qed.

Lemma extend_left_within (junk : bool) (fuel : nat) (m : Match) :
  match_within alo ahi blo bhi m →
  match_within alo ahi blo bhi (extend_left sm alo blo junk fuel m).
Proof.
  revert m. induction fuel as [|fuel IH]; intros [[bi bj] bs] Hm; [done|].
  cbn [extend_left].
  destruct ((alo <? bi) && (blo <? bj) && junk_is sm junk (bj - 1)
            && same_item sm (bi - 1) (bj - 1)) eqn:E; [|done].
  apply andb_true_iff in E as [E _]. apply andb_true_iff in E as [E _].
  apply andb_true_iff in E as [E1 E2].
  apply Z.ltb_lt in E1, E2. apply IH. unfold match_within in *. lia.
Qed.

Lemma extend_right_within (junk : bool) (fuel : nat) (m : Match) :
  match_within alo ahi blo bhi m →
  match_within alo ahi blo bhi (extend_right sm ahi bhi junk fuel m).
Proof.
  revert m. induction fuel as [|fuel IH]; intros [[bi bj] bs] Hm; [done|].
  cbn [extend_right].
  destruct ((bi + bs <? ahi) && (bj + bs <? bhi) && junk_is sm junk (bj + bs)
            && same_item sm (bi + bs) (bj + bs)) eqn:E; [|done].
  apply andb_true_iff in E as [E _]. apply andb_true_iff in E as [E _].
  apply andb_true_iff in E as [E1 E2].
  apply Z.ltb_lt in E1, E2. apply IH. unfold match_within in *. lia.
Qed.

(** The fuel of the extension loops is never used up: after the loop one
    more iteration leaves the match as it is, its guard being false. *)
Lemma extend_left_exit (junk : bool) (fuel : nat) (m : Match) :
  m.1.1 - alo ≤ Z.of_nat fuel →
  extend_left sm alo blo junk 1 (extend_left sm alo blo junk fuel m)
  = extend_left sm alo blo junk fuel m.
Proof.
  revert m. induction fuel as [|fuel IH]; intros [[bi bj] bs] Hfuel;
    cbn [fst snd] in Hfuel.
  - cbn [extend_left]. rewrite (proj2 (Z.ltb_ge alo bi)) by lia. done.
  - cbn [extend_left].
    destruct ((alo <? bi) && (blo <? bj) && junk_is sm junk (bj - 1)
              && same_item sm (bi - 1) (bj - 1)) eqn:E.
    + apply (IH (bi - 1, bj - 1, bs + 1)). cbn [fst snd]. lia.
    + by rewrite E.
Qed.

Lemma extend_right_exit (junk : bool) (fuel : nat) (m : Match) :
  ahi - (m.1.1 + m.2) ≤ Z.of_nat fuel →
  extend_right sm ahi bhi junk 1 (extend_right sm ahi bhi junk fuel m)
  = extend_right sm ahi bhi junk fuel m.
Proof.
  revert m. induction fuel as [|fuel IH]; intros [[bi bj] bs] Hfuel;
    cbn [fst snd] in Hfuel.
  - cbn [extend_right]. rewrite (proj2 (Z.ltb_ge (bi + bs) ahi)) by lia. done.
  - cbn [extend_right].
    destruct ((bi + bs <? ahi) && (bj + bs <? bhi) && junk_is sm junk (bj + bs)
              && same_item sm (bi + bs) (bj + bs)) eqn:E.
    + apply (IH (bi, bj, bs + 1)). cbn [fst snd]. lia.
    + by rewrite E.
Qed.

(** The match found in a block lies inside the block. *)
Lemma find_longest_match_within :
  match_within alo ahi blo bhi (find_longest_match sm alo ahi blo bhi).
Proof.
  unfold find_longest_match. cbn zeta.
  apply extend_right_within, extend_left_within, extend_right_within,
    extend_left_within.
  unfold scan_rows.
  pose proof (scan_rows_within (Z.to_nat (ahi - alo)) alo (∅, (alo, blo, 0))) as H.
  rewrite Z2Nat.id in H by lia.
  replace (alo + (ahi - alo)) with ahi in H by lia.
  apply H; [lia|lia| |].
  - cbn [fst]. by intros j k; rewrite lookup_empty.
  - cbn [snd]. unfold match_within. lia.
Qed.
End matcher_bounds.

Section matcher_queue.
Import PyList Difflib.
Variable sm : SequenceMatcher.

Lemma matching_loop_fuel (fuel : nat) (queue : list block) (blocks : list Match) :
  Forall block_ok queue → queue_work queue ≤ Z.of_nat fuel →
  is_Some (matching_loop sm fuel queue blocks).
Proof.
  revert queue blocks. induction fuel as [|fuel IH]; intros queue blocks Hok Hwork.
  - destruct queue as [|[[[alo ahi] blo] bhi] queue]; [by eexists|].
    apply Forall_cons in Hok as [[Ha Hb] Hok].
    assert (0 ≤ queue_work queue).
    { clear -Hok. induction queue as [|[[[a1 a2] b1] b2] q IHq]; [done|].
      apply Forall_cons in Hok as [[? ?] Hok]. cbn [queue_work foldr].
      specialize (IHq Hok). unfold queue_work in IHq. lia. }
    cbn [queue_work foldr] in Hwork. unfold queue_work in *. lia.
  - destruct queue as [|[[[alo ahi] blo] bhi] queue]; [by eexists|].
    apply Forall_cons in Hok as [[Ha Hb] Hok].
    cbn [matching_loop].
    pose proof (find_longest_match_within sm alo ahi blo bhi Ha Hb) as Hm.
    destruct (find_longest_match sm alo ahi blo bhi) as [[i j] k].
    destruct Hm as (Hi & Hj & Hk & Hik & Hjk).
    cbn [queue_work foldr] in Hwork. fold (queue_work queue) in Hwork.
    assert (Hq : 0 ≤ queue_work queue).
    { clear -Hok. induction queue as [|[[[a1 a2] b1] b2] q IHq]; [done|].
      apply Forall_cons in Hok as [[? ?] Hok]. cbn [queue_work foldr].
      specialize (IHq Hok). unfold queue_work in IHq. lia. }
    destruct (k =? 0) eqn:Ek.
    + apply IH; [done|lia].
    + apply Z.eqb_neq in Ek. apply IH.
      * destruct ((alo <? i) && (blo <? j)) eqn:E1;
          destruct ((i + k <? ahi) && (j + k <? bhi)) eqn:E2;
          repeat (apply Forall_cons; split); try done;
          try (apply andb_true_iff in E1 as [?%Z.ltb_lt ?%Z.ltb_lt]);
          try (apply andb_true_iff in E2 as [?%Z.ltb_lt ?%Z.ltb_lt]);
          unfold block_ok; lia.
      * destruct ((alo <? i) && (blo <? j)) eqn:E1;
          destruct ((i + k <? ahi) && (j + k <? bhi)) eqn:E2;
          cbn [queue_work foldr]; fold (queue_work queue); lia.
Qed.

(** The fuel given to the queue of [get_matching_blocks] is never used
    up: the result is that of the loop run until the queue is empty. *)
Lemma get_matching_blocks_terminates :
  is_Some (matching_loop sm (queue_fuel sm)
             [(0, len (sm_a sm), 0, len (sm_b sm))] []).
Proof.
  apply matching_loop_fuel.
  - repeat constructor; unfold len; lia.
  - cbn [queue_work foldr]. unfold queue_fuel, len. lia.
Qed.
End matcher_queue.

(** ** The index of the second sequence *)

Section matcher_index.
Import PyList Difflib.

Lemma index_fold (l : list ascii) (i : Z) (m : gmap ascii (list Z)) (x : ascii) :
  fold_left chain_step (enumerate_from i l) m !! x
  = match positions_from i x l with
    | [] => m !! x
    | ps => Some (default [] (m !! x) ++ ps)
    end.
Proof.
  revert i m. induction l as [|y l IH]; intros i m; [done|].
  cbn [enumerate_from fold_left positions_from]. rewrite IH.
  unfold chain_step. cbn [fst snd].
  destruct (decide (y = x)) as [->|Hne].
  - rewrite lookup_insert_eq. simpl.
    destruct (positions_from (i + 1) x l); [done|].
    by rewrite <- app_assoc.
  - by rewrite lookup_insert_ne.
Qed.

Lemma index_b_lookup (l : list ascii) (x : ascii) :
  index_b l !! x
  = match positions_from 0 x l with
    | [] => None
    | ps => Some ps
    end.
Proof.
  unfold index_b, enumerate. rewrite index_fold, lookup_empty.
  by destruct (positions_from 0 x l).
Qed.

Lemma purge_lookup (popular : gset ascii) (m : gmap ascii (list Z)) (x : ascii) :
  purge popular m !! x = if decide (x ∈ popular) then None else m !! x.
Proof.
  unfold purge, set_fold. cbn [compose].
  assert (H : ∀ es : list ascii,
             foldr (λ elt m', delete elt m') m es !! x
             = if decide (x ∈ es) then None else m !! x).
  { induction es as [|e es IH]; [done|].
    cbn [foldr]. destruct (decide (e = x)) as [->|Hne].
    - rewrite lookup_delete_eq. rewrite decide_True; [done|]. by left.
    - rewrite lookup_delete_ne by done. rewrite IH.
      destruct (decide (x ∈ es)) as [Hin|Hout].
      + rewrite decide_True; [done|]. by right.
      + rewrite decide_False; [done|]. intros Hin. apply elem_of_cons in Hin.
        destruct Hin as [->|Hin]; done. }
  rewrite H. destruct (decide (x ∈ popular)) as [Hp|Hp].
  - rewrite decide_True; [done|]. by apply elem_of_elements.
  - rewrite decide_False; [done|]. by rewrite elem_of_elements.
Qed.

(** What the matcher keeps for an element: all its positions, unless it is
    popular. *)
Lemma b2j_lookup (a b : list ascii) (x : ascii) :
  default [] (b2j (new a b) !! x)
  = if decide (x ∈ bpopular (new a b)) then [] else positions_from 0 x b.
Proof.
  unfold new. cbn [b2j bpopular]. rewrite purge_lookup.
  destruct (decide (x ∈ _)); [done|].
  rewrite index_b_lookup. by destruct (positions_from 0 x b).
Qed.

Lemma positions_bounds (x : ascii) (l : list ascii) (i j : Z) :
  j ∈ positions_from i x l → i ≤ j < i + len l ∧ l !! Z.to_nat (j - i) = Some x.
Proof.
  revert i. induction l as [|y l IH]; intros i; cbn [positions_from].
  - by intros ?%elem_of_nil.
  - unfold len in *. cbn [length]. intros Hin.
    assert (Hrec : j ∈ positions_from (i + 1) x l →
                   i ≤ j < i + Z.of_nat (S (length l))
                   ∧ (y :: l) !! Z.to_nat (j - i) = Some x).
    { intros H. destruct (IH _ H) as [Hb Hl]. split; [lia|].
      replace (Z.to_nat (j - i)) with (S (Z.to_nat (j - (i + 1)))) by lia.
      exact Hl. }
    destruct (decide (y = x)) as [->|Hne]; [|by apply Hrec].
    apply elem_of_cons in Hin as [->|Hin]; [|by apply Hrec].
    split; [lia|]. by rewrite Z.sub_diag.
Qed.

Lemma positions_sorted (x : ascii) (l : list ascii) (i : Z) :
  StronglySorted Z.lt (positions_from i x l).
Proof.
  revert i. induction l as [|y l IH]; intros i; cbn [positions_from].
  - constructor.
  - destruct (decide (y = x)); [|apply IH].
    constructor; [apply IH|].
    apply Forall_forall. intros j Hj. apply positions_bounds in Hj. lia.
Qed.

Lemma positions_complete (x : ascii) (l : list ascii) (i : Z) (k : nat) :
  l !! k = Some x → (i + Z.of_nat k) ∈ positions_from i x l.
Proof.
  revert i k. induction l as [|y l IH]; intros i k; [done|].
  cbn [positions_from]. destruct k as [|k]; cbn [lookup list_lookup].
  - intros [= ->]. rewrite decide_True by done. rewrite Z.add_0_r. by left.
  - intros Hk. replace (i + Z.of_nat (S k)) with ((i + 1) + Z.of_nat k) by lia.
    destruct (decide (y = x)); [right|]; by apply IH.
Qed.
End matcher_index.

(** ** A sequence matched against itself *)

Section self_match.
Import PyList Difflib.
Variable l : list ascii.

Abbreviation kept := (λ x : ascii, bool_decide (x ∉ bpopular (new l l))).
Abbreviation R := (run_at kept l).

Lemma run_at_neg (j : Z) : j < 0 → R j = 0.
Proof. intros H. unfold run_at. by rewrite (proj2 (Z.ltb_lt _ _) H). Qed.

Lemma run_upto_nonneg (k : nat) : 0 ≤ run_upto kept l k ≤ Z.of_nat k + 1.
Proof.
  induction k as [|k IH]; cbn [run_upto].
  - destruct (l !! 0%nat); [|lia]. case_bool_decide; lia.
  - destruct (l !! S k); [|lia]. case_bool_decide; lia.
Qed.

Lemma run_at_bounds (j : Z) : 0 ≤ R j ∧ (0 ≤ j → R j ≤ j + 1).
Proof.
  unfold run_at. destruct (j <? 0) eqn:E; [apply Z.ltb_lt in E; lia|].
  apply Z.ltb_ge in E. pose proof (run_upto_nonneg (Z.to_nat j)). lia.
Qed.

Lemma run_at_kept (j : Z) (x : ascii) :
  0 ≤ j → l !! Z.to_nat j = Some x → kept x = true → R j = R (j - 1) + 1.
Proof.
  intros Hj Hl Hk. unfold run_at.
  rewrite (proj2 (Z.ltb_ge _ _) Hj).
  destruct (Z.to_nat j) as [|k] eqn:Ek.
  - assert (j = 0) as -> by lia. cbn [run_upto]. rewrite Hl, Hk. done.
  - cbn [run_upto]. rewrite Hl, Hk.
    rewrite (proj2 (Z.ltb_ge _ _)) by lia.
    by replace (Z.to_nat (j - 1)) with k by lia.
Qed.

Lemma run_at_dropped (j : Z) (x : ascii) :
  0 ≤ j → l !! Z.to_nat j = Some x → kept x = false → R j = 0.
Proof.
  intros Hj Hl Hk. unfold run_at. rewrite (proj2 (Z.ltb_ge _ _) Hj).
  destruct (Z.to_nat j); cbn [run_upto]; by rewrite Hl, Hk.
Qed.

Lemma previous_length (i j : Z) (j2len : gmap Z Z) :
  row_ok R i j2len →
  0 ≤ default 0 (j2len !! (j - 1)) ∧ default 0 (j2len !! (j - 1)) ≤ R (j - 1)
  ∧ default 0 (j2len !! (j - 1)) ≤ R (i - 1).
Proof.
  intros [Hrow _]. destruct (j2len !! (j - 1)) as [k|] eqn:E; cbn [from_option id].
  - destruct (Hrow _ _ E) as (? & ? & ?). lia.
  - pose proof (run_at_bounds (j - 1)). pose proof (run_at_bounds (i - 1)). lia.
Qed.

(** The inner loop on a row whose element is kept: the best match stays
    on the diagonal and catches the run that ends at [i]. *)
Lemma scan_row_self (i : Z) (x : ascii) (j2len : gmap Z Z) (js : list Z) :
  0 ≤ i < len l → l !! Z.to_nat i = Some x → kept x = true →
  row_ok R i j2len →
  StronglySorted Z.lt js →
  (∀ j, j ∈ js → 0 ≤ j < len l ∧ l !! Z.to_nat j = Some x) →
  ∀ (newj2len : gmap Z Z) (besti bestj bestsize : Z),
    besti = bestj → 0 ≤ besti → 0 ≤ bestsize → besti + bestsize ≤ i + 1 →
    (∀ i', 0 ≤ i' < i → R i' ≤ bestsize) →
    (∀ j k, newj2len !! j = Some k → 1 ≤ k ∧ k ≤ R j ∧ k ≤ R i) →
    i ∈ js ∨ (R i ≤ bestsize ∧ newj2len !! i = Some (R i)) →
    let st := scan_row 0 (len l) i j2len js (newj2len, (besti, bestj, bestsize)) in
    row_ok R (i + 1) st.1 ∧ best_ok R (i + 1) st.2.
Proof.
  intros Hi Hx Hk Hrow Hsorted Hjs.
  induction js as [|j js IH];
    intros new bi bj bs Hdiag Hbi Hbs Hsum Hbefore Hnew Hi_done.
  - cbn [scan_row]. cbn zeta. cbn [fst snd]. destruct Hi_done as [Hin|[Hrun Hd]].
    { by apply elem_of_nil in Hin. }
    split.
    + split.
      * intros j k Hjk. replace (i + 1 - 1) with i by lia. by apply Hnew.
      * replace (i + 1 - 1) with i by lia. done.
    + unfold best_ok. repeat (split; [done|]).
      intros i' Hi'. destruct (decide (i' = i)) as [->|]; [done|]. apply Hbefore. lia.
  - apply StronglySorted_inv in Hsorted as [Hsorted Hhead].
    destruct (Hjs j) as [Hj Hlj]; [by left|].
    cbn [scan_row].
    rewrite (proj2 (Z.ltb_ge _ _)) by lia.
    rewrite (proj2 (Z.leb_gt _ _)) by lia.
    destruct (previous_length i j j2len Hrow) as (Hp0 & HpRj & HpRi).
    set (k := default 0 (j2len !! (j - 1)) + 1) in *.
    pose proof (run_at_kept j x (proj1 Hj) Hlj Hk) as HRj.
    pose proof (run_at_kept i x (proj1 Hi) Hx Hk) as HRi.
    assert (Hnew' : ∀ j' k', <[j:=k]> new !! j' = Some k'
                             → 1 ≤ k' ∧ k' ≤ R j' ∧ k' ≤ R i).
    { intros j' k'. destruct (decide (j = j')) as [<-|Hne].
      - rewrite lookup_insert_eq. intros [= <-]. lia.
      - rewrite lookup_insert_ne by done. apply Hnew. }
    assert (Htail : ∀ j', j' ∈ js → 0 ≤ j' < len l ∧ l !! Z.to_nat j' = Some x).
    { intros j' Hj'. apply Hjs. by right. }
    destruct (Z.lt_trichotomy j i) as [Hlt|[->|Hgt]].
    + (* before the diagonal: the run that ends at [j] is already known *)
      assert (Hno : (bs <? k) = false).
      { apply Z.ltb_ge. specialize (Hbefore j). lia. }
      rewrite Hno. apply IH; try done.
      destruct Hi_done as [Hin|[Hrun Hd]].
      * left. apply elem_of_cons in Hin as [->|Hin]; [lia|done].
      * right. split; [done|]. rewrite lookup_insert_ne by lia. done.
    + (* on the diagonal *)
      assert (Hk_run : k = R i).
      { unfold k. rewrite HRi. f_equal.
        destruct Hrow as [Hrow Hd].
        destruct (decide (0 < R (i - 1))) as [Hpos|Hzero].
        - by rewrite (Hd Hpos).
        - pose proof (run_at_bounds (i - 1)).
          destruct (j2len !! (i - 1)) as [k0|] eqn:E; cbn [from_option id]; [|lia].
          destruct (Hrow _ _ E) as (? & ? & ?). lia. }
      pose proof (run_at_bounds i) as [_ HRle].
      destruct (bs <? k) eqn:Hup.
      * apply Z.ltb_lt in Hup. apply IH; try done; try lia.
        -- intros i' Hi'. specialize (Hbefore i' Hi'). lia.
        -- right. split; [lia|]. rewrite lookup_insert_eq. by rewrite Hk_run.
      * apply Z.ltb_ge in Hup. apply IH; try done.
        right. split; [lia|]. rewrite lookup_insert_eq. by rewrite Hk_run.
    + (* after the diagonal: the run that ends at [i] is already known *)
      assert (Hrun : R i ≤ bs ∧ new !! i = Some (R i)).
      { destruct Hi_done as [Hin|H]; [|done].
        apply elem_of_cons in Hin as [->|Hin]; [lia|].
        rewrite Forall_forall in Hhead. specialize (Hhead _ Hin). lia. }
      assert (Hno : (bs <? k) = false) by (apply Z.ltb_ge; lia).
      rewrite Hno. apply IH; try done.
      right. split; [by destruct Hrun|]. rewrite lookup_insert_ne by lia.
      by destruct Hrun.
Qed.

Lemma item_self (i : Z) :
  0 ≤ i < len l → ∃ x, item l i = Some x ∧ l !! Z.to_nat i = Some x.
Proof.
  intros Hi. unfold item. rewrite (proj2 (Z.ltb_ge _ _)) by lia.
  destruct (l !! Z.to_nat i) as [x|] eqn:E; [by exists x|].
  apply lookup_ge_None in E. unfold len in Hi. lia.
Qed.

Lemma scan_step_self (i : Z) (j2len : gmap Z Z) (best : Match) :
  0 ≤ i < len l → row_ok R i j2len → best_ok R i best →
  let st := scan_step (new l l) 0 (len l) (j2len, best) i in
  row_ok R (i + 1) st.1 ∧ best_ok R (i + 1) st.2.
Proof.
  intros Hi Hrow Hbest. unfold scan_step.
  change (sm_a (new l l)) with l.
  destruct (item_self i Hi) as (x & -> & Hx).
  rewrite b2j_lookup. destruct best as [[bi bj] bs].
  destruct Hbest as (Hd & Hbi & Hbs & Hsum & Hbefore).
  destruct (decide (x ∈ bpopular (new l l))) as [Hpop|Hkept].
  - cbn [scan_row]. cbn zeta. cbn [fst snd].
    assert (HR : R i = 0).
    { apply (run_at_dropped i x); [lia|done|]. by apply bool_decide_eq_false; intros ?. }
    split.
    + unfold row_ok. replace (i + 1 - 1) with i by lia.
      split; [by intros j k; rewrite lookup_empty|]. rewrite HR. lia.
    + unfold best_ok. repeat (split; [done || lia|]).
      intros i' Hi'. destruct (decide (i' = i)) as [->|]; [lia|]. apply Hbefore. lia.
  - apply (scan_row_self i x); try done; try lia.
    + by apply bool_decide_eq_true.
    + apply positions_sorted.
    + intros j Hj. apply positions_bounds in Hj as [Hb Hl].
      rewrite Z.sub_0_r in Hl. split; [lia|done].
    + left. replace i with (0 + Z.of_nat (Z.to_nat i)) at 1 by lia.
      by apply positions_complete.
Qed.

Lemma scan_rows_from (count : nat) (i : Z) (st : scan) :
  0 ≤ i → i + Z.of_nat count ≤ len l →
  row_ok R i st.1 → best_ok R i st.2 →
  let st' := fold_left (scan_step (new l l) 0 (len l)) (seqZ i (Z.of_nat count)) st in
  row_ok R (i + Z.of_nat count) st'.1 ∧ best_ok R (i + Z.of_nat count) st'.2.
Proof.
  revert i st. induction count as [|count IH]; intros i st Hi Hn Hrow Hbest.
  - rewrite seqZ_nil by lia. cbn [fold_left]. cbn zeta. by rewrite Z.add_0_r.
  - rewrite seqZ_cons by lia. cbn [fold_left].
    replace (Z.pred (Z.of_nat (S count))) with (Z.of_nat count) by lia.
    replace (i + Z.of_nat (S count)) with (Z.succ i + Z.of_nat count) by lia.
    destruct st as [j2len best].
    destruct (scan_step_self i j2len best) as [Hrow' Hbest']; [lia|done|done|].
    apply IH; [lia|lia| |].
    + by replace (Z.succ i) with (i + 1) by lia.
    + by replace (Z.succ i) with (i + 1) by lia.
Qed.

(** The search over the whole of a list against itself ends on the
    diagonal. *)
Lemma scan_rows_self :
  ∃ start size,
    (scan_rows (new l l) 0 (len l) 0 (len l)).2 = (start, start, size)
    ∧ 0 ≤ start ∧ 0 ≤ size ∧ start + size ≤ len l.
Proof.
  unfold scan_rows. rewrite Z.sub_0_r.
  destruct (scan_rows_from (length l) 0 (∅, (0, 0, 0))) as [_ Hbest].
  - lia.
  - unfold len. lia.
  - cbn [fst]. split; [by intros j k; rewrite lookup_empty|].
    pose proof (run_at_neg (0 - 1)). lia.
  - cbn [snd]. unfold best_ok. repeat (split; [done|]). intros i' Hi'. lia.
  - unfold len in *. cbn zeta in Hbest.
    destruct (fold_left _ _ _) as [j2len [[bi bj] bs]]. cbn [snd] in *.
    destruct Hbest as (-> & Hbi & Hbs & Hsum & _).
    exists bj, bs. repeat split; done || lia.
Qed.

Lemma same_item_self (i : Z) : 0 ≤ i < len l → same_item (new l l) i i = true.
Proof.
  intros Hi. unfold same_item. change (sm_a (new l l)) with l.
  change (sm_b (new l l)) with l.
  destruct (item_self i Hi) as (x & -> & _). by apply bool_decide_eq_true.
Qed.

Lemma junk_is_self (i : Z) : 0 ≤ i < len l → junk_is (new l l) false i = true.
Proof.
  intros Hi. unfold junk_is, isbjunk. change (sm_b (new l l)) with l.
  change (bjunk (new l l)) with (∅ : gset ascii).
  destruct (item_self i Hi) as (x & -> & _).
  rewrite bool_decide_eq_false_2; [done|]. apply not_elem_of_empty.
Qed.

Lemma extend_left_self (fuel : nat) (start size : Z) :
  start = Z.of_nat fuel → 0 ≤ size → start + size ≤ len l →
  extend_left (new l l) 0 0 false fuel (start, start, size) = (0, 0, start + size).
Proof.
  revert start size. induction fuel as [|fuel IH]; intros start size Hs Hz Hn.
  - cbn [extend_left]. subst start. by rewrite Z.add_0_l.
  - cbn [extend_left].
    rewrite (proj2 (Z.ltb_lt 0 start)) by lia.
    rewrite junk_is_self, same_item_self by lia. cbn [andb].
    rewrite IH by lia. f_equal. lia.
Qed.

Lemma extend_right_self (fuel : nat) (size : Z) :
  0 ≤ size → size + Z.of_nat fuel = len l →
  extend_right (new l l) (len l) (len l) false fuel (0, 0, size) = (0, 0, len l).
Proof.
  revert size. induction fuel as [|fuel IH]; intros size Hs Hn.
  - cbn [extend_right]. f_equal. lia.
  - cbn [extend_right]. rewrite !Z.add_0_l.
    rewrite (proj2 (Z.ltb_lt size (len l))) by lia.
    rewrite junk_is_self, same_item_self by lia. cbn [andb].
    apply IH; lia.
Qed.

(** The longest match of a list with itself is the whole list. *)
Lemma find_longest_match_self :
  find_longest_match (new l l) 0 (len l) 0 (len l) = (0, 0, len l).
Proof.
  destruct scan_rows_self as (start & size & Hscan & Hs & Hz & Hn).
  assert (H1 : extend_left (new l l) 0 0 false (left_fuel 0 (start, start, size))
                 (start, start, size) = (0, 0, start + size)).
  { unfold left_fuel. cbn [fst snd]. apply extend_left_self; lia. }
  assert (H2 : extend_right (new l l) (len l) (len l) false
                 (right_fuel (len l) (0, 0, start + size)) (0, 0, start + size)
               = (0, 0, len l)).
  { unfold right_fuel. cbn [fst snd]. apply extend_right_self; lia. }
  assert (H3 : extend_left (new l l) 0 0 true (left_fuel 0 (0, 0, len l))
                 (0, 0, len l) = (0, 0, len l)) by done.
  assert (H4 : extend_right (new l l) (len l) (len l) true
                 (right_fuel (len l) (0, 0, len l)) (0, 0, len l) = (0, 0, len l)).
  { unfold right_fuel. cbn [fst snd]. by rewrite Z.add_0_l, Z.sub_diag. }
  unfold find_longest_match. cbn zeta. by rewrite Hscan, H1, H2, H3, H4.
Qed.

Lemma matching_loop_self (fuel : nat) :
  matching_loop (new l l) (S fuel) [(0, len l, 0, len l)] []
  = Some (if len l =? 0 then [] else [(0, 0, len l)]).
Proof.
  cbn [matching_loop]. rewrite find_longest_match_self.
  destruct (len l =? 0) eqn:E.
  - by destruct fuel.
  - rewrite !Z.add_0_l, !Z.ltb_irrefl. cbn [andb]. by destruct fuel.
Qed.

Lemma get_matching_blocks_self :
  get_matching_blocks (new l l)
  = (if len l =? 0 then [] else [(0, 0, len l)]) ++ [(len l, len l, 0)].
Proof.
  unfold get_matching_blocks, queue_fuel.
  change (sm_a (new l l)) with l. change (sm_b (new l l)) with l.
  replace (2 * length l + 1)%nat with (S (2 * length l)) by lia.
  rewrite matching_loop_self. cbn [from_option id].
  destruct (len l =? 0) eqn:E; [done|].
  change (merge_sort match_le [(0, 0, len l)]) with [(0, 0, len l)].
  cbn [fold_left collapse_step]. rewrite !Z.add_0_l.
  change (0 =? 0) with true. cbn [andb]. by rewrite E.
Qed.

Lemma get_opcodes_self :
  Difflib.get_opcodes (new l l)
  = if len l =? 0 then [] else [(Equal, 0, len l, 0, len l)].
Proof.
  unfold Difflib.get_opcodes. rewrite get_matching_blocks_self.
  destruct (len l =? 0) eqn:E.
  - apply Z.eqb_eq in E. rewrite E. done.
  - cbn [app fold_left opcode_step].
    do 3 (rewrite ?Z.add_0_l, ?Z.add_0_r, ?Z.ltb_irrefl, ?E;
          cbn [andb app snd Z.eqb]).
    done.
Qed.
End self_match.

(** ** diff_strings *)

Lemma diff_loop (a b : string) (flag : bool) (ops : list Difflib.opcode) (output : list string) :
  join (fold_left (diff_step a b flag) ops output)
  = (join output ++ join (map (piece a b flag) ops))%string.
Proof.
  revert output. induction ops as [|op ops IH]; intros output.
  - cbn [fold_left map]. change (join []) with EmptyString.
    by rewrite append_empty_r.
  - cbn [fold_left map]. rewrite IH.
    change (join (piece a b flag op :: map (piece a b flag) ops))
      with (piece a b flag op ++ join (map (piece a b flag) ops))%string.
    rewrite <- append_assoc. f_equal.
    unfold diff_step, piece. destruct (markers flag) as [[[green endgreen] red] endred].
    destruct op as [[[[[] a0] a1] b0] b1]; rewrite !join_app;
      change (join [?x]) with (x ++ "")%string; by rewrite ?append_empty_r, ?append_assoc.
Qed.

Lemma length_list_ascii (s : string) :
  length (list_ascii_of_string s) = String.length s.
Proof. induction s as [|c s IH]; [done|]. cbn. by rewrite IH. Qed.

Lemma slice_all (s : string) : PyStr.slice s 0 (PyStr.len s) = s.
Proof.
  unfold PyStr.slice, PyStr.clamp, PyStr.len.
  rewrite (proj2 (Z.ltb_ge 0 0)) by lia.
  rewrite (proj2 (Z.ltb_ge _ 0)) by lia.
  rewrite !Z.min_l by lia. rewrite Z.sub_0_r.
  change (Z.to_nat 0) with 0%nat. rewrite drop_0, Nat2Z.id.
  rewrite take_ge by (by rewrite length_list_ascii).
  apply string_of_list_ascii_of_string.
Qed.

(** C2: [diff_strings(a, b)] is the concatenation, in the order of the
    opcodes of [SequenceMatcher(None, a, b)], of the slice of [a] for
    'equal', the slice of [b] in the green markers for 'insert', the slice
    of [a] in the red markers for 'delete', and the green slice of [b]
    followed by the red slice of [a] for 'replace'; and
    [diff_strings(a, a)] is [a]. *)
Theorem diff_strings_opcodes (a b : string) (use_loguru_colors : bool) :
  diff_strings a b use_loguru_colors
  = join (map (piece a b use_loguru_colors) (get_opcodes a b))
  ∧ diff_strings a a use_loguru_colors = a.
Proof.
  split.
  - unfold diff_strings. by rewrite diff_loop.
  - unfold diff_strings. rewrite diff_loop. change (join []) with EmptyString.
    unfold get_opcodes. rewrite get_opcodes_self.
    change (EmptyString ++ ?s)%string with s.
    assert (Hlen : PyList.len (list_ascii_of_string a) = PyStr.len a).
    { unfold PyList.len, PyStr.len. by rewrite length_list_ascii. }
    rewrite Hlen. destruct (PyStr.len a =? 0) eqn:E.
    + apply Z.eqb_eq in E. unfold PyStr.len in E. by destruct a.
    + cbn [map]. unfold piece.
      destruct (markers use_loguru_colors) as [[[green endgreen] red] endred].
      change (join [?x]) with (x ++ "")%string.
      by rewrite append_empty_r, slice_all.
Qed.

Example diff_strings_kitten :
  diff_strings "kitten" "sitting" true
  = "<GREEN><black>s</black></GREEN><RED><black>k</black></RED>itt<GREEN><black>i</black></GREEN><RED><black>e</black></RED>n<GREEN><black>g</black></GREEN>".
Proof. vm_compute. reflexivity. Qed.

Example opcodes_sample :
  get_opcodes "the quick brown fox" "a quick brown dog jumps"
  = [(Difflib.Replace, 0, 3, 0, 1); (Difflib.Equal, 3, 16, 1, 14);
     (Difflib.Replace, 16, 17, 14, 15); (Difflib.Equal, 17, 18, 15, 16);
     (Difflib.Replace, 18, 19, 16, 23)].
Proof. vm_compute. reflexivity. Qed.

Example opcodes_delete_sample :
  get_opcodes "abxcd" "abcd"
  = [(Difflib.Equal, 0, 2, 0, 2); (Difflib.Delete, 2, 3, 2, 2);
     (Difflib.Equal, 3, 5, 2, 4)].
Proof. vm_compute. reflexivity. Qed.

(** With 200 elements or more the popular ones leave the index: here
    every [a] and [b] does, and what follows the first hundred characters
    is no longer matched. *)
Example opcodes_popular_sample :
  get_opcodes (times "ab" 110) (times "ab" 50 ++ "c" ++ times "ab" 60)
  = [(Difflib.Equal, 0, 100, 0, 100); (Difflib.Replace, 100, 220, 100, 221)].
Proof. vm_compute. reflexivity. Qed.

Example opcodes_long_sample :
  get_opcodes (times "x" 100 ++ "hello world" ++ times "y" 120)
    (times "x" 90 ++ "hello brave world" ++ times "y" 130)
  = [(Difflib.Delete, 0, 10, 0, 0); (Difflib.Equal, 10, 106, 0, 96);
     (Difflib.Insert, 106, 106, 96, 102); (Difflib.Equal, 106, 231, 102, 227);
     (Difflib.Insert, 231, 231, 227, 237)].
Proof. vm_compute. reflexivity. Qed.

(** ** Whole runs of main *)

(** A run of [main] either stops in [check_args] or a loader, having made
    loader calls only, or goes on after the loaders. *)
Lemma main_cases env args :
  (∃ e, (run_main env args).2 = Raise e
        ∧ Forall (λ ev, is_loader ev = true) (run_main env args).1)
  ∨ (∃ t0 prompts t1 tok,
       rejects args = false
       ∧ load_prompts args env [] = (t0, Normal prompts)
       ∧ load_tokenizer args env t0 = (t1, Normal tok)
       ∧ Forall (λ ev, is_loader ev = true) t1
       ∧ run_main env args = after_loaders args prompts tok env t1).
Proof.
  assert (A0 : appends is_loader (load_prompts args)) by solve_appends.
  assert (A1 : appends is_loader (load_tokenizer args)) by solve_appends.
  destruct (run_main env args) as [tf rf] eqn:Hrun.
  unfold run_main in Hrun. rewrite main_blocks in Hrun.
  unfold bind at 1 in Hrun. rewrite check_args_run in Hrun.
  destruct (rejects args).
  { injection Hrun as <- <-. left. by exists AssertionError. }
  unfold bind at 1 in Hrun.
  destruct (load_prompts args env []) as [t0 [prompts|e]] eqn:H0.
  2: { injection Hrun as <- <-. left. exists e. split; [done|].
       by apply (appends_run_Forall _ _ _ _ _ _ A0 H0). }
  pose proof (appends_run_Forall _ _ _ _ _ _ A0 H0 (Forall_nil_2 _)) as F0.
  unfold bind at 1 in Hrun.
  destruct (load_tokenizer args env t0) as [t1 [tok|e]] eqn:H1.
  2: { injection Hrun as <- <-. left. exists e. split; [done|].
       by apply (appends_run_Forall _ _ _ _ _ _ A1 H1). }
  pose proof (appends_run_Forall _ _ _ _ _ _ A1 H1 F0) as F1.
  right. by exists t0, prompts, t1, tok.
Qed.

(** A call made without trust is outside the class. *)
Example call_without_trust :
  ¬ appends trusts_remote_code (AutoTokenizer_from_pretrained (Some "model") false).
Proof.
  intros H. destruct (H sample_env []) as (evs & Ht & F).
  cbn in Ht. subst evs. by apply Forall_cons in F as [? _].
Qed.

(** X1: at each of its call sites -- the tokenizer of [load_tokenizer],
    the model, the retried model and the config of [load_model] -- a run of
    [main] passes [trust_remote_code=True] to [from_pretrained]. *)
Theorem main_trusts_remote_code (env : Env) (args : Args) :
  Forall (λ e, trusts_remote_code e = true) (run_main env args).1.
Proof.
  assert (H : appends trusts_remote_code (main args)).
  { unfold main. solve_appends. }
  destruct (H env []) as (evs & Hrun & Hevs). unfold run_main. by rewrite Hrun.
Qed.

(** X2: the backend is the same for the whole run: with [--hf] no run of
    [main] reads an OpenVINO config, calls [OVModelForCausalLM] or
    [AutoConfig]; without it no run calls [AutoModelForCausalLM]. *)
Theorem main_one_backend (env : Env) (args : Args) :
  Forall (λ e, if hf args then is_openvino e = false else is_transformers e = false)
    (run_main env args).1.
Proof.
  destruct (hf args) eqn:Hhf.
  - assert (H : appends (λ e, negb (is_openvino e)) (main args)).
    { unfold main. solve_appends. }
    destruct (H env []) as (evs & Hrun & Hevs). unfold run_main. rewrite Hrun.
    eapply Forall_class; [|exact Hevs]. by intros [].
  - assert (H : appends (λ e, negb (is_transformers e)) (main args)).
    { unfold main. solve_appends. }
    destruct (H env []) as (evs & Hrun & Hevs). unfold run_main. rewrite Hrun.
    eapply Forall_class; [|exact Hevs]. by intros [].
Qed.

(** X3: when [--base-model] is given, no run of [main] hands [None] as a
    model id to a library: the tokenizer, the base model and the target
    model are all loaded from actual ids. *)
Theorem main_passes_ids (env : Env) (args : Args) (base : string) :
  base_model args = Some base →
  Forall (λ e, passes_id e = true) (run_main env args).1.
Proof.
  intros Hbase.
  assert (H : appends passes_id (main args)).
  { unfold main.
    unfold_calls;
      repeat first
        [ appends_step
        | rewrite Hbase
        | match goal with E : target_model args = Some _ |- _ => rewrite E end ]. }
  destruct (H env []) as (evs & Hrun & Hevs). unfold run_main. by rewrite Hrun.
Qed.

Lemma main_passes_ids_witness :
  base_model two_models = Some "base"
  ∧ Forall (λ e, passes_id e = true) (run_main sample_env two_models).1.
Proof.
  split; [reflexivity|].
  apply (main_passes_ids sample_env two_models "base"). reflexivity.
Defined.

(** The branch of the evaluator block that loads the base model starts
    with the existence check, if any, and [load_model] on
    [args.base_model]. *)
Lemma evaluator_block_base_start args prompts tok env t :
  match gt_data args with
  | Some path => exists_after env t path
  | None => false
  end = false →
  evaluator_block args prompts tok env t
  = (base <- load_model (base_model args) (device args) (ov_config args)
               (hf args) false ;;
     evaluator <- Evaluator (Some base) None prompts tok (text_encoder args)
                    (num_samples args) (language args) ;;
     match gt_data args with
     | Some path => if PyStr.truthy_str path then dump_gt evaluator path else ret tt
     | None => ret tt
     end ;;
     del base ;;
     ret evaluator) env (t ++ asked args).
Proof.
  intros Hno. unfold evaluator_block, asked.
  destruct (gt_data args) as [path|].
  - destruct (PyStr.truthy_str path) eqn:Htr.
    + unfold bind at 1. unfold os_path_exists. by rewrite Hno.
    + unfold bind at 1. unfold ret at 1. by rewrite app_nil_r.
  - unfold bind at 1. unfold ret at 1. by rewrite app_nil_r.
Qed.

(** X4: [check_args] lets a configuration through that has a target
    model and a [--gt-data] path but no base model; when the loaders
    return and that file does not exist, [main] runs [load_model] on the
    missing id, [None], right after the existence check. *)
Theorem main_loads_missing_base (env : Env) (args : Args) (target : string)
    (t0 : trace) (prompts : option Prompts) (t1 : trace) (tok : Tokenizer)
    (path : string) :
  base_model args = None → target_model args = Some target →
  gt_data args = Some path →
  load_prompts args env [] = (t0, Normal prompts) →
  load_tokenizer args env t0 = (t1, Normal tok) →
  exists_after env t1 path = false →
  check_args args env [] = ([], Normal tt)
  ∧ ∃ loaded r rest,
      load_model None (device args) (ov_config args) (hf args) false env
        (t1 ++ asked args) = (loaded, r)
      ∧ (run_main env args).1 = loaded ++ rest.
Proof.
  intros Hbase Htarget Hgt H0 H1 Hno.
  assert (Hrej : rejects args = false).
  { unfold rejects. by rewrite Hbase, Htarget, Hgt. }
  split; [by rewrite check_args_run, Hrej|].
  unfold run_main. rewrite main_blocks.
  erewrite bind_normal; [|by rewrite check_args_run, Hrej].
  erewrite bind_normal; [|exact H0].
  erewrite bind_normal; [|exact H1].
  destruct (bind (evaluator_block args prompts tok) _ env t1) as [tf rf] eqn:Hrun.
  apply (bind_run_appends (λ _, true)) in Hrun
    as (t2 & r2 & tail & Hev & -> & _); [|intros ?; solve_appends].
  rewrite evaluator_block_base_start in Hev by (by rewrite Hgt).
  apply (bind_run_appends (λ _, true)) in Hev
    as (loaded & r & tail' & Hload & -> & _).
  - rewrite Hbase in Hload. exists loaded, r, (tail' ++ tail).
    split; [done|]. cbn [fst]. by rewrite app_assoc.
  - intros base. unfold_calls. repeat appends_step.
Qed.

(** ** Failures of library calls *)

Lemma app_eq_split {A} (l1 l2 pre post : list A) (x : A) :
  l1 ++ l2 = pre ++ x :: post →
  (∃ l, l1 = pre ++ x :: l ∧ post = l ++ l2)
  ∨ (∃ l, pre = l1 ++ l ∧ l2 = l ++ x :: post).
Proof.
  revert pre. induction l1 as [|y l1 IH]; intros pre H.
  - right. by exists pre.
  - destruct pre as [|z pre].
    + injection H as -> <-. left. by exists l1.
    + injection H as -> H. destruct (IH _ H) as [(l & -> & ->)|(l & -> & ->)].
      * left. by exists l.
      * right. by exists l.
Qed.

Section raises_from_calls.
Context {A B : Type}.

Lemma rc_ret (a : A) : raises_from_calls (ret a).
Proof. by intros env t t' e. Qed.

Lemma rc_call (ev : event) (answer : Env → trace → result A) :
  (∀ env t, failure env t ev = exn_of (answer env t)) →
  raises_from_calls (call ev answer).
Proof.
  intros H env t t' e [= <- Hr]. exists t, ev. split; [done|]. by rewrite H, Hr.
Qed.

Lemma rc_bind (m : M A) (f : A → M B) :
  raises_from_calls m → (∀ a, raises_from_calls (f a)) → raises_from_calls (bind m f).
Proof.
  intros Hm Hf env t t' e. unfold bind.
  destruct (m env t) as [t1 [a|e1]] eqn:Hrun.
  - apply Hf.
  - intros [= <- <-]. by eapply Hm.
Qed.

Lemma rc_try (body handler : M A) :
  raises_from_calls body → raises_from_calls handler →
  raises_from_calls (try_except_ValueError body handler).
Proof.
  intros Hb Hh env t t' e. unfold try_except_ValueError.
  destruct (body env t) as [t1 [a|e1]] eqn:Hrun; [done|].
  destruct (is_ValueError e1).
  - apply Hh.
  - intros [= <- <-]. by eapply Hb.
Qed.

End raises_from_calls.

Lemma rc_logger_info msg largs : raises_from_calls (logger_info msg largs).
Proof. by intros env t t' e. Qed.

Lemma rc_del m : raises_from_calls (del m).
Proof. by intros env t t' e. Qed.

Lemma rc_os_path_exists path : raises_from_calls (os_path_exists path).
Proof. by intros env t t' e. Qed.

Lemma rc_for_each {A} (l : list A) (body : A → M unit) :
  (∀ x, raises_from_calls (body x)) → raises_from_calls (for_each l body).
Proof.
  intros H. induction l as [|x l IH]; simpl.
  - apply rc_ret.
  - apply rc_bind; [apply H|done].
Qed.

Ltac rc_step :=
  first
    [ apply rc_ret
    | apply rc_bind; [|intros ?]
    | apply rc_try
    | apply rc_call; reflexivity
    | apply rc_logger_info
    | apply rc_del
    | apply rc_os_path_exists
    | apply rc_for_each; intros ?
    | match goal with
      | |- raises_from_calls (match ?x with _ => _ end) => destruct x
      | |- raises_from_calls (let '(_, _) := ?x in _) => destruct x
      end ].

Ltac solve_rc := unfold_calls; unfold log_example; repeat rc_step.

Lemma rc_after_tokenizer args prompts :
  raises_from_calls
    (tok <- load_tokenizer args ;;
     evaluator <- evaluator_block args prompts tok ;;
     target_block args evaluator ;;
     verbose_block args evaluator).
Proof. solve_rc. Qed.

Lemma load_prompts_call env t args :
  (dataset args = None ∧ load_prompts args env t = (t, Normal None))
  ∨ ∃ path name,
      load_prompts args env t
      = (t ++ [EvLoadDataset path name (default "validation" (split args))],
         prompts_of
           (env_load_dataset env t path name (default "validation" (split args)))
           (dataset_field args)).
Proof.
  destruct (dataset args) as [ds|] eqn:Hds.
  - right. destruct (PyStr.contains "," ds) eqn:Hc.
    + destruct (split_with_separator _ _ Hc) as (p & n & others & Hs).
      exists p, (Some n).
      rewrite (load_prompts_some env t args ds p n others Hds); rewrite Hc; done.
    + exists ds, None.
      rewrite (load_prompts_some env t args ds ds ds [] Hds); rewrite Hc; done.
  - left. split; [done|]. unfold load_prompts. by rewrite Hds.
Qed.

(** X5: an exception that ends a run of [main] is the [AssertionError]
    of [check_args], raised before any call; or the exception with which
    the loaded dataset answers the subscript [data[args.dataset_field]]
    when it has no such column, right after [load_dataset]; or the
    exception that the last call of the run raised. *)
Theorem main_raise_origin (env : Env) (args : Args) (e : exn) :
  (run_main env args).2 = Raise e →
  (e = AssertionError ∧ rejects args = true ∧ (run_main env args).1 = [])
  ∨ (∃ path name split_ data,
       (run_main env args).1 = [EvLoadDataset path name split_]
       ∧ env_load_dataset env [] path name split_ = Normal data
       ∧ columns data !! dataset_field args = None
       ∧ e = missing_column data (dataset_field args))
  ∨ (∃ pre ev, (run_main env args).1 = pre ++ [ev] ∧ failure env pre ev = Some e).
Proof.
  destruct (run_main env args) as [tf rf] eqn:Hrun. cbn [fst snd]. intros ->.
  unfold run_main in Hrun. rewrite main_blocks in Hrun.
  unfold bind at 1 in Hrun. rewrite check_args_run in Hrun.
  destruct (rejects args); [left; by injection Hrun as <- <-|].
  right. unfold bind at 1 in Hrun.
  destruct (load_prompts_call env [] args) as [[_ H0]|(path & name & H0)];
    rewrite H0 in Hrun.
  - right. by apply rc_after_tokenizer in Hrun.
  - unfold prompts_of in Hrun.
    destruct (env_load_dataset env [] path name _) as [data|e0] eqn:Hload.
    + destruct (columns data !! dataset_field args) eqn:Hfield.
      * right. by apply rc_after_tokenizer in Hrun.
      * injection Hrun as <- <-. left.
        exists path, name, (default "validation" (split args)), data. by cbn [app].
    + injection Hrun as <- <-. right. exists [], (EvLoadDataset path name
        (default "validation" (split args))).
      split; [done|]. simpl. by rewrite Hload.
Qed.

Lemma main_raise_origin_witness :
  (run_main sample_env missing_field_args).2 = Raise KeyError
  ∧ ((KeyError = AssertionError ∧ rejects missing_field_args = true
      ∧ (run_main sample_env missing_field_args).1 = [])
     ∨ (∃ path name split_ data,
          (run_main sample_env missing_field_args).1 = [EvLoadDataset path name split_]
          ∧ env_load_dataset sample_env [] path name split_ = Normal data
          ∧ columns data !! dataset_field missing_field_args = None
          ∧ KeyError = missing_column data (dataset_field missing_field_args))
     ∨ (∃ pre ev, (run_main sample_env missing_field_args).1 = pre ++ [ev]
                  ∧ failure sample_env pre ev = Some KeyError)).
Proof.
  split; [reflexivity|].
  apply (main_raise_origin sample_env missing_field_args KeyError). reflexivity.
Defined.

Section handles_retry_only.
Context {A B : Type}.

Lemma hr_ret (a : A) : handles_retry_only (ret a).
Proof.
  intros env t. exists []. split; [by rewrite app_nil_r|].
  intros pre ev post e H. by destruct pre.
Qed.

Lemma hr_raise (e : exn) : handles_retry_only (raise (A:=A) e).
Proof.
  intros env t. exists []. split; [by rewrite app_nil_r|].
  intros pre ev post e' H. by destruct pre.
Qed.

Lemma hr_call (ev : event) (answer : Env → trace → result A) :
  (∀ env t, failure env t ev = exn_of (answer env t)) →
  handles_retry_only (call ev answer).
Proof.
  intros H env t. exists [ev]. split; [done|].
  intros pre ev' post e Hsplit Hfail.
  destruct pre as [|? pre]; [|by destruct pre].
  injection Hsplit as <- <-. rewrite app_nil_r, H in Hfail. by left.
Qed.

Lemma hr_quiet (ev : event) (a : A) :
  (∀ env t, failure env t ev = None) →
  handles_retry_only (λ _ t, (t ++ [ev], Normal a)).
Proof.
  intros H env t. exists [ev]. split; [done|].
  intros pre ev' post e Hsplit Hfail.
  destruct pre as [|? pre]; [|by destruct pre].
  injection Hsplit as <- <-. by rewrite H in Hfail.
Qed.

Lemma hr_bind (m : M A) (f : A → M B) :
  handles_retry_only m → (∀ a, handles_retry_only (f a)) →
  handles_retry_only (bind m f).
Proof.
  intros Hm Hf env t. unfold bind.
  destruct (Hm env t) as (evs1 & Ht1 & F1).
  destruct (m env t) as [t1 [a|e1]]; cbn [fst snd] in *; subst t1.
  - destruct (Hf a env (t ++ evs1)) as (evs2 & Ht2 & F2).
    exists (evs1 ++ evs2). split; [by rewrite Ht2, app_assoc|].
    intros pre ev post e Hsplit Hfail.
    apply app_eq_split in Hsplit as [(l & -> & ->)|(l & -> & ->)].
    + destruct (F1 pre ev l e eq_refl Hfail) as [[_ ?]|(Hv & id & dev & ov & -> & Hhd)];
        [done|].
      right. split; [done|]. exists id, dev, ov. split; [done|].
      by destruct l.
    + rewrite app_assoc in Hfail. by apply (F2 l ev post e).
  - by exists evs1.
Qed.

End handles_retry_only.

Lemma hr_logger_info msg largs : handles_retry_only (logger_info msg largs).
Proof. by apply (hr_quiet (EvLog msg largs) tt). Qed.

Lemma hr_del m : handles_retry_only (del m).
Proof. by apply (hr_quiet (EvDel m) tt). Qed.

Lemma hr_os_path_exists path : handles_retry_only (os_path_exists path).
Proof.
  intros env t. exists [EvPathExists path (exists_after env t path)]. split; [done|].
  intros pre ev' post e Hsplit Hfail.
  destruct pre as [|? pre]; [|by destruct pre].
  by injection Hsplit as <- <-.
Qed.

Lemma hr_for_each {A} (l : list A) (body : A → M unit) :
  (∀ x, handles_retry_only (body x)) → handles_retry_only (for_each l body).
Proof.
  intros H. induction l as [|x l IH]; simpl.
  - apply hr_ret.
  - apply hr_bind; [apply H|done].
Qed.

(** The one handler of the program: the retry of [load_model]. *)
Lemma hr_retry model_id dev ov_options :
  handles_retry_only
    (try_except_ValueError
       (OVModelForCausalLM_from_pretrained model_id None true None dev ov_options)
       (config <- AutoConfig_from_pretrained model_id true ;;
        OVModelForCausalLM_from_pretrained model_id (Some config) true (Some true) dev
          ov_options)).
Proof.
  intros env t.
  unfold try_except_ValueError, OVModelForCausalLM_from_pretrained,
    AutoConfig_from_pretrained, call, bind.
  destruct (env_OVModelForCausalLM env t model_id None None dev ov_options)
    as [m|e1] eqn:H1; cbn [fst snd].
  { exists [EvOVModelForCausalLM model_id None true None dev ov_options].
    split; [done|]. intros pre ev post e Hsplit Hfail.
    destruct pre as [|? pre]; [|by destruct pre].
    injection Hsplit as <- <-. rewrite app_nil_r in Hfail. simpl in Hfail.
    by rewrite H1 in Hfail. }
  destruct (is_ValueError e1) eqn:Hv; cbn [fst snd].
  2: { exists [EvOVModelForCausalLM model_id None true None dev ov_options].
       split; [done|]. intros pre ev post e Hsplit Hfail.
       destruct pre as [|? pre]; [|by destruct pre].
       injection Hsplit as <- <-. rewrite app_nil_r in Hfail. simpl in Hfail.
       rewrite H1 in Hfail. by left. }
  destruct (env_AutoConfig env _ model_id) as [config|e2] eqn:H2; cbn [fst snd].
  - exists [EvOVModelForCausalLM model_id None true None dev ov_options;
            EvAutoConfig model_id true;
            EvOVModelForCausalLM model_id (Some config) true (Some true) dev
              ov_options].
    split; [by rewrite <- !app_assoc|]. intros pre ev post e Hsplit Hfail.
    destruct pre as [|? [|? [|? pre]]]; [..|by destruct pre];
      cbn [app] in Hsplit; simplify_eq; cbn [app] in Hfail.
    + right. split; [|by exists model_id, dev, ov_options].
      rewrite app_nil_r in Hfail. simpl in Hfail.
      rewrite H1 in Hfail. by injection Hfail as <-.
    + simpl in Hfail. by rewrite H2 in Hfail.
    + left. split; [done|]. rewrite <- Hfail. simpl. by rewrite <- app_assoc.
  - exists [EvOVModelForCausalLM model_id None true None dev ov_options;
            EvAutoConfig model_id true].
    split; [by rewrite <- !app_assoc|]. intros pre ev post e Hsplit Hfail.
    destruct pre as [|? [|? pre]]; [..|by destruct pre];
      cbn [app] in Hsplit; simplify_eq; cbn [app] in Hfail.
    + right. split; [|by exists model_id, dev, ov_options].
      rewrite app_nil_r in Hfail. simpl in Hfail.
      rewrite H1 in Hfail. by injection Hfail as <-.
    + left. split; [done|]. simpl in Hfail. by rewrite H2 in Hfail.
Qed.

Ltac hr_step :=
  first
    [ apply hr_ret
    | apply hr_raise
    | apply hr_retry
    | apply hr_bind; [|intros ?]
    | apply hr_call; reflexivity
    | apply hr_logger_info
    | apply hr_del
    | apply hr_os_path_exists
    | apply hr_for_each; intros ?
    | match goal with
      | |- handles_retry_only (match ?x with _ => _ end) => destruct x
      | |- handles_retry_only (let '(_, _) := ?x in _) => destruct x
      end ].

(** X6: [main] handles no failure but the [ValueError] of the first
    attempt of [load_model] on the OpenVINO backend: in every run, a call
    that raised is the last call of the run and its exception is the
    outcome of [main], unless it is that first attempt, raised a
    [ValueError] and is followed by the retry with [AutoConfig]. *)
Theorem main_failed_call_ends_run (env : Env) (args : Args)
    (pre : trace) (ev : event) (post : trace) (e : exn) :
  (run_main env args).1 = pre ++ ev :: post →
  failure env pre ev = Some e →
  (post = [] ∧ (run_main env args).2 = Raise e)
  ∨ (is_ValueError e = true
     ∧ ∃ model_id dev ov_options,
         ev = EvOVModelForCausalLM model_id None true None dev ov_options
         ∧ head post = Some (EvAutoConfig model_id true)).
Proof.
  assert (H : handles_retry_only (main args)).
  { unfold main. unfold_calls. unfold log_example. repeat hr_step. }
  destruct (H env []) as (evs & Ht & F). cbn [app] in Ht. unfold run_main.
  rewrite Ht. intros -> Hfail.
  destruct (F pre ev post e eq_refl Hfail) as [[-> Hr]|?]; [|by right].
  left. split; [done|]. destruct (main args env []).2 as [a|e']; [done|].
  by injection Hr as ->.
Qed.

(** ** The dump of the ground truth *)

Lemma split_at_unique (P : event → bool) (l1 l2 pre post : list event) (x y : event) :
  l1 ++ x :: l2 = pre ++ y :: post →
  Forall (λ e, P e = false) l1 → Forall (λ e, P e = false) l2 → P y = true →
  pre = l1 ∧ y = x ∧ post = l2.
Proof.
  intros H F1 F2 Hy.
  apply app_eq_split in H as [(l & -> & ->)|(l & -> & H)].
  - apply Forall_app in F1 as [_ F1]. apply Forall_cons in F1 as [F1 _]. congruence.
  - destruct l as [|z l].
    + injection H as -> ->. by rewrite app_nil_r.
    + injection H as -> ->.
      apply Forall_app in F2 as [_ F2]. apply Forall_cons in F2 as [F2 _]. congruence.
Qed.

Lemma appends_after_evaluator args evaluator :
  appends (λ e, negb (is_dump e)) (target_block args evaluator ;; verbose_block args evaluator).
Proof. solve_appends. Qed.

(** A run of [main] dumps nothing, or once: after the check that found no
    file at [args.gt_data], the loading of the base model and the making of
    the evaluator from it. *)
Lemma main_dumps env args :
  Forall (λ e, is_dump e = false) (run_main env args).1
  ∨ ∃ path t1 mid base prompts tok evaluator rest,
      gt_data args = Some path
      ∧ (run_main env args).1
        = (t1 ++ EvPathExists path false :: mid)
          ++ EvEvaluator (Some base) None prompts tok (text_encoder args)
               (num_samples args) (language args)
          :: EvDumpGt evaluator path :: rest
      ∧ Forall (λ e, negb (is_dump e) && negb (is_exists_check e) = true) (t1 ++ mid)
      ∧ Forall (λ e, is_dump e = false) rest.
Proof.
  destruct (main_cases env args)
    as [(e & _ & F)|(t0 & prompts & t1 & tok & _ & _ & _ & F1 & ->)].
  { left. eapply Forall_class; [|exact F]. by intros []. }
  assert (N1 : Forall (λ e, is_dump e = false) t1).
  { eapply Forall_class; [|exact F1]. by intros []. }
  assert (C1 : Forall (λ e, negb (is_dump e) && negb (is_exists_check e) = true) t1).
  { eapply Forall_impl; [exact F1|]. by intros []. }
  unfold after_loaders.
  destruct (bind (evaluator_block args prompts tok) _ env t1) as [tf rf] eqn:Hrun.
  cbn [fst]. unfold bind at 1 in Hrun.
  destruct (match gt_data args with
            | Some path => exists_after env t1 path
            | None => false
            end) eqn:Hex.
  - left. destruct (gt_data args) as [path|] eqn:Hgt; [|done].
    rewrite (evaluator_block_gt _ _ _ _ _ path Hgt Hex) in Hrun.
    destruct (env_Evaluator env _ None _ _ _ _ _ _) as [evaluator|e].
    + apply (appends_run _ _ _ _ _ _ (appends_after_evaluator args evaluator)) in Hrun
        as (tail & -> & F).
      rewrite !Forall_app. repeat split; [done|by repeat constructor|].
      eapply Forall_class; [|exact F]. by intros [].
    + injection Hrun as <- <-. rewrite Forall_app. split; [done|by repeat constructor].
  - rewrite evaluator_block_base_start in Hrun by done.
    assert (Fasked : Forall (λ e, is_dump e = false) (asked args)).
    { unfold asked. destruct (gt_data args) as [p|]; [|done].
      destruct (PyStr.truthy_str p); by repeat constructor. }
    unfold bind at 1 in Hrun.
    destruct (load_model _ _ _ _ _ env _) as [loaded [base|e]] eqn:Hload.
    2: { left. injection Hrun as <- <-.
         apply (appends_run (λ e, negb (is_dump e))) in Hload as (evs & -> & F);
           [|solve_appends].
         rewrite !Forall_app. repeat split; [done|done|].
         eapply Forall_class; [|exact F]. by intros []. }
    apply (appends_run (λ e, negb (is_dump e) && negb (is_exists_check e))) in Hload
      as (mid & -> & Fmid); [|solve_appends].
    assert (Nmid : Forall (λ e, is_dump e = false) mid).
    { eapply Forall_class; [|exact Fmid]. by intros []. }
    unfold bind at 1, Evaluator at 1, call at 1 in Hrun.
    destruct (env_Evaluator env _ (Some base) _ _ _ _ _ _) as [evaluator|e].
    2: { left. injection Hrun as <- <-.
         rewrite !Forall_app. repeat split; [done|done|done|by repeat constructor]. }
    unfold asked in *. destruct (gt_data args) as [path|] eqn:Hgt;
      [destruct (PyStr.truthy_str path) eqn:Htr|].
    + right. exists path, t1, mid, base, prompts, tok, evaluator.
      unfold bind at 1, dump_gt at 1, call at 1 in Hrun.
      destruct (env_dump_gt env _ evaluator path) as [[]|e].
      * unfold bind at 1, del at 1, bind at 1, ret at 1 in Hrun.
        apply (appends_run _ _ _ _ _ _ (appends_after_evaluator args evaluator))
          in Hrun as (tail & -> & F).
        exists (EvDel base :: tail).
        split; [done|]. split; [by rewrite <- !app_assoc|].
        split; [by rewrite Forall_app|]. constructor; [done|].
        eapply Forall_class; [|exact F]. by intros [].
      * injection Hrun as <- <-.
        exists []. split; [done|]. split; [by rewrite <- !app_assoc|].
        split; [by rewrite Forall_app|done].
    + left. unfold bind at 1, ret at 1, bind at 1, del at 1, bind at 1, ret at 1 in Hrun.
      apply (appends_run _ _ _ _ _ _ (appends_after_evaluator args evaluator))
        in Hrun as (tail & -> & F).
      rewrite !Forall_app.
      repeat split; [done|done|done|by repeat constructor|by repeat constructor|].
      eapply Forall_class; [|exact F]. by intros [].
    + left. unfold bind at 1, ret at 1, bind at 1, del at 1, bind at 1, ret at 1 in Hrun.
      apply (appends_run _ _ _ _ _ _ (appends_after_evaluator args evaluator))
        in Hrun as (tail & -> & F).
      rewrite !Forall_app.
      repeat split; [done|done|done|by repeat constructor|by repeat constructor|].
      eapply Forall_class; [|exact F]. by intros [].
Qed.

(** X7: [main] never writes a ground-truth file over one it saw: in every
    run, a call of [evaluator.dump_gt] is on the path [args.gt_data], is the
    only one, and comes right after the evaluator was made from a loaded
    base model, the one existence check before it being that of this path,
    answered with [False]. *)
Theorem main_dump_guarded (env : Env) (args : Args)
    (pre : trace) (evaluator : EvaluatorObj) (path : string) (post : trace) :
  (run_main env args).1 = pre ++ EvDumpGt evaluator path :: post →
  gt_data args = Some path
  ∧ (∃ t1 mid base prompts tok,
       pre = t1 ++ EvPathExists path false :: mid
             ++ [EvEvaluator (Some base) None prompts tok (text_encoder args)
                   (num_samples args) (language args)]
       ∧ Forall (λ e, is_exists_check e = false) (t1 ++ mid))
  ∧ Forall (λ e, is_dump e = false) (pre ++ post).
Proof.
  intros Hsplit.
  destruct (main_dumps env args)
    as [F|(p & t1 & mid & base & prompts & tok & ev & rest & Hgt & Hrun & F & Frest)].
  { rewrite Hsplit in F. apply Forall_app in F as [_ F].
    by apply Forall_cons in F as [? _]. }
  rewrite Hrun in Hsplit.
  change (?l ++ ?x :: EvDumpGt ev p :: rest)
    with (l ++ [x] ++ EvDumpGt ev p :: rest) in Hsplit.
  rewrite app_assoc in Hsplit.
  assert (Fpre : Forall (λ e, is_dump e = false)
                   ((t1 ++ EvPathExists p false :: mid)
                    ++ [EvEvaluator (Some base) None prompts tok (text_encoder args)
                          (num_samples args) (language args)])).
  { apply Forall_app in F as [Ft1 Fmid].
    rewrite !Forall_app. repeat split; [| |by repeat constructor].
    - eapply Forall_class; [|exact Ft1]. by intros [].
    - constructor; [done|]. eapply Forall_class; [|exact Fmid]. by intros []. }
  apply (split_at_unique is_dump) in Hsplit as (-> & [= -> ->] & ->); [|done..].
  split; [done|]. split.
  - exists t1, mid, base, prompts, tok. split; [by rewrite <- !app_assoc|].
    eapply Forall_class; [|exact F]. by intros [].
  - by rewrite Forall_app.
Qed.

(** ** The models held *)

Lemma held_app env t evs1 evs2 :
  held env t (evs1 ++ evs2) = held env t evs1 + held env (t ++ evs1) evs2.
Proof.
  revert t. induction evs1 as [|ev evs1 IH]; intros t; simpl.
  - by rewrite app_nil_r.
  - rewrite IH, <- app_assoc. simpl. lia.
Qed.

Section keeps.
Context {A B : Type}.

Lemma keeps_ret n (a : A) : 0 ≤ n ≤ 1 → keeps n n (ret a).
Proof.
  intros Hn env t. exists []. split; [by rewrite app_nil_r|]. split.
  - intros pre post H. symmetry in H. apply app_eq_nil in H as [-> _]. simpl. lia.
  - intros _. simpl. lia.
Qed.

Lemma keeps_one n n' (ev : event) (r : Env → trace → result A) :
  0 ≤ n ≤ 1 →
  (∀ env t, 0 ≤ n + held_by env t ev ≤ 1) →
  (∀ env t, exn_of (r env t) = None → n + held_by env t ev = n') →
  keeps n n' (λ env t, (t ++ [ev], r env t)).
Proof.
  intros Hn Hev Hr env t. exists [ev]. split; [done|]. split.
  - intros pre post H. destruct pre as [|x pre].
    + simpl. lia.
    + injection H as <- H. symmetry in H. apply app_eq_nil in H as [-> _].
      simpl. specialize (Hev env t). lia.
  - cbn [snd]. intros H. simpl. specialize (Hr env t H). lia.
Qed.

Lemma keeps_bind n n1 n2 (m : M A) (f : A → M B) :
  keeps n n1 m → (∀ a, keeps n1 n2 (f a)) → keeps n n2 (bind m f).
Proof.
  intros Hm Hf env t. unfold bind.
  destruct (Hm env t) as (evs1 & Ht1 & P1 & N1).
  destruct (m env t) as [t1 [a|e1]]; cbn [fst snd] in *; subst t1.
  - destruct (Hf a env (t ++ evs1)) as (evs2 & Ht2 & P2 & N2).
    exists (evs1 ++ evs2). split; [by rewrite Ht2, app_assoc|].
    specialize (N1 eq_refl). split.
    + intros pre post H. apply app_eq_app in H as [l [[-> ->]|[-> ->]]].
      * by apply (P1 pre l).
      * rewrite held_app. specialize (P2 l post eq_refl). lia.
    + intros H. rewrite held_app. specialize (N2 H). lia.
  - exists evs1. by split.
Qed.

End keeps.

Lemma keeps_neutral {A} n (ev : event) (answer : Env → trace → result A) :
  0 ≤ n ≤ 1 → is_model_load ev = false → (∀ m, ev ≠ EvDel m) →
  keeps n n (call ev answer).
Proof.
  intros Hn Hl Hd.
  assert (H : ∀ env t, held_by env t ev = 0).
  { intros env t. unfold held_by. rewrite Hl. destruct ev; try done. by destruct (Hd model). }
  apply keeps_one; [done|..]; intros env t; rewrite H; lia.
Qed.

Lemma keeps_logger_info n msg largs : 0 ≤ n ≤ 1 → keeps n n (logger_info msg largs).
Proof. intros Hn. apply (keeps_one n n (EvLog msg largs) (λ _ _, Normal tt)); simpl; lia. Qed.

Lemma keeps_del m : keeps 1 0 (del m).
Proof. apply (keeps_one 1 0 (EvDel m) (λ _ _, Normal tt)); simpl; lia. Qed.

Lemma keeps_os_path_exists n path : 0 ≤ n ≤ 1 → keeps n n (os_path_exists path).
Proof.
  intros Hn env t. exists [EvPathExists path (exists_after env t path)]. split; [done|].
  split.
  - intros pre post H. destruct pre as [|x pre].
    + simpl. lia.
    + injection H as <- H. symmetry in H. apply app_eq_nil in H as [-> _]. simpl. lia.
  - intros _. simpl. lia.
Qed.

Lemma keeps_for_each {A} n (l : list A) (body : A → M unit) :
  0 ≤ n ≤ 1 → (∀ x, keeps n n (body x)) → keeps n n (for_each l body).
Proof.
  intros Hn H. induction l as [|x l IH]; simpl.
  - by apply keeps_ret.
  - eapply keeps_bind; [apply H|done].
Qed.

Lemma keeps_load {A} (ev : event) (answer : Env → trace → result A) :
  is_model_load ev = true →
  (∀ env t, failure env t ev = exn_of (answer env t)) →
  keeps 0 1 (call ev answer).
Proof.
  intros Hl Hf.
  assert (H : ∀ env t, held_by env t ev
                       = match failure env t ev with None => 1 | Some _ => 0 end).
  { intros env t. unfold held_by. rewrite Hl. by destruct ev. }
  apply keeps_one; [lia|..]; intros env t; rewrite H.
  - destruct (failure env t ev); lia.
  - rewrite <- Hf. by intros ->.
Qed.

(** The loading on the OpenVINO backend, with its retry. *)
Lemma keeps_retry model_id dev ov_options :
  keeps 0 1
    (try_except_ValueError
       (OVModelForCausalLM_from_pretrained model_id None true None dev ov_options)
       (config <- AutoConfig_from_pretrained model_id true ;;
        OVModelForCausalLM_from_pretrained model_id (Some config) true (Some true) dev
          ov_options)).
Proof.
  assert (Hretry : keeps 0 1
            (config <- AutoConfig_from_pretrained model_id true ;;
             OVModelForCausalLM_from_pretrained model_id (Some config) true (Some true) dev
               ov_options)).
  { eapply keeps_bind; [by apply keeps_neutral|].
    intros config. by apply keeps_load. }
  intros env t.
  destruct (try_except_ValueError _ _ env t) as [tf rf] eqn:Hrun. cbn [fst snd].
  unfold try_except_ValueError in Hrun.
  unfold OVModelForCausalLM_from_pretrained at 1, call at 1 in Hrun.
  destruct (env_OVModelForCausalLM env t model_id None None dev ov_options)
    as [m|e1] eqn:H1.
  { injection Hrun as <- <-.
    exists [EvOVModelForCausalLM model_id None true None dev ov_options].
    split; [done|]. split.
    - intros pre post H. destruct pre as [|x pre].
      + simpl. lia.
      + injection H as <- H. symmetry in H. apply app_eq_nil in H as [-> _].
        simpl. rewrite H1. simpl. lia.
    - intros _. simpl. by rewrite H1. }
  assert (H0 : held env t [EvOVModelForCausalLM model_id None true None dev ov_options]
               = 0).
  { simpl. by rewrite H1. }
  destruct (is_ValueError e1).
  - destruct (Hretry env (t ++ [EvOVModelForCausalLM model_id None true None dev
                                   ov_options])) as (evs & Ht & P & N).
    rewrite Hrun in Ht, N. cbn [fst snd] in Ht, N.
    exists (EvOVModelForCausalLM model_id None true None dev ov_options :: evs).
    split; [by rewrite Ht, <- app_assoc|]. split.
    + intros pre post H. destruct pre as [|x pre]; [simpl; lia|].
      injection H as <- ->.
      change (?y :: pre) with ([y] ++ pre). rewrite held_app, H0.
      specialize (P pre post eq_refl). lia.
    + intros H.
      change (?x :: evs) with ([x] ++ evs). rewrite held_app, H0.
      specialize (N H). lia.
  - injection Hrun as <- <-.
    exists [EvOVModelForCausalLM model_id None true None dev ov_options].
    split; [done|]. split; [|done].
    intros pre post H. destruct pre as [|x pre].
    + simpl. lia.
    + injection H as <- H. symmetry in H. apply app_eq_nil in H as [-> _].
      rewrite H0. lia.
Qed.

Lemma keeps_raise {A} n n' (e : exn) : 0 ≤ n ≤ 1 → keeps n n' (raise (A:=A) e).
Proof.
  intros Hn env t. exists []. split; [by rewrite app_nil_r|]. split; [|done].
  intros pre post H. symmetry in H. apply app_eq_nil in H as [-> _]. simpl. lia.
Qed.

Ltac keeps_step :=
  first
    [ apply keeps_ret; lia
    | apply keeps_raise; lia
    | apply keeps_retry
    | apply keeps_del
    | apply keeps_load; reflexivity
    | apply keeps_neutral; [lia|reflexivity|by intros ?]
    | apply keeps_logger_info; lia
    | apply keeps_os_path_exists; lia
    | apply keeps_for_each; [lia|intros ?]
    | eapply keeps_bind; [|intros ?]
    | match goal with
      | |- keeps _ _ (match ?x with _ => _ end) => destruct x
      | |- keeps _ _ (let '(_, _) := ?x in _) => destruct x
      end ].

Lemma keeps_load_model model_id dev ov_cfg use_hf use_genai :
  keeps 0 1 (load_model model_id dev ov_cfg use_hf use_genai).
Proof.
  unfold load_model, AutoModelForCausalLM_from_pretrained, read_json.
  destruct use_hf.
  - eapply keeps_bind; [apply keeps_logger_info; lia|]. intros _.
    by apply keeps_load.
  - eapply (keeps_bind 0 0 1); [|intros ?; apply keeps_retry].
    repeat keeps_step.
Qed.

Lemma keeps_evaluator_block args prompts tok :
  keeps 0 0 (evaluator_block args prompts tok).
Proof.
  unfold evaluator_block.
  eapply (keeps_bind 0 0 0).
  { unfold_calls. repeat keeps_step. }
  intros [].
  - unfold_calls. repeat keeps_step.
  - eapply (keeps_bind 0 1 0); [apply keeps_load_model|]. intros base.
    unfold Evaluator, dump_gt. repeat keeps_step.
Qed.

Lemma keeps_output_block out pq all : keeps 1 1 (output_block out pq all).
Proof. unfold output_block. unfold_calls. repeat keeps_step. Qed.

Lemma keeps_target_block args evaluator :
  keeps 0 (if PyStr.truthy (target_model args) then 1 else 0)
    (target_block args evaluator).
Proof.
  unfold target_block. destruct (target_model args) as [id|]; simpl.
  2: { apply keeps_ret. lia. }
  destruct (PyStr.truthy_str id).
  2: { apply keeps_ret. lia. }
  eapply (keeps_bind 0 1 1); [apply keeps_load_model|]. intros target.
  eapply (keeps_bind 1 1 1); [unfold score; repeat keeps_step|]. intros metrics.
  eapply (keeps_bind 1 1 1); [repeat keeps_step|]. intros _.
  eapply (keeps_bind 1 1 1); [repeat keeps_step|]. intros _.
  destruct (output args) as [out|]; [|repeat keeps_step].
  destruct (PyStr.truthy_str out); [apply keeps_output_block|repeat keeps_step].
Qed.

Lemma keeps_verbose_block n args evaluator :
  0 ≤ n ≤ 1 → keeps n n (verbose_block args evaluator).
Proof.
  intros Hn. unfold verbose_block, worst_examples, log_example.
  destruct (verbose args); [|by apply keeps_ret].
  eapply (keeps_bind n n n); [by apply keeps_neutral|]. intros examples.
  apply keeps_for_each; [done|]. intros [i e].
  destruct (fold_left _ _ _) as [[ref_text actual_text] diff].
  repeat (eapply (keeps_bind n n n); [by apply keeps_logger_info|]; intros _).
  by apply keeps_logger_info.
Qed.

Lemma keeps_main args :
  keeps 0 (if PyStr.truthy (target_model args) then 1 else 0) (main args).
Proof.
  intros env t.
  assert (H : keeps 0 (if PyStr.truthy (target_model args) then 1 else 0)
                (check_args args ;;
                 prompts <- load_prompts args ;;
                 tok <- load_tokenizer args ;;
                 evaluator <- evaluator_block args prompts tok ;;
                 target_block args evaluator ;;
                 verbose_block args evaluator)).
  { eapply (keeps_bind 0 0); [unfold_calls; repeat keeps_step|]. intros _.
    eapply (keeps_bind 0 0); [unfold_calls; repeat keeps_step|]. intros prompts.
    eapply (keeps_bind 0 0); [unfold_calls; repeat keeps_step|]. intros tok.
    eapply (keeps_bind 0 0); [apply keeps_evaluator_block|]. intros evaluator.
    eapply keeps_bind; [apply keeps_target_block|]. intros _.
    apply keeps_verbose_block. destruct (PyStr.truthy (target_model args)); lia. }
  specialize (H env t). by rewrite <- main_blocks in H.
Qed.

(** X8: [main] never holds two models: at every point of every run, the
    loadings that returned a model are at most one more than the [del]s;
    the base model is deleted before the target model is loaded.  When
    [main] returns, it holds the target model, if one was asked for, and
    nothing otherwise. *)
Theorem main_holds_one_model (env : Env) (args : Args) (pre post : trace) :
  (run_main env args).1 = pre ++ post →
  0 ≤ held env [] pre ≤ 1
  ∧ ((run_main env args).2 = Normal tt →
     held env [] (run_main env args).1
     = if PyStr.truthy (target_model args) then 1 else 0).
Proof.
  destruct (keeps_main args env []) as (evs & Ht & P & N). cbn [app] in Ht.
  unfold run_main. rewrite Ht. intros ->. split.
  - specialize (P pre post eq_refl). lia.
  - intros Hr. rewrite Hr in N. specialize (N eq_refl). lia.
Qed.

(** ** Witnesses and the view without a target *)

Lemma main_loads_missing_base_witness :
  (base_model target_gt_args = None ∧ target_model target_gt_args = Some "target"
   ∧ gt_data target_gt_args = Some "gt.csv"
   ∧ load_prompts target_gt_args sample_env [] = ([], Normal None)
   ∧ load_tokenizer target_gt_args sample_env []
     = ([EvAutoTokenizer (Some "target") true], Normal (tokenizer_obj 0))
   ∧ exists_after sample_env [EvAutoTokenizer (Some "target") true] "gt.csv" = false)
  ∧ check_args target_gt_args sample_env [] = ([], Normal tt)
  ∧ ∃ loaded r rest,
      load_model None (device target_gt_args) (ov_config target_gt_args)
        (hf target_gt_args) false sample_env
        ([EvAutoTokenizer (Some "target") true] ++ asked target_gt_args) = (loaded, r)
      ∧ (run_main sample_env target_gt_args).1 = loaded ++ rest.
Proof.
  split; [by repeat split|].
  apply (main_loads_missing_base sample_env target_gt_args "target" [] None
           [EvAutoTokenizer (Some "target") true] (tokenizer_obj 0) "gt.csv");
    reflexivity.
Defined.

Lemma main_failed_call_ends_run_witness :
  ((run_main retry_env base_only).1
   = [EvAutoTokenizer (Some "base") true]
     ++ EvOVModelForCausalLM (Some "base") None true None "CPU" None
     :: [EvAutoConfig (Some "base") true;
         EvOVModelForCausalLM (Some "base") (Some (config_obj 2)) true (Some true)
           "CPU" None;
         EvEvaluator (Some (model_obj 3)) None None (tokenizer_obj 0)
           "sentence-transformers/all-mpnet-base-v2" None None;
         EvDel (model_obj 3)]
   ∧ failure retry_env [EvAutoTokenizer (Some "base") true]
       (EvOVModelForCausalLM (Some "base") None true None "CPU" None)
     = Some (ValueError None))
  ∧ (([EvAutoConfig (Some "base") true;
       EvOVModelForCausalLM (Some "base") (Some (config_obj 2)) true (Some true)
         "CPU" None;
       EvEvaluator (Some (model_obj 3)) None None (tokenizer_obj 0)
         "sentence-transformers/all-mpnet-base-v2" None None;
       EvDel (model_obj 3)] = []
      ∧ (run_main retry_env base_only).2 = Raise (ValueError None))
     ∨ (is_ValueError (ValueError None) = true
        ∧ ∃ model_id dev ov_options,
            EvOVModelForCausalLM (Some "base") None true None "CPU" None
            = EvOVModelForCausalLM model_id None true None dev ov_options
            ∧ head [EvAutoConfig (Some "base") true;
                    EvOVModelForCausalLM (Some "base") (Some (config_obj 2)) true
                      (Some true) "CPU" None;
                    EvEvaluator (Some (model_obj 3)) None None (tokenizer_obj 0)
                      "sentence-transformers/all-mpnet-base-v2" None None;
                    EvDel (model_obj 3)]
              = Some (EvAutoConfig model_id true))).
Proof.
  split; [by split|].
  apply (main_failed_call_ends_run retry_env base_only
           [EvAutoTokenizer (Some "base") true]); reflexivity.
Defined.

Lemma main_dump_guarded_witness :
  (run_main sample_env gt_args).1
  = [EvAutoTokenizer (Some "base") true; EvPathExists "gt.csv" false;
     EvOVModelForCausalLM (Some "base") None true None "CPU" None;
     EvEvaluator (Some (model_obj 2)) None None (tokenizer_obj 0)
       "sentence-transformers/all-mpnet-base-v2" None None]
    ++ EvDumpGt (evaluator_obj 3) "gt.csv"
    :: [EvDel (model_obj 2);
        EvOVModelForCausalLM (Some "target") None true None "CPU" None;
        EvScore (evaluator_obj 3) (model_obj 6);
        EvLog (LStr "Metrics for model: %s") [LStr "target"];
        EvLog (LTable (table_obj 8)) []]
  ∧ gt_data gt_args = Some "gt.csv"
  ∧ (∃ t1 mid base prompts tok,
       [EvAutoTokenizer (Some "base") true; EvPathExists "gt.csv" false;
        EvOVModelForCausalLM (Some "base") None true None "CPU" None;
        EvEvaluator (Some (model_obj 2)) None None (tokenizer_obj 0)
          "sentence-transformers/all-mpnet-base-v2" None None]
       = t1 ++ EvPathExists "gt.csv" false :: mid
         ++ [EvEvaluator (Some base) None prompts tok (text_encoder gt_args)
               (num_samples gt_args) (language gt_args)]
       ∧ Forall (λ e, is_exists_check e = false) (t1 ++ mid))
  ∧ Forall (λ e, is_dump e = false)
      ([EvAutoTokenizer (Some "base") true; EvPathExists "gt.csv" false;
        EvOVModelForCausalLM (Some "base") None true None "CPU" None;
        EvEvaluator (Some (model_obj 2)) None None (tokenizer_obj 0)
          "sentence-transformers/all-mpnet-base-v2" None None]
       ++ [EvDel (model_obj 2);
           EvOVModelForCausalLM (Some "target") None true None "CPU" None;
           EvScore (evaluator_obj 3) (model_obj 6);
           EvLog (LStr "Metrics for model: %s") [LStr "target"];
           EvLog (LTable (table_obj 8)) []]).
Proof.
  split; [reflexivity|].
  eapply (main_dump_guarded sample_env gt_args). reflexivity.
Defined.

Lemma main_holds_one_model_witness :
  (run_main sample_env two_models).1
  = [EvAutoTokenizer (Some "base") true;
     EvOVModelForCausalLM (Some "base") None true None "CPU" None;
     EvEvaluator (Some (model_obj 1)) None None (tokenizer_obj 0)
       "sentence-transformers/all-mpnet-base-v2" None None;
     EvDel (model_obj 1);
     EvOVModelForCausalLM (Some "target") None true None "CPU" None]
    ++ [EvScore (evaluator_obj 2) (model_obj 4);
        EvLog (LStr "Metrics for model: %s") [LStr "target"];
        EvLog (LTable (table_obj 6)) []]
  ∧ 0 ≤ held sample_env []
          [EvAutoTokenizer (Some "base") true;
           EvOVModelForCausalLM (Some "base") None true None "CPU" None;
           EvEvaluator (Some (model_obj 1)) None None (tokenizer_obj 0)
             "sentence-transformers/all-mpnet-base-v2" None None;
           EvDel (model_obj 1);
           EvOVModelForCausalLM (Some "target") None true None "CPU" None] ≤ 1
  ∧ ((run_main sample_env two_models).2 = Normal tt →
     held sample_env [] (run_main sample_env two_models).1
     = if PyStr.truthy (target_model two_models) then 1 else 0).
Proof.
  split; [reflexivity|].
  eapply (main_holds_one_model sample_env two_models). reflexivity.
Defined.

(** X9: with [--verbose] and no target model, [main] asks the evaluator
    for its worst examples as soon as it is built, although nothing was
    scored in the run. *)
Theorem main_view_without_score (env : Env) (args : Args)
    (t0 : trace) (prompts : option Prompts) (t1 : trace) (tok : Tokenizer)
    (t2 : trace) (evaluator : EvaluatorObj) :
  verbose args = true → PyStr.truthy (target_model args) = false →
  rejects args = false →
  load_prompts args env [] = (t0, Normal prompts) →
  load_tokenizer args env t0 = (t1, Normal tok) →
  evaluator_block args prompts tok env t1 = (t2, Normal evaluator) →
  (∃ shown, (run_main env args).1
            = t2 ++ EvWorstExamples evaluator 5 "similarity" :: shown)
  ∧ Forall (λ e, is_score e = false) (run_main env args).1.
Proof.
  intros Hv Ht Hrej H0 H1 H2. split.
  - unfold run_main. rewrite main_blocks.
    erewrite bind_normal; [|by rewrite check_args_run, Hrej].
    erewrite bind_normal; [|exact H0].
    erewrite bind_normal; [|exact H1].
    erewrite bind_normal; [|exact H2].
    erewrite bind_normal; [|by apply target_block_skipped].
    rewrite verbose_block_run, Hv.
    destruct (env_worst_examples env t2 evaluator 5 "similarity") as [examples|e].
    + by exists (view_events examples).
    + by exists [].
  - assert (H : appends (λ e, negb (is_score e)) (main args)).
    { unfold main. unfold target_block.
      destruct (target_model args) as [id|]; [simpl in Ht; rewrite Ht|]; solve_appends. }
    destruct (H env []) as (evs & Hrun & Hevs). unfold run_main. rewrite Hrun.
    eapply Forall_class; [|exact Hevs]. by intros [].
Qed.

Lemma main_view_without_score_witness :
  (verbose verbose_base_args = true
   ∧ PyStr.truthy (target_model verbose_base_args) = false
   ∧ rejects verbose_base_args = false
   ∧ load_prompts verbose_base_args sample_env [] = ([], Normal None)
   ∧ load_tokenizer verbose_base_args sample_env []
     = ([EvAutoTokenizer (Some "base") true], Normal (tokenizer_obj 0))
   ∧ evaluator_block verbose_base_args None (tokenizer_obj 0) sample_env
       [EvAutoTokenizer (Some "base") true]
     = ([EvAutoTokenizer (Some "base") true;
         EvOVModelForCausalLM (Some "base") None true None "CPU" None;
         EvEvaluator (Some (model_obj 1)) None None (tokenizer_obj 0)
           "sentence-transformers/all-mpnet-base-v2" None None;
         EvDel (model_obj 1)], Normal (evaluator_obj 2)))
  ∧ (∃ shown, (run_main sample_env verbose_base_args).1
              = [EvAutoTokenizer (Some "base") true;
                 EvOVModelForCausalLM (Some "base") None true None "CPU" None;
                 EvEvaluator (Some (model_obj 1)) None None (tokenizer_obj 0)
                   "sentence-transformers/all-mpnet-base-v2" None None;
                 EvDel (model_obj 1)]
                ++ EvWorstExamples (evaluator_obj 2) 5 "similarity" :: shown)
  ∧ Forall (λ e, is_score e = false) (run_main sample_env verbose_base_args).1.
Proof.
  split; [by repeat split|].
  apply (main_view_without_score sample_env verbose_base_args [] None
           [EvAutoTokenizer (Some "base") true] (tokenizer_obj 0)); reflexivity.
Defined.

(** ** The matches of find_longest_match *)

Section matcher_match.
Import PyList Difflib.
Variables a b : list ascii.
Variables alo ahi blo bhi : Z.

Lemma b2j_positions (x : ascii) (j : Z) :
  j ∈ default [] (b2j (new a b) !! x) → item b j = Some x.
Proof.
  rewrite b2j_lookup. destruct (decide (x ∈ _)); [by intros ?%elem_of_nil|].
  intros Hj. apply positions_bounds in Hj as [Hj Hx].
  unfold item. rewrite (proj2 (Z.ltb_ge j 0)) by lia.
  by rewrite Z.sub_0_r in Hx.
Qed.

Lemma is_match_grow (i j k : Z) (x : ascii) :
  is_match a b (i - k, j - k, k) → item a i = Some x → item b j = Some x →
  is_match a b (i - (k + 1) + 1, j - (k + 1) + 1, k + 1).
Proof.
  intros Hm Hi Hj d Hd.
  destruct (decide (d = k)) as [->|Hne].
  - exists x. split.
    + by replace (i - (k + 1) + 1 + k) with i by lia.
    + by replace (j - (k + 1) + 1 + k) with j by lia.
  - replace (i - (k + 1) + 1) with (i - k) by lia.
    replace (j - (k + 1) + 1) with (j - k) by lia.
    apply Hm. lia.
Qed.

Lemma scan_row_match (i : Z) (x : ascii) (j2len : gmap Z Z) (js : list Z) :
  item a i = Some x → (∀ j, j ∈ js → item b j = Some x) →
  lengths_match a b (i - 1) j2len →
  ∀ (newj2len : gmap Z Z) (best : Match),
    lengths_match a b i newj2len → is_match a b best →
    let st := scan_row blo bhi i j2len js (newj2len, best) in
    lengths_match a b i st.1 ∧ is_match a b st.2.
Proof.
  intros Hi Hjs Hrow. induction js as [|j js IH]; intros new best Hnew Hbest.
  - done.
  - cbn [scan_row].
    assert (Hjs' : ∀ j', j' ∈ js → item b j' = Some x).
    { intros j' Hj'. apply Hjs. by right. }
    destruct (j <? blo); [by apply IH|].
    destruct (bhi <=? j); [done|].
    destruct best as [[bi bj] bs].
    assert (Hk : is_match a b (i - (default 0 (j2len !! (j - 1)) + 1) + 1,
                               j - (default 0 (j2len !! (j - 1)) + 1) + 1,
                               default 0 (j2len !! (j - 1)) + 1)).
    { apply (is_match_grow i j _ x); [|done|apply Hjs; by left].
      destruct (j2len !! (j - 1)) as [k0|] eqn:E; cbn [from_option id].
      - apply Hrow in E.
        replace (i - 1 - k0 + 1) with (i - k0) in E by lia.
        by replace (j - 1 - k0 + 1) with (j - k0) in E by lia.
      - intros d Hd. lia. }
    set (k := default 0 (j2len !! (j - 1)) + 1) in *.
    apply IH; [done| |].
    + intros j' k'. destruct (decide (j = j')) as [<-|Hne].
      * rewrite lookup_insert_eq. by intros [= <-].
      * rewrite lookup_insert_ne by done. apply Hnew.
    + by destruct (bs <? k).
Qed.

Lemma scan_step_match (i : Z) (st : scan) :
  lengths_match a b (i - 1) st.1 → is_match a b st.2 →
  lengths_match a b i (scan_step (new a b) blo bhi st i).1
  ∧ is_match a b (scan_step (new a b) blo bhi st i).2.
Proof.
  intros Hrow Hbest. destruct st as [j2len best]. unfold scan_step.
  cbn [sm_a new]. destruct (item a i) as [x|] eqn:Hi.
  - apply (scan_row_match i x); [done| |done| |done].
    + intros j. apply b2j_positions.
    + by intros j k; rewrite lookup_empty.
  - cbn [scan_row fst snd]. split; [|done]. by intros j k; rewrite lookup_empty.
Qed.

Lemma scan_rows_match (count : nat) (i : Z) (st : scan) :
  lengths_match a b (i - 1) st.1 → is_match a b st.2 →
  is_match a b
    (fold_left (scan_step (new a b) blo bhi) (seqZ i (Z.of_nat count)) st).2.
Proof.
  revert i st. induction count as [|count IH]; intros i st Hrow Hbest.
  - by rewrite seqZ_nil by lia.
  - rewrite seqZ_cons by lia. cbn [fold_left].
    replace (Z.pred (Z.of_nat (S count))) with (Z.of_nat count) by lia.
    destruct (scan_step_match i st) as [Hrow' Hbest']; [done|done|].
    apply IH; [|done]. by replace (Z.succ i - 1) with i by lia.
Qed.

Lemma same_item_true (i j : Z) :
  same_item (new a b) i j = true → ∃ x, item a i = Some x ∧ item b j = Some x.
Proof.
  unfold same_item. cbn [sm_a sm_b new].
  destruct (item a i) as [x|]; [|done]. destruct (item b j) as [y|]; [|done].
  intros ->%bool_decide_eq_true. by exists y.
Qed.

Lemma extend_left_match (junk : bool) (fuel : nat) (m : Match) :
  is_match a b m → is_match a b (extend_left (new a b) alo blo junk fuel m).
Proof.
  revert m. induction fuel as [|fuel IH]; intros [[bi bj] bs] Hm; [done|].
  cbn [extend_left].
  destruct ((alo <? bi) && (blo <? bj) && junk_is (new a b) junk (bj - 1)
            && same_item (new a b) (bi - 1) (bj - 1)) eqn:E; [|done].
  apply andb_true_iff in E as [_ (x & Hi & Hj)%same_item_true].
  apply IH. intros d Hd. destruct (decide (d = 0)) as [->|Hne].
  - exists x. by rewrite !Z.add_0_r.
  - replace (bi - 1 + d) with (bi + (d - 1)) by lia.
    replace (bj - 1 + d) with (bj + (d - 1)) by lia.
    apply Hm. lia.
Qed.

Lemma extend_right_match (junk : bool) (fuel : nat) (m : Match) :
  is_match a b m → is_match a b (extend_right (new a b) ahi bhi junk fuel m).
Proof.
  revert m. induction fuel as [|fuel IH]; intros [[bi bj] bs] Hm; [done|].
  cbn [extend_right].
  destruct ((bi + bs <? ahi) && (bj + bs <? bhi) && junk_is (new a b) junk (bj + bs)
            && same_item (new a b) (bi + bs) (bj + bs)) eqn:E; [|done].
  apply andb_true_iff in E as [_ (x & Hi & Hj)%same_item_true].
  apply IH. intros d Hd. destruct (decide (d = bs)) as [->|Hne].
  - by exists x.
  - apply Hm. lia.
Qed.

(** What [find_longest_match] returns is a match. *)
Lemma find_longest_match_match :
  is_match a b (find_longest_match (new a b) alo ahi blo bhi).
Proof.
  unfold find_longest_match. cbn zeta.
  apply extend_right_match, extend_left_match, extend_right_match, extend_left_match.
  unfold scan_rows.
  destruct (decide (alo ≤ ahi)) as [Hle|Hgt].
  - pose proof (scan_rows_match (Z.to_nat (ahi - alo)) alo (∅, (alo, blo, 0))) as H.
    rewrite Z2Nat.id in H by lia. apply H.
    + cbn [fst]. by intros j k; rewrite lookup_empty.
    + intros d Hd. lia.
  - rewrite seqZ_nil by lia. intros d Hd. cbn in Hd. lia.
Qed.

End matcher_match.

(** ** The blocks of get_matching_blocks *)

Section blocks_apart.
Import PyList Difflib.

Lemma apart_sym (x y : block) : apart x y → apart y x.
Proof. unfold apart. tauto. Qed.

Lemma apart_inside (s q y : block) : inside s q → apart q y → apart s y.
Proof.
  destruct s as [[[s1 s2] s3] s4], q as [[[q1 q2] q3] q4], y as [[[y1 y2] y3] y4].
  unfold inside, apart, before. lia.
Qed.

Lemma all_apart_app (l1 l2 : list block) :
  all_apart (l1 ++ l2)
  ↔ all_apart l1 ∧ all_apart l2 ∧ Forall (λ x, Forall (apart x) l2) l1.
Proof.
  induction l1 as [|x l1 IH]; cbn [app all_apart].
  - split; [by intros ?|by intros (_ & ? & _)].
  - rewrite Forall_app, IH, Forall_cons. tauto.
Qed.

Lemma all_apart_Permutation (l1 l2 : list block) :
  l1 ≡ₚ l2 → all_apart l1 → all_apart l2.
Proof.
  induction 1 as [|x l1 l2 Hp IH|x y l|l1 l2 l3 _ IH1 _ IH2]; cbn [all_apart].
  - done.
  - intros [F H]. split; [by rewrite <- Hp|by apply IH].
  - intros (Fy & Fx & H). apply Forall_cons in Fy as [Hyx Fy].
    repeat split; [|done|done].
    apply Forall_cons. split; [by apply apart_sym|done].
  - intros H. by apply IH2, IH1.
Qed.

End blocks_apart.

Section matcher_blocks.
Import PyList Difflib.
Variables a b : list ascii.

Abbreviation whole := (0, len a, 0, len b).

Lemma matching_loop_found (fuel : nat) (queue : list block) (blocks res : list Match) :
  matching_loop (new a b) fuel queue blocks = Some res →
  Forall block_ok queue → Forall (λ q, inside q whole) queue →
  all_apart (queue ++ map span blocks) → Forall (found a b) blocks →
  all_apart (map span res) ∧ Forall (found a b) res.
Proof.
  revert queue blocks.
  induction fuel as [|fuel IH]; intros queue blocks Hrun Hok Hin Hap Hfound.
  - destruct queue as [|[[[alo ahi] blo] bhi] queue]; [|done].
    by injection Hrun as <-.
  - destruct queue as [|[[[alo ahi] blo] bhi] queue]; [by injection Hrun as <-|].
    apply Forall_cons in Hok as [[Ha Hb] Hok].
    apply Forall_cons in Hin as [Hq Hin].
    cbn [matching_loop] in Hrun.
    pose proof (find_longest_match_within (new a b) alo ahi blo bhi Ha Hb) as Hw.
    pose proof (find_longest_match_match a b alo ahi blo bhi) as Hm.
    destruct (find_longest_match (new a b) alo ahi blo bhi) as [[i j] k].
    destruct Hw as (Hi & Hj & Hk & Hik & Hjk).
    cbn [app all_apart] in Hap. destruct Hap as [Fq Hap].
    destruct (k =? 0) eqn:Ek.
    { by apply (IH queue blocks). }
    apply Z.eqb_neq in Ek.
    set (lq := if (alo <? i) && (blo <? j) then [(alo, i, blo, j)] else []).
    set (rq := if (i + k <? ahi) && (j + k <? bhi)
               then [(i + k, ahi, j + k, bhi)] else []).
    assert (Hq2 : (if (i + k <? ahi) && (j + k <? bhi)
                   then (i + k, ahi, j + k, bhi)
                        :: (if (alo <? i) && (blo <? j)
                            then (alo, i, blo, j) :: queue else queue)
                   else if (alo <? i) && (blo <? j)
                        then (alo, i, blo, j) :: queue else queue)
                  = rq ++ lq ++ queue).
    { unfold lq, rq.
      by destruct ((alo <? i) && (blo <? j)), ((i + k <? ahi) && (j + k <? bhi)). }
    rewrite Hq2 in Hrun. clear Hq2.
    assert (Hleft : Forall (λ q, block_ok q ∧ inside q (alo, ahi, blo, bhi)
                                 ∧ before q (span (i, j, k))) lq).
    { unfold lq. destruct ((alo <? i) && (blo <? j)) eqn:E; [|done].
      apply andb_true_iff in E as [?%Z.ltb_lt ?%Z.ltb_lt].
      apply Forall_singleton. unfold block_ok, inside, before, span. lia. }
    assert (Hright : Forall (λ q, block_ok q ∧ inside q (alo, ahi, blo, bhi)
                                  ∧ before (span (i, j, k)) q) rq).
    { unfold rq. destruct ((i + k <? ahi) && (j + k <? bhi)) eqn:E; [|done].
      apply andb_true_iff in E as [?%Z.ltb_lt ?%Z.ltb_lt].
      apply Forall_singleton. unfold block_ok, inside, before, span. lia. }
    assert (Hone : ∀ l : list block, (∃ x, l = [x]) ∨ l = [] → all_apart l).
    { intros l [[x ->]| ->]; by cbn. }
    assert (Hspan : inside (span (i, j, k)) (alo, ahi, blo, bhi)).
    { unfold inside, span. lia. }
    assert (Hsub : ∀ s, inside s (alo, ahi, blo, bhi) → inside s whole).
    { intros [[[s1 s2] s3] s4]. unfold inside in *. lia. }
    assert (Hcross : ∀ s, inside s (alo, ahi, blo, bhi) →
                          Forall (apart s) (queue ++ map span blocks)).
    { intros s Hs. eapply Forall_impl; [exact Fq|]. intros y Hy.
      by apply (apart_inside s (alo, ahi, blo, bhi)). }
    apply (IH (rq ++ lq ++ queue) (blocks ++ [(i, j, k)])); [done|..].
    + rewrite !Forall_app. repeat split; [| |done].
      * eapply Forall_impl; [exact Hright|]. by intros q (? & _).
      * eapply Forall_impl; [exact Hleft|]. by intros q (? & _).
    + rewrite !Forall_app. repeat split; [| |done].
      * eapply Forall_impl; [exact Hright|]. intros q (_ & ? & _). by apply Hsub.
      * eapply Forall_impl; [exact Hleft|]. intros q (_ & ? & _). by apply Hsub.
    + rewrite map_app. cbn [map].
      apply (all_apart_Permutation
               ((rq ++ lq ++ [span (i, j, k)]) ++ queue ++ map span blocks)).
      { rewrite <- !app_assoc. apply Permutation_app_head, Permutation_app_head.
        rewrite (app_assoc queue). apply Permutation_app_comm. }
      apply all_apart_app. split; [|split; [done|]].
      * apply all_apart_app. split; [|split].
        -- apply Hone. unfold rq.
           destruct ((i + k <? ahi) && (j + k <? bhi)); by eauto.
        -- apply all_apart_app. split; [|split].
           ++ apply Hone. unfold lq. destruct ((alo <? i) && (blo <? j)); by eauto.
           ++ by cbn.
           ++ eapply Forall_impl; [exact Hleft|]. intros q (_ & _ & Hb').
              apply Forall_singleton. by left.
        -- eapply Forall_impl; [exact Hright|]. intros r (_ & Hr & Hbr).
           rewrite Forall_app. split.
           ++ eapply Forall_impl; [exact Hleft|]. intros q (_ & Hq' & Hbq).
              right. destruct q as [[[q1 q2] q3] q4], r as [[[r1 r2] r3] r4].
              unfold before, span, inside in *. lia.
           ++ apply Forall_singleton. by right.
      * rewrite !Forall_app. repeat split.
        -- eapply Forall_impl; [exact Hright|]. intros q (_ & Hq' & _).
           by apply Hcross.
        -- eapply Forall_impl; [exact Hleft|]. intros q (_ & Hq' & _).
           by apply Hcross.
        -- apply Forall_singleton. by apply Hcross.
    + rewrite Forall_app. split; [done|]. apply Forall_singleton.
      split; [cbn; lia|]. split; [by apply Hsub|done].
Qed.

End matcher_blocks.

Section blocks_sorted.
Import PyList Difflib.

#[local] Instance match_le_transitive : Transitive match_le.
Proof. intros [[??]?] [[??]?] [[??]?]. unfold match_le. lia. Qed.

#[local] Instance match_le_total : Total match_le.
Proof. intros [[??]?] [[??]?]. unfold match_le. lia. Qed.

Variables a b : list ascii.

(** Sorted as tuples, matches that are apart are in the order of both
    sequences. *)
Lemma sorted_tiles (l : list Match) (i0 j0 : Z) :
  StronglySorted match_le l → all_apart (map span l) → Forall (found a b) l →
  Forall (λ m, i0 ≤ m.1.1 ∧ j0 ≤ m.1.2) l →
  tiles a b i0 j0 l.
Proof.
  revert i0 j0. induction l as [|[[i j] k] l IH]; intros i0 j0 Hs Hap Hf Hlo; [done|].
  apply StronglySorted_inv in Hs as [Hs Hle].
  cbn [map all_apart] in Hap. destruct Hap as [Fx Hap].
  apply Forall_cons in Hf as [Hx Hf]. apply Forall_cons in Hlo as [[Hi Hj] Hlo].
  cbn [tiles fst snd]. split; [done|]. split; [done|]. split; [done|].
  apply IH; [done|done|done|].
  apply Forall_forall. intros [[i' j'] k'] Hin. cbn [fst snd].
  rewrite Forall_forall in Hle. specialize (Hle _ Hin).
  rewrite Forall_forall in Fx.
  assert (Hspan : span (i', j', k') ∈ map span l).
  { apply list_elem_of_In, in_map. by apply list_elem_of_In. }
  specialize (Fx _ Hspan).
  rewrite Forall_forall in Hf. destruct (Hf _ Hin) as (Hk' & _).
  destruct Hx as (Hk & _). cbn [snd] in Hk, Hk'.
  unfold match_le in Hle. unfold apart, before, span in Fx. lia.
Qed.

Lemma found_merge (i j k k' : Z) :
  found a b (i, j, k) → found a b (i + k, j + k, k') → found a b (i, j, k + k').
Proof.
  intros (Hk & Hin & Hm) (Hk' & Hin' & Hm'). cbn [snd] in *.
  unfold inside, span in *. split; [cbn [snd]; lia|].
  split; [unfold inside, span; lia|].
  intros d Hd. destruct (decide (d < k)) as [Hlt|Hge].
  - apply Hm. lia.
  - replace (i + d) with (i + k + (d - k)) by lia.
    replace (j + d) with (j + k + (d - k)) by lia.
    apply Hm'. lia.
Qed.

Lemma collapse_tiles (rest : list Match) (cur : Match) (out : list Match) (i0 j0 : Z) :
  tiles a b i0 j0 (cur :: rest) →
  ∃ l, flush (fold_left collapse_step rest (cur, out)) = out ++ l ∧ tiles a b i0 j0 l.
Proof.
  revert cur out i0 j0.
  induction rest as [|[[i2 j2] k2] rest IH]; intros [[i1 j1] k1] out i0 j0 Ht.
  - exists [(i1, j1, k1)]. split; [|done].
    cbn [fold_left]. unfold flush. cbn [fst snd].
    destruct Ht as (_ & _ & (Hk & _) & _). cbn [snd] in Hk.
    by rewrite (proj2 (Z.eqb_neq k1 0)) by lia.
  - cbn [fold_left collapse_step].
    destruct Ht as (Hi & Hj & Hcur & Hi2 & Hj2 & Hx & Ht). cbn [fst snd] in *.
    destruct ((i1 + k1 =? i2) && (j1 + k1 =? j2)) eqn:E.
    + apply andb_true_iff in E as [<-%Z.eqb_eq <-%Z.eqb_eq].
      apply IH. cbn [tiles fst snd].
      split; [done|]. split; [done|]. split; [by apply found_merge|].
      by rewrite <- !Z.add_assoc in Ht.
    + destruct Hcur as (Hk & Hcur). cbn [snd] in Hk.
      rewrite (proj2 (Z.eqb_neq k1 0)) by lia.
      destruct (IH (i2, j2, k2) (out ++ [(i1, j1, k1)]) (i1 + k1) (j1 + k1))
        as (l & Hl & Htl).
      { cbn [tiles fst snd]. by repeat (split; [done|]). }
      exists ((i1, j1, k1) :: l).
      split; [etrans; [exact Hl|]; by rewrite <- app_assoc|].
      cbn [tiles fst snd]. by repeat (split; [done|]).
Qed.

(** The matching blocks: matches that follow each other in both
    sequences, none empty, and the closing block of size 0. *)
Lemma get_matching_blocks_tiles :
  ∃ l, get_matching_blocks (new a b) = l ++ [(len a, len b, 0)]
       ∧ tiles a b 0 0 l.
Proof.
  unfold get_matching_blocks. cbn [sm_a sm_b new].
  destruct (get_matching_blocks_terminates (new a b)) as [res Hres].
  cbn [sm_a sm_b new] in Hres. rewrite Hres. cbn [from_option id].
  apply matching_loop_found in Hres as [Hap Hf].
  2: { apply Forall_singleton. unfold block_ok, len. lia. }
  2: { apply Forall_singleton. unfold inside, len. lia. }
  2: { by cbn. }
  2: { done. }
  pose proof (merge_sort_Permutation match_le res) as Hperm.
  pose proof (StronglySorted_merge_sort match_le res) as Hsorted.
  set (sorted := merge_sort match_le res) in *.
  assert (Ht : tiles a b 0 0 sorted).
  { apply sorted_tiles; [done| | |].
    - eapply all_apart_Permutation; [|exact Hap]. by rewrite Hperm.
    - by rewrite Hperm.
    - rewrite Hperm. eapply Forall_impl; [exact Hf|].
      intros [[i j] k] (_ & Hin & _). unfold inside, span in Hin. cbn [fst snd]. lia. }
  assert (Hflush : ∃ l, flush (fold_left collapse_step sorted ((0, 0, 0), [])) = l
                        ∧ tiles a b 0 0 l).
  { destruct sorted as [|[[i2 j2] k2] rest]; [by exists []|].
    cbn [fold_left collapse_step]. rewrite !Z.add_0_l.
    destruct Ht as (Hi & Hj & Hx & Ht). cbn [fst snd] in *.
    destruct ((0 =? i2) && (0 =? j2)) eqn:E.
    - apply andb_true_iff in E as [<-%Z.eqb_eq <-%Z.eqb_eq].
      destruct (collapse_tiles rest (0, 0, k2) [] 0 0) as (l & Hl & Htl).
      { cbn [tiles fst snd]. by repeat (split; [done|]). }
      exists l. split; [exact Hl|done].
    - cbn [Z.eqb].
      destruct (collapse_tiles rest (i2, j2, k2) [] 0 0) as (l & Hl & Htl).
      { cbn [tiles fst snd]. by repeat (split; [done|]). }
      exists l. split; [exact Hl|done]. }
  destruct Hflush as (l & Hl & Htl). exists l. split; [|done].
  rewrite <- Hl. unfold flush.
  by destruct (fold_left collapse_step sorted (0, 0, 0, [])) as [[[i1 j1] k1] out].
Qed.

End blocks_sorted.

(** ** What diff_strings shows *)

Lemma string_of_list_ascii_app (l1 l2 : list ascii) :
  string_of_list_ascii (l1 ++ l2)
  = (string_of_list_ascii l1 ++ string_of_list_ascii l2)%string.
Proof.
  induction l1 as [|x l1 IH]; [done|].
  cbn [app string_of_list_ascii]. rewrite IH. done.
Qed.

Lemma len_list_ascii (s : string) : PyList.len (list_ascii_of_string s) = PyStr.len s.
Proof. unfold PyList.len, PyStr.len. by rewrite length_list_ascii. Qed.

Lemma slice_inside (s : string) (lo hi : Z) :
  0 ≤ lo → lo ≤ hi → hi ≤ PyStr.len s →
  PyStr.slice s lo hi
  = string_of_list_ascii
      (take (Z.to_nat (hi - lo)) (drop (Z.to_nat lo) (list_ascii_of_string s))).
Proof.
  intros H0 H1 H2. unfold PyStr.slice, PyStr.clamp.
  rewrite (proj2 (Z.ltb_ge lo 0)) by lia.
  rewrite (proj2 (Z.ltb_ge hi 0)) by lia.
  by rewrite !Z.min_l by lia.
Qed.

Lemma slice_app (s : string) (lo mid hi : Z) :
  0 ≤ lo → lo ≤ mid → mid ≤ hi → hi ≤ PyStr.len s →
  (PyStr.slice s lo mid ++ PyStr.slice s mid hi)%string = PyStr.slice s lo hi.
Proof.
  intros H0 H1 H2 H3. rewrite !slice_inside by lia.
  rewrite <- string_of_list_ascii_app. f_equal.
  set (l := list_ascii_of_string s).
  replace (Z.to_nat mid) with (Z.to_nat lo + Z.to_nat (mid - lo))%nat by lia.
  rewrite <- drop_drop, take_take_drop. f_equal. lia.
Qed.

Lemma slice_empty (s : string) (i : Z) : 0 ≤ i → i ≤ PyStr.len s → PyStr.slice s i i = "".
Proof.
  intros H0 H1. rewrite slice_inside by lia. by rewrite Z.sub_diag.
Qed.

Lemma slice_match (a b : string) (i j k : Z) :
  is_match (list_ascii_of_string a) (list_ascii_of_string b) (i, j, k) →
  0 ≤ i → 0 ≤ j → 0 ≤ k → i + k ≤ PyStr.len a → j + k ≤ PyStr.len b →
  PyStr.slice a i (i + k) = PyStr.slice b j (j + k).
Proof.
  intros Hm Hi Hj Hk Ha Hb. rewrite !slice_inside by lia. f_equal.
  replace (i + k - i) with k by lia. replace (j + k - j) with k by lia.
  apply list_eq. intros n.
  destruct (decide (n < Z.to_nat k)%nat) as [Hlt|Hge].
  - rewrite !lookup_take_lt, !lookup_drop by done.
    destruct (Hm (Z.of_nat n)) as (x & Hx & Hy); [lia|].
    unfold PyList.item in Hx, Hy.
    rewrite (proj2 (Z.ltb_ge _ 0)) in Hx by lia.
    rewrite (proj2 (Z.ltb_ge _ 0)) in Hy by lia.
    replace (Z.to_nat (i + Z.of_nat n)) with (Z.to_nat i + n)%nat in Hx by lia.
    replace (Z.to_nat (j + Z.of_nat n)) with (Z.to_nat j + n)%nat in Hy by lia.
    by rewrite Hx, Hy.
  - by rewrite !lookup_take_ge by lia.
Qed.

Lemma without_app (hide : colour) (l1 l2 : list segment) :
  without hide (l1 ++ l2) = (without hide l1 ++ without hide l2)%string.
Proof.
  induction l1 as [|[c text] l1 IH]; [done|].
  cbn [app without fst snd]. rewrite IH.
  destruct (same_colour c hide); [done|]. by rewrite append_assoc.
Qed.

Lemma texts_app (a b : string) (ops1 ops2 : list Difflib.opcode) :
  texts a b (ops1 ++ ops2)
  = ((texts a b ops1).1 ++ (texts a b ops2).1,
     (texts a b ops1).2 ++ (texts a b ops2).2)%string.
Proof. unfold texts. cbn [fst snd]. by rewrite flat_map_app, !without_app. Qed.

Section opcodes_texts.
Import PyList Difflib.
Variables a b : string.

Abbreviation la := (list_ascii_of_string a).
Abbreviation lb := (list_ascii_of_string b).

(** One iteration of the loop of [get_opcodes]: the opcodes written so
    far spell [a] and [b] up to the end of the block. *)
Lemma opcode_step_texts (i j : Z) (answer : list opcode) (ai bj size : Z) :
  0 ≤ i → i ≤ ai → 0 ≤ j → j ≤ bj → 0 ≤ size →
  ai + size ≤ PyStr.len a → bj + size ≤ PyStr.len b →
  is_match la lb (ai, bj, size) →
  texts a b answer = (PyStr.slice a 0 i, PyStr.slice b 0 j) →
  ∃ answer',
    opcode_step (i, j, answer) (ai, bj, size) = (ai + size, bj + size, answer')
    ∧ texts a b answer' = (PyStr.slice a 0 (ai + size), PyStr.slice b 0 (bj + size)).
Proof.
  intros Hi Hia Hj Hjb Hsize Ha Hb Hm Ht.
  set (gap := if (i <? ai) && (j <? bj) then [(Replace, i, ai, j, bj)]
              else if i <? ai then [(Delete, i, ai, j, bj)]
              else if j <? bj then [(Insert, i, ai, j, bj)]
              else []).
  set (eq := if size =? 0 then [] else [(Equal, ai, ai + size, bj, bj + size)]).
  exists (answer ++ gap ++ eq). split.
  { unfold opcode_step, gap, eq.
    destruct ((i <? ai) && (j <? bj)), (i <? ai), (j <? bj), (size =? 0);
      by rewrite ?app_nil_r, <- ?app_assoc. }
  assert (Hgap : texts a b gap = (PyStr.slice a i ai, PyStr.slice b j bj)).
  { unfold gap, texts.
    destruct (i <? ai) eqn:E1; destruct (j <? bj) eqn:E2; cbn [andb flat_map app
      segments_of without fst snd same_colour];
      rewrite ?append_empty_r;
      try apply Z.ltb_ge in E1; try apply Z.ltb_ge in E2;
      try (replace ai with i by lia); try (replace bj with j by lia);
      by rewrite ?slice_empty by lia. }
  assert (Heq : texts a b eq = (PyStr.slice a ai (ai + size),
                                PyStr.slice b bj (bj + size))).
  { unfold eq, texts. destruct (size =? 0) eqn:E.
    - apply Z.eqb_eq in E. subst size. rewrite !Z.add_0_r.
      cbn [flat_map without]. by rewrite !slice_empty by lia.
    - cbn [flat_map app segments_of without fst snd same_colour].
      rewrite ?append_empty_r. f_equal. apply slice_match; [done|lia..]. }
  rewrite !texts_app, Ht, Hgap, Heq. cbn [fst snd].
  by rewrite !slice_app by lia.
Qed.

Lemma opcode_fold_texts (blocks : list (Z * Z * Z)) (i j : Z) (answer : list opcode) :
  0 ≤ i → 0 ≤ j → i ≤ PyStr.len a → j ≤ PyStr.len b → tiles la lb i j blocks →
  texts a b answer = (PyStr.slice a 0 i, PyStr.slice b 0 j) →
  ∃ i' j' answer',
    @fold_left (Z * Z * list opcode) (Z * Z * Z) opcode_step blocks (i, j, answer)
    = (i', j', answer')
    ∧ 0 ≤ i' ∧ 0 ≤ j' ∧ i' ≤ PyStr.len a ∧ j' ≤ PyStr.len b
    ∧ texts a b answer' = (PyStr.slice a 0 i', PyStr.slice b 0 j').
Proof.
  revert i j answer.
  induction blocks as [|[[ai bj] size] blocks IH]; intros i j answer Hi Hj Hia Hjb Ht Hx.
  - exists i, j, answer. by repeat (split; [done|]).
  - destruct Ht as (Hai & Hbj & (Hsize & Hin & Hm) & Ht). cbn [fst snd] in *.
    unfold inside, span in Hin. rewrite !len_list_ascii in Hin.
    destruct (opcode_step_texts i j answer ai bj size) as (answer' & Hstep & Hx');
      [lia..|done|done|].
    cbn [fold_left]. rewrite Hstep. apply IH; [lia..|done|done].
Qed.

(** The opcodes spell both strings. *)
Lemma get_opcodes_texts : texts a b (Difflib.get_opcodes (new la lb)) = (a, b).
Proof.
  unfold Difflib.get_opcodes.
  destruct (get_matching_blocks_tiles la lb) as (l & -> & Ht).
  rewrite fold_left_app.
  destruct (opcode_fold_texts l 0 0 []) as (i & j & answer & -> & Hi & Hj & Hia & Hjb & Hx).
  { done. } { done. } { unfold PyStr.len. lia. } { unfold PyStr.len. lia. } { done. }
  { unfold texts. cbn [flat_map without]. by rewrite !slice_empty by (unfold PyStr.len; lia). }
  cbn [fold_left]. rewrite !len_list_ascii.
  destruct (opcode_step_texts i j answer (PyStr.len a) (PyStr.len b) 0)
    as (answer' & -> & Hx'); [lia..| |done|].
  { intros d Hd. lia. }
  cbn [snd]. rewrite Hx', !Z.add_0_r. by rewrite !slice_all.
Qed.

End opcodes_texts.

Lemma pieces_rendered (a b : string) (flag : bool) (ops : list Difflib.opcode) :
  join (map (piece a b flag) ops)
  = join (map (render flag) (flat_map (segments_of a b) ops)).
Proof.
  induction ops as [|op ops IH]; [done|].
  cbn [map flat_map]. rewrite map_app, join_app, <- IH.
  change (join (piece a b flag op :: map (piece a b flag) ops))
    with (piece a b flag op ++ join (map (piece a b flag) ops))%string.
  f_equal. unfold piece, render, segments_of.
  destruct (markers flag) as [[[green endgreen] red] endred].
  destruct op as [[[[[] a0] a1] b0] b1]; cbn [map fst snd];
    change (join [?x]) with (x ++ "")%string;
    change (join [?x; ?y]) with (x ++ y ++ "")%string;
    by rewrite ?append_empty_r.
Qed.

(** X10: [diff_strings] loses nothing of its two arguments: what it
    returns is a sequence of plain, green and red segments, each coloured
    one between its markers, such that the segments that are not green
    spell [a] and the segments that are not red spell [b]. *)
Theorem diff_strings_spells_both (a b : string) (use_loguru_colors : bool) :
  diff_strings a b use_loguru_colors
  = join (map (render use_loguru_colors) (segments a b))
  ∧ without Green (segments a b) = a
  ∧ without Red (segments a b) = b.
Proof.
  pose proof (get_opcodes_texts a b) as Ht. unfold texts in Ht.
  fold (get_opcodes a b) in Ht. fold (segments a b) in Ht.
  injection Ht as Ha Hb. split; [|by split].
  unfold diff_strings. rewrite diff_loop. change (join []) with EmptyString.
  change (EmptyString ++ ?s)%string with s. apply pieces_rendered.
Qed.

(** ** The contract of the opcodes *)

Lemma chained_app (a b : string) (i0 j0 i j i' j' : Z) (ops1 ops2 : list Difflib.opcode) :
  chained a b i0 j0 ops1 i j → chained a b i j ops2 i' j' →
  chained a b i0 j0 (ops1 ++ ops2) i' j'.
Proof.
  revert i0 j0. induction ops1 as [|[[[[tg i1] i2] j1] j2] ops1 IH]; intros i0 j0.
  - by intros [-> ->].
  - cbn [app chained]. intros (-> & -> & Hop & H1) H2. repeat (split; [done|]).
    by apply IH.
Qed.

Section opcodes_chained.
Import PyList Difflib.
Variables a b : string.

Lemma opcode_step_chained (i0 j0 i j : Z) (answer : list opcode) (ai bj size : Z) :
  chained a b i0 j0 answer i j →
  0 ≤ i → i ≤ ai → 0 ≤ j → j ≤ bj → 0 ≤ size →
  ai + size ≤ PyStr.len a → bj + size ≤ PyStr.len b →
  is_match (list_ascii_of_string a) (list_ascii_of_string b) (ai, bj, size) →
  ∃ answer',
    opcode_step (i, j, answer) (ai, bj, size) = (ai + size, bj + size, answer')
    ∧ chained a b i0 j0 answer' (ai + size) (bj + size).
Proof.
  intros Hc Hi Hia Hj Hjb Hsize Ha Hb Hm.
  set (gap := if (i <? ai) && (j <? bj) then [(Replace, i, ai, j, bj)]
              else if i <? ai then [(Delete, i, ai, j, bj)]
              else if j <? bj then [(Insert, i, ai, j, bj)]
              else []).
  set (eq := if size =? 0 then [] else [(Equal, ai, ai + size, bj, bj + size)]).
  exists (answer ++ gap ++ eq). split.
  { unfold opcode_step, gap, eq.
    destruct ((i <? ai) && (j <? bj)), (i <? ai), (j <? bj), (size =? 0);
      by rewrite ?app_nil_r, <- ?app_assoc. }
  apply (chained_app a b i0 j0 i j); [done|].
  apply (chained_app a b i j ai bj).
  - unfold gap.
    destruct (i <? ai) eqn:E1; destruct (j <? bj) eqn:E2; cbn [andb chained opcode_ok];
      try apply Z.ltb_lt in E1; try apply Z.ltb_lt in E2;
      try apply Z.ltb_ge in E1; try apply Z.ltb_ge in E2;
      repeat split; lia.
  - unfold eq. destruct (size =? 0) eqn:E.
    + apply Z.eqb_eq in E. cbn [chained]. lia.
    + apply Z.eqb_neq in E. cbn [chained opcode_ok].
      repeat split; [lia|lia|].
      apply slice_match; [done|lia..].
Qed.

Lemma opcode_fold_chained (blocks : list (Z * Z * Z)) (i0 j0 i j : Z)
    (answer : list opcode) :
  chained a b i0 j0 answer i j →
  0 ≤ i → 0 ≤ j → i ≤ PyStr.len a → j ≤ PyStr.len b →
  tiles (list_ascii_of_string a) (list_ascii_of_string b) i j blocks →
  ∃ i' j' answer',
    @fold_left (Z * Z * list opcode) (Z * Z * Z) opcode_step blocks (i, j, answer)
    = (i', j', answer')
    ∧ 0 ≤ i' ∧ 0 ≤ j' ∧ i' ≤ PyStr.len a ∧ j' ≤ PyStr.len b
    ∧ chained a b i0 j0 answer' i' j'.
Proof.
  revert i j answer.
  induction blocks as [|[[ai bj] size] blocks IH];
    intros i j answer Hc Hi Hj Hia Hjb Ht.
  - exists i, j, answer. by repeat (split; [done|]).
  - destruct Ht as (Hai & Hbj & (Hsize & Hin & Hm) & Ht). cbn [fst snd] in *.
    unfold inside, span in Hin. rewrite !len_list_ascii in Hin.
    destruct (opcode_step_chained i0 j0 i j answer ai bj size) as (answer' & Hstep & Hc');
      [done|lia..|done|].
    cbn [fold_left]. rewrite Hstep. apply IH; [done|lia..|done].
Qed.

Lemma get_opcodes_chained :
  chained a b 0 0
    (Difflib.get_opcodes (new (list_ascii_of_string a) (list_ascii_of_string b)))
    (PyStr.len a) (PyStr.len b).
Proof.
  unfold Difflib.get_opcodes.
  destruct (get_matching_blocks_tiles (list_ascii_of_string a) (list_ascii_of_string b))
    as (l & -> & Ht).
  rewrite fold_left_app.
  destruct (opcode_fold_chained l 0 0 0 0 [])
    as (i & j & answer & -> & Hi & Hj & Hia & Hjb & Hc);
    [done|done|done|unfold PyStr.len; lia|unfold PyStr.len; lia|done|].
  cbn [fold_left]. rewrite !len_list_ascii.
  destruct (opcode_step_chained 0 0 i j answer (PyStr.len a) (PyStr.len b) 0)
    as (answer' & -> & Hc'); [done|lia..| |].
  { intros d Hd. lia. }
  cbn [snd]. by rewrite !Z.add_0_r in Hc'.
Qed.

End opcodes_chained.

(** X11: the opcodes of [a] and [b] keep the contract of
    [get_opcodes]: the first one starts at the start of both strings, each
    one starts where the one before it ends, the last one ends at the end
    of both strings; 'replace', 'delete' and 'insert' stand for ranges that
    are not empty, and the two ranges of an 'equal' opcode hold the same
    text. *)
Theorem get_opcodes_contract (a b : string) :
  chained a b 0 0 (get_opcodes a b) (PyStr.len a) (PyStr.len b).
Proof. apply get_opcodes_chained. Qed.

(** ** Consequences for the diff *)

Lemma slice_not_empty (s : string) (lo hi : Z) :
  0 ≤ lo → lo < hi → hi ≤ PyStr.len s → PyStr.slice s lo hi ≠ "".
Proof.
  intros H0 H1 H2. rewrite slice_inside by lia.
  assert (Hlen : length (take (Z.to_nat (hi - lo))
                           (drop (Z.to_nat lo) (list_ascii_of_string s)))
                 = Z.to_nat (hi - lo)).
  { rewrite length_take, length_drop, length_list_ascii. unfold PyStr.len in H2. lia. }
  destruct (take _ _) as [|x l]; [|done]. cbn [length] in Hlen. lia.
Qed.

Lemma chained_le (a b : string) (i j i' j' : Z) (ops : list Difflib.opcode) :
  chained a b i j ops i' j' → i ≤ i' ∧ j ≤ j'.
Proof.
  revert i j. induction ops as [|[[[[tg i1] i2] j1] j2] ops IH]; intros i j.
  - intros [-> ->]. lia.
  - intros (-> & -> & Hop & Hc). apply IH in Hc. unfold opcode_ok in Hop.
    destruct tg; lia.
Qed.

Lemma chained_segments (a b : string) (i j i' j' : Z) (ops : list Difflib.opcode) :
  chained a b i j ops i' j' → 0 ≤ i → 0 ≤ j → i' ≤ PyStr.len a → j' ≤ PyStr.len b →
  Forall (λ s : segment, s.2 ≠ "") (flat_map (segments_of a b) ops).
Proof.
  revert i j. induction ops as [|[[[[tg i1] i2] j1] j2] ops IH]; intros i j; [done|].
  intros (-> & -> & Hop & Hc) Hi Hj Ha Hb.
  pose proof (chained_le _ _ _ _ _ _ _ Hc) as [Hi2 Hj2].
  cbn [flat_map]. apply Forall_app. split.
  - unfold opcode_ok in Hop. unfold segments_of.
    destruct tg;
      repeat (apply Forall_cons_2; [cbn [snd]; apply slice_not_empty; lia|]);
      apply Forall_nil_2.
  - unfold opcode_ok in Hop. apply (IH i2 j2); [done|destruct tg; lia..|done|done].
Qed.

(** X12: [diff_strings] writes no empty segment: no pair of markers
    without text between them. *)
Theorem diff_strings_no_empty_segment (a b : string) :
  Forall (λ s : segment, s.2 ≠ "") (segments a b).
Proof.
  apply (chained_segments a b 0 0 (PyStr.len a) (PyStr.len b)); [|lia..].
  apply get_opcodes_chained.
Qed.

Lemma without_plain (segs : list segment) :
  Forall (λ s : segment, s.1 = Plain) segs → without Green segs = without Red segs.
Proof.
  induction segs as [|[c text] segs IH]; [done|].
  intros [Hc Hs]%Forall_cons. cbn [fst] in Hc. subst c.
  cbn [without fst snd same_colour]. by rewrite IH.
Qed.

Lemma segments_plain_equal (a b : string) :
  Forall (λ s : segment, s.1 = Plain) (segments a b) → a = b.
Proof.
  intros Hp. apply without_plain in Hp.
  pose proof (get_opcodes_texts a b) as Ht. unfold texts in Ht.
  fold (get_opcodes a b) in Ht. fold (segments a b) in Ht.
  injection Ht as Ha Hb. congruence.
Qed.

Lemma length_append (s1 s2 : string) :
  String.length (s1 ++ s2) = (String.length s1 + String.length s2)%nat.
Proof.
  induction s1 as [|x s1 IH]; [done|].
  change (String.length (String x (s1 ++ s2)) = S (String.length s1 + String.length s2)).
  cbn [String.length]. by rewrite IH.
Qed.

Lemma marker_lengths (flag : bool) :
  (0 < String.length (markers flag).1.1.1)%nat
  ∧ (0 < String.length (markers flag).1.2)%nat.
Proof. destruct flag; split; apply Nat.ltb_lt; vm_compute; reflexivity. Qed.

(** The result is longer than each of the two texts as soon as a segment
    is coloured. *)
Lemma rendered_length (flag : bool) (hide : colour) (segs : list segment) :
  hide ≠ Plain →
  (String.length (without hide segs)
   ≤ String.length (join (map (render flag) segs)))%nat
  ∧ (String.length (join (map (render flag) segs)) = String.length (without hide segs)
     → Forall (λ s : segment, s.1 = Plain) segs).
Proof.
  intros Hhide. induction segs as [|[c text] segs [IH1 IH2]]; [done|].
  cbn [map without fst snd].
  change (join (?x :: ?l)) with (x ++ join l)%string.
  set (rest := join (map (render flag) segs)) in *.
  pose proof (marker_lengths flag) as [Hg Hr].
  unfold render. destruct (markers flag) as [[[green endgreen] red] endred].
  cbn [fst snd] in *.
  destruct c, hide; try done; cbn [same_colour];
    rewrite ?length_append; (split; [lia|]); intros Heq;
    try (exfalso; lia);
    (apply Forall_cons; split; [done|apply IH2; lia]).
Qed.

Lemma diff_strings_same (s : string) (flag : bool) : diff_strings s s flag = s.
Proof.
  unfold diff_strings. rewrite diff_loop. change (join []) with EmptyString.
  unfold get_opcodes. rewrite get_opcodes_self.
  change (EmptyString ++ ?x)%string with x.
  rewrite len_list_ascii. destruct (PyStr.len s =? 0) eqn:E.
  - apply Z.eqb_eq in E. unfold PyStr.len in E. by destruct s.
  - cbn [map]. unfold piece.
    destruct (markers flag) as [[[green endgreen] red] endred].
    change (join [?x]) with (x ++ "")%string.
    by rewrite append_empty_r, slice_all.
Qed.

(** X13: [diff_strings] returns one of its arguments unchanged exactly
    when the two are equal: as soon as [a] and [b] differ, its result is
    neither [a] nor [b]. *)
Theorem diff_strings_unchanged_iff_equal (a b : string) (use_loguru_colors : bool) :
  (diff_strings a b use_loguru_colors = a ↔ a = b)
  ∧ (diff_strings a b use_loguru_colors = b ↔ a = b).
Proof.
  assert (Hout : diff_strings a b use_loguru_colors
                 = join (map (render use_loguru_colors) (segments a b))).
  { unfold diff_strings. rewrite diff_loop. change (join []) with EmptyString.
    change (EmptyString ++ ?s)%string with s. apply pieces_rendered. }
  pose proof (get_opcodes_texts a b) as Ht. unfold texts in Ht.
  fold (get_opcodes a b) in Ht. fold (segments a b) in Ht.
  injection Ht as Ha Hb.
  split; (split; [|intros <-; apply diff_strings_same]); intros Hd.
  - apply segments_plain_equal.
    apply (rendered_length use_loguru_colors Green); [done|].
    by rewrite <- Hout, Hd, Ha.
  - apply segments_plain_equal.
    apply (rendered_length use_loguru_colors Red); [done|].
    by rewrite <- Hout, Hd, Hb.
Qed.

Section empty_side.
Import PyList Difflib.

Lemma tiles_empty (la lb : list ascii) (i j : Z) (l : list Match) :
  la = [] ∨ lb = [] → tiles la lb i j l → l = [].
Proof.
  intros Hempty. destruct l as [|[[mi mj] mk] l]; [done|].
  intros (_ & _ & (Hk & Hin & _) & _). cbn [snd] in Hk.
  unfold inside, span, len in Hin.
  destruct Hempty as [-> | ->]; cbn [length] in Hin; lia.
Qed.

Lemma get_opcodes_to_empty (l : list ascii) :
  Difflib.get_opcodes (new l [])
  = if 0 <? len l then [(Delete, 0, len l, 0, 0)] else [].
Proof.
  unfold Difflib.get_opcodes.
  destruct (get_matching_blocks_tiles l []) as (blocks & -> & Ht).
  apply tiles_empty in Ht as ->; [|by right].
  cbn [app fold_left opcode_step len length]. change (Z.of_nat 0) with 0.
  rewrite Z.ltb_irrefl, andb_false_r, Z.add_0_r. cbn [Z.eqb snd].
  by destruct (0 <? Z.of_nat (length l)).
Qed.

Lemma get_opcodes_from_empty (l : list ascii) :
  Difflib.get_opcodes (new [] l)
  = if 0 <? len l then [(Insert, 0, 0, 0, len l)] else [].
Proof.
  unfold Difflib.get_opcodes.
  destruct (get_matching_blocks_tiles [] l) as (blocks & -> & Ht).
  apply tiles_empty in Ht as ->; [|by left].
  cbn [app fold_left opcode_step len length]. change (Z.of_nat 0) with 0.
  rewrite Z.ltb_irrefl. cbn [andb Z.eqb snd].
  by destruct (0 <? Z.of_nat (length l)).
Qed.

End empty_side.

(** X14: against the empty string, [diff_strings] colours the whole of
    the other string: green when it is the second one, red when it is the
    first. *)
Theorem diff_strings_empty_side (s : string) (use_loguru_colors : bool) :
  s ≠ "" →
  diff_strings "" s use_loguru_colors = render use_loguru_colors (Green, s)
  ∧ diff_strings s "" use_loguru_colors = render use_loguru_colors (Red, s).
Proof.
  intros Hs.
  assert (Hlen : (0 <? PyList.len (list_ascii_of_string s)) = true).
  { apply Z.ltb_lt. rewrite len_list_ascii. unfold PyStr.len. destruct s; [done|].
    cbn [String.length]. lia. }
  unfold diff_strings, get_opcodes, render. cbn [list_ascii_of_string].
  rewrite get_opcodes_from_empty, get_opcodes_to_empty, Hlen.
  cbn [fold_left]. unfold diff_step.
  destruct (markers use_loguru_colors) as [[[green endgreen] red] endred].
  unfold join. cbn [app fold_right fst snd].
  rewrite !append_empty_r, !len_list_ascii, !slice_all. done.
Qed.

Lemma diff_strings_empty_side_witness :
  "an answer" ≠ ""
  ∧ diff_strings "" "an answer" true = render true (Green, "an answer")
  ∧ diff_strings "an answer" "" true = render true (Red, "an answer").
Proof.
  split; [done|]. apply (diff_strings_empty_side "an answer" true). done.
Defined.

(** ** The view of examples that agree, or with an empty text *)

Lemma zip_same {A} (l : list A) : Forall (λ p : A * A, p.1 = p.2) (zip l l).
Proof. induction l as [|x l IH]; by constructor. Qed.

(** X15: for a worst example whose two texts are the same, the view logs
    one text three times: the diff of the example is its reference text,
    without any marker. *)
Theorem log_example_same (i : Z) (e : Example) (env : Env) (t : trace) :
  source_model e = optimized_model e →
  log_example (i, e) env t
  = (t ++ [EvLog (LStr separator) [];
           EvLog (LStr reference_format) [LInt (i + 1); LStr (text_of fst e)];
           EvLog (LStr actual_format) [LInt (i + 1); LStr (text_of fst e)];
           EvLog (LStr diff_format) [LInt (i + 1)];
           EvLog (LStr (text_of fst e)) []],
     Normal tt).
Proof.
  intros Hsame. rewrite log_example_run. unfold example_events. cbn [fst snd].
  assert (Hlines : Forall (λ p : string * string, p.1 = p.2) (kept_lines e)).
  { unfold kept_lines. rewrite Hsame. apply Forall_forall. intros p Hp.
    apply list_elem_of_filter in Hp as [_ Hp]. revert p Hp. apply Forall_forall, zip_same. }
  assert (H2 : text_of snd e = text_of fst e).
  { unfold text_of. f_equal. apply map_ext_Forall.
    eapply Forall_impl; [exact Hlines|]. by intros [l1 l2]; cbn; intros ->. }
  assert (H3 : text_of (λ ls, diff_strings ls.1 ls.2 false) e = text_of fst e).
  { unfold text_of. f_equal. apply map_ext_Forall.
    eapply Forall_impl; [exact Hlines|]. intros [l1 l2]; cbn; intros ->.
    by rewrite diff_strings_same. }
  by rewrite H2, H3.
Qed.

Lemma log_example_same_witness :
  source_model {| source_model := "Paris."; optimized_model := "Paris." |}
  = optimized_model {| source_model := "Paris."; optimized_model := "Paris." |}
  ∧ log_example (0, {| source_model := "Paris."; optimized_model := "Paris." |})
      sample_env []
    = ([] ++ [EvLog (LStr separator) [];
              EvLog (LStr reference_format)
                [LInt (0 + 1);
                 LStr (text_of fst {| source_model := "Paris.";
                                      optimized_model := "Paris." |})];
              EvLog (LStr actual_format)
                [LInt (0 + 1);
                 LStr (text_of fst {| source_model := "Paris.";
                                      optimized_model := "Paris." |})];
              EvLog (LStr diff_format) [LInt (0 + 1)];
              EvLog (LStr (text_of fst {| source_model := "Paris.";
                                          optimized_model := "Paris." |})) []],
       Normal tt).
Proof.
  split; [reflexivity|].
  apply (log_example_same 0 {| source_model := "Paris."; optimized_model := "Paris." |}
           sample_env []).
  reflexivity.
Defined.


